(** * SEO agent worker: a shallow embedding of [src/worker.ts]

    The development follows the worker source: JavaScript strings are
    sequences of UTF-16 code units, the five regular-expression extractors
    are run by a small backtracking matcher, the rule-based scoring engine is
    transcribed branch by branch, and the two request handlers are programs
    over the collaborator calls they make. *)

From Stdlib Require Import ZArith NArith List String Ascii Bool Lia PrimFloat.
From Stdlib Require Import DecimalFacts DecimalZ.
From stdpp Require Import base list gmap.
Import ListNotations.

Local Open Scope N_scope.
Local Open Scope nat_scope.

(** ** JavaScript strings *)

(** A JavaScript string is a sequence of UTF-16 code units; [length] is the
    [.length] property. *)
Abbreviation jsstring := (list N).

(** An ASCII literal of the source, as code units. *)
Definition js (s : string) : jsstring :=
  map N_of_ascii (list_ascii_of_string s).

(** [a === b] on strings. *)
Fixpoint str_eqb (a b : jsstring) : bool :=
  match a, b with
  | [], [] => true
  | x :: a', y :: b' => N.eqb x y && str_eqb a' b'
  | _, _ => false
  end.

(** [s.startsWith(p)] *)
Fixpoint starts_with (p s : jsstring) : bool :=
  match p, s with
  | [], _ => true
  | x :: p', y :: s' => N.eqb x y && starts_with p' s'
  | _ :: _, [] => false
  end.

(** [!s] for a string [s]: only the empty string is falsy. *)
Definition str_falsy (s : jsstring) : bool :=
  match s with [] => true | _ :: _ => false end.

(** Decimal digits of a natural number, most significant first: what a
    template literal interpolates for a [.length]. *)
Fixpoint uint_units (d : Decimal.uint) : jsstring :=
  match d with
  | Decimal.Nil => []
  | Decimal.D0 d => 48%N :: uint_units d
  | Decimal.D1 d => 49%N :: uint_units d
  | Decimal.D2 d => 50%N :: uint_units d
  | Decimal.D3 d => 51%N :: uint_units d
  | Decimal.D4 d => 52%N :: uint_units d
  | Decimal.D5 d => 53%N :: uint_units d
  | Decimal.D6 d => 54%N :: uint_units d
  | Decimal.D7 d => 55%N :: uint_units d
  | Decimal.D8 d => 56%N :: uint_units d
  | Decimal.D9 d => 57%N :: uint_units d
  end.

Definition nat_toString (n : nat) : jsstring := uint_units (Nat.to_uint n).

(** ** Data model *)

(** The [pageData] object built by [analyzeSeoMultiStep]. *)
Record PageData := mkPageData {
  html : jsstring;
  title : jsstring;
  metaDescription : jsstring;
  headings : list jsstring;
  images : list jsstring;
  links : list jsstring
}.

(** [{ text: string; priority: string }] *)
Record Recommendation := mkRecommendation {
  text : jsstring;
  priority : jsstring
}.

Definition NO_TITLE : jsstring := js "No title found".
Definition NO_META : jsstring := js "No meta description".

(** ** Scoring engine *)

(** [calculateSeoScore]: every [score -= k] rebinds [score]. *)
Definition calculateSeoScore (pageData : PageData) : Z :=
  let score := 100%Z in
  (* Title evaluation *)
  let score :=
    if str_falsy (title pageData) || str_eqb (title pageData) NO_TITLE
    then (score - 20)%Z
    else if length (title pageData) <? 30 then (score - 10)%Z
    else if 60 <? length (title pageData) then (score - 10)%Z
    else score in
  (* Meta description evaluation *)
  let score :=
    if str_falsy (metaDescription pageData)
       || str_eqb (metaDescription pageData) NO_META
    then (score - 20)%Z
    else if length (metaDescription pageData) <? 120 then (score - 10)%Z
    else if 160 <? length (metaDescription pageData) then (score - 10)%Z
    else score in
  (* Headings evaluation *)
  let score :=
    if length (headings pageData) =? 0 then (score - 15)%Z
    else if length (headings pageData) <? 3 then (score - 5)%Z
    else score in
  (* Images evaluation *)
  let score :=
    if 20 <? length (images pageData) then (score - 10)%Z else score in
  (* Links evaluation *)
  let score :=
    if length (links pageData) <? 3 then (score - 10)%Z else score in
  Z.max 0 (Z.min 100 score).

(** The severity marks that open every issue text, as they stand in the
    source file. *)
Definition MARK_CRITICAL : jsstring := [0x201a; 0xf9; 0xe5]%N.
Definition MARK_WARNING : jsstring := [0x201a; 0xf6; 0x2020; 0xd4; 0x220f; 0xe8]%N.
Definition MARK_INFO : jsstring := [0x201a; 0xd1; 0x3c0; 0xd4; 0x220f; 0xe8]%N.

Definition ISSUE_NO_IMAGES : jsstring :=
  MARK_INFO ++ js " No images found - visual content can improve engagement".

(** [findSeoIssues]: [issues.push(x)] is [issues ++ [x]]. *)
Definition findSeoIssues (pageData : PageData) : list jsstring :=
  let issues := [] in
  (* Title issues *)
  let issues :=
    if str_falsy (title pageData) || str_eqb (title pageData) NO_TITLE
    then issues ++ [MARK_CRITICAL ++ js " Missing title tag - critical for SEO"]
    else if length (title pageData) <? 30
    then issues ++ [MARK_WARNING ++ js " Title tag is too short ("
                      ++ nat_toString (length (title pageData))
                      ++ js " characters) - should be 50-60 characters"]
    else if 60 <? length (title pageData)
    then issues ++ [MARK_WARNING ++ js " Title tag is too long ("
                      ++ nat_toString (length (title pageData))
                      ++ js " characters) - may be truncated in search results"]
    else issues in
  (* Meta description issues *)
  let issues :=
    if str_falsy (metaDescription pageData)
       || str_eqb (metaDescription pageData) NO_META
    then issues ++ [MARK_CRITICAL
                      ++ js " Missing meta description - important for click-through rates"]
    else if length (metaDescription pageData) <? 120
    then issues ++ [MARK_WARNING ++ js " Meta description is too short ("
                      ++ nat_toString (length (metaDescription pageData))
                      ++ js " characters) - should be 150-160 characters"]
    else if 160 <? length (metaDescription pageData)
    then issues ++ [MARK_WARNING ++ js " Meta description is too long ("
                      ++ nat_toString (length (metaDescription pageData))
                      ++ js " characters) - will be truncated"]
    else issues in
  (* Heading issues *)
  let issues :=
    if length (headings pageData) =? 0
    then issues ++ [MARK_CRITICAL
                      ++ js " No heading tags (H1-H6) found - critical for content structure"]
    else if length (headings pageData) <? 3
    then issues ++ [MARK_WARNING
                      ++ js " Low number of headings - consider adding more subheadings for better structure"]
    else issues in
  (* Image issues *)
  let issues :=
    if length (images pageData) =? 0
    then issues ++ [ISSUE_NO_IMAGES]
    else if 20 <? length (images pageData)
    then issues ++ [MARK_WARNING ++ js " High number of images ("
                      ++ nat_toString (length (images pageData))
                      ++ js ") - ensure optimization to prevent slow load times"]
    else issues in
  (* Link issues *)
  let issues :=
    if length (links pageData) <? 3
    then issues ++ [MARK_WARNING
                      ++ js " Low number of internal links - improve site structure with more linking"]
    else issues in
  issues.

Definition HIGH : jsstring := js "High".
Definition MEDIUM : jsstring := js "Medium".
Definition LOW : jsstring := js "Low".

Definition REC_TITLE : Recommendation :=
  mkRecommendation
    ([0xf8ff; 0xfc; 0xec; 0xf9]%N
       ++ js " Add a descriptive, keyword-rich title tag (50-60 characters)")
    HIGH.
Definition REC_META : Recommendation :=
  mkRecommendation
    ([0xf8ff; 0xfc; 0xec; 0xf9]%N
       ++ js " Create a compelling meta description (150-160 characters) with a call-to-action")
    HIGH.
Definition REC_HEADINGS : Recommendation :=
  mkRecommendation
    ([0xf8ff; 0xfc; 0xe8; 0xf3; 0xd4; 0x220f; 0xe8]%N
       ++ js " Implement proper heading structure (H1 for title, H2-H6 for sections)")
    HIGH.
Definition REC_IMAGES : Recommendation :=
  mkRecommendation
    ([0xf8ff; 0xfc; 0xf1; 0xba; 0xd4; 0x220f; 0xe8]%N
       ++ js " Ensure all images have descriptive alt text for accessibility and SEO")
    MEDIUM.
Definition REC_SPEED : Recommendation :=
  mkRecommendation
    ([0x201a; 0xf6; 0xb0]%N
       ++ js " Optimize page load speed - compress images, minify CSS/JS, use CDN")
    MEDIUM.
Definition REC_LINKS : Recommendation :=
  mkRecommendation
    ([0xf8ff; 0xfc; 0xee; 0xf3]%N
       ++ js " Add 3-5 internal links to relevant pages to improve site structure")
    MEDIUM.
Definition REC_MOBILE : Recommendation :=
  mkRecommendation
    ([0xf8ff; 0xfc; 0xec; 0xb1]%N
       ++ js " Verify mobile responsiveness - Google uses mobile-first indexing")
    MEDIUM.
Definition REC_HTTPS : Recommendation :=
  mkRecommendation
    ([0xf8ff; 0xfc; 0xee; 0xed]%N
       ++ js " Ensure HTTPS is properly configured across the entire site")
    LOW.
Definition REC_SITEMAP : Recommendation :=
  mkRecommendation
    ([0xf8ff; 0xfc; 0xf3; 0x222b; 0xd4; 0x220f; 0xe8]%N
       ++ js " Submit XML sitemap to Google Search Console for better indexing")
    LOW.

(** [generateRecommendations]: three guarded pushes, then the unguarded ones. *)
Definition generateRecommendations (pageData : PageData) : list Recommendation :=
  let recommendations := [] in
  (* Title recommendations *)
  let recommendations :=
    if str_falsy (title pageData) || str_eqb (title pageData) NO_TITLE
       || (length (title pageData) <? 50)
    then recommendations ++ [REC_TITLE] else recommendations in
  (* Meta description recommendations *)
  let recommendations :=
    if str_falsy (metaDescription pageData)
       || str_eqb (metaDescription pageData) NO_META
    then recommendations ++ [REC_META] else recommendations in
  (* Heading recommendations *)
  let recommendations :=
    if length (headings pageData) =? 0
    then recommendations ++ [REC_HEADINGS] else recommendations in
  (* Universal recommendations *)
  let recommendations := recommendations ++ [REC_IMAGES] in
  let recommendations := recommendations ++ [REC_SPEED] in
  let recommendations := recommendations ++ [REC_LINKS] in
  let recommendations := recommendations ++ [REC_MOBILE] in
  let recommendations := recommendations ++ [REC_HTTPS] in
  let recommendations := recommendations ++ [REC_SITEMAP] in
  recommendations.

(** ** Regular expressions

    The worker's six patterns use literal characters, character classes,
    a repetition of one class (greedy or lazy) and a capture group around
    such a repetition.  The matcher below is the backtracking matcher of
    the language for that fragment: alternatives are tried in priority
    order and the first success wins. *)

Module Regex.

Inductive node :=
| Chr (p : N -> bool)                              (* one unit of a class *)
| Rep (p : N -> bool) (min : nat) (greedy : bool)  (* p*, p+, p*? *)
| Group (n : node).                                (* ( ... ) *)

(** Repetition of a class, then the continuation [k] on what is left.
    Greedy: one more unit first, the continuation second.  Lazy: the
    continuation first. *)
Fixpoint rep {R : Type} (p : N -> bool) (greedy : bool)
    (k : jsstring -> option R) (min : nat) (s : jsstring) : option R :=
  let more (min' : nat) :=
    match s with
    | c :: s' => if p c then rep p greedy k min' s' else None
    | [] => None
    end in
  match min with
  | S min' => more min'
  | 0 =>
      if greedy then
        match more 0 with
        | Some r => Some r
        | None => k s
        end
      else
        match k s with
        | Some r => Some r
        | None => more 0
        end
  end.

(** One node; the continuation receives what the group captured inside the
    node, if any, and the rest of the input. *)
Fixpoint match_node {R : Type} (n : node) (s : jsstring)
    (k : option jsstring -> jsstring -> option R) : option R :=
  match n with
  | Chr p =>
      match s with
      | c :: s' => if p c then k None s' else None
      | [] => None
      end
  | Rep p min greedy => rep p greedy (k None) min s
  | Group n' =>
      match_node n' s
        (fun _ s' => k (Some (take (length s - length s') s)) s')
  end.

(** A sequence of nodes from the start of [s]: the capture and the rest. *)
Fixpoint match_seq (r : list node) (cap : option jsstring) (s : jsstring)
    : option (option jsstring * jsstring) :=
  match r with
  | [] => Some (cap, s)
  | n :: r' =>
      match_node n s
        (fun c s' => match_seq r' (match c with Some _ => c | None => cap end) s')
  end.

(** A match: the matched substring [m[0]] and the capture [m[1]]. *)
Record result := mkResult { matched : jsstring; group1 : option jsstring }.

Definition match_here (r : list node) (s : jsstring) : option result :=
  match match_seq r None s with
  | Some (cap, rest) => Some (mkResult (take (length s - length rest) s) cap)
  | None => None
  end.

(** [s.match(r)] without the [g] flag: the leftmost match, or [None] for
    [null]. *)
Fixpoint exec (r : list node) (s : jsstring) : option result :=
  match match_here r s with
  | Some m => Some m
  | None =>
      match s with
      | [] => None
      | _ :: s' => exec r s'
      end
  end.

(** All matches of a [g] pattern, left to right, each search starting where
    the previous match ended (one unit further after an empty match).
    [skip] counts the units still covered by the previous match. *)
Fixpoint match_all_from (r : list node) (skip : nat) (s : jsstring)
    : list result :=
  match skip with
  | S skip' =>
      match s with
      | [] => []
      | _ :: s' => match_all_from r skip' s'
      end
  | 0 =>
      match match_here r s with
      | Some m =>
          m :: match s with
               | [] => []
               | _ :: s' => match_all_from r (length (matched m) - 1) s'
               end
      | None =>
          match s with
          | [] => []
          | _ :: s' => match_all_from r 0 s'
          end
      end
  end.

Definition match_all (r : list node) (s : jsstring) : list result :=
  match_all_from r 0 s.

(** [s.replace(r, by)] for a [g] pattern and a replacement without [$]. *)
Fixpoint replace_from (r : list node) (by_ : jsstring) (skip : nat)
    (s : jsstring) : jsstring :=
  match skip with
  | S skip' =>
      match s with
      | [] => []
      | _ :: s' => replace_from r by_ skip' s'
      end
  | 0 =>
      match match_here r s with
      | Some m =>
          by_ ++ match s with
                 | [] => []
                 | c :: s' =>
                     match length (matched m) with
                     | 0 => c :: replace_from r by_ 0 s'
                     | S n => replace_from r by_ n s'
                     end
                 end
      | None =>
          match s with
          | [] => []
          | c :: s' => c :: replace_from r by_ 0 s'
          end
      end
  end.

Definition replace_all (r : list node) (by_ : jsstring) (s : jsstring)
    : jsstring :=
  replace_from r by_ 0 s.

(** *** Character classes *)

(** Case folding of the [i] flag.  Every literal of the patterns is ASCII,
    and the language never folds a unit above 127 onto one below 128, so
    folding the ASCII letters is all that can make two units agree. *)
Definition fold_case (u : N) : N :=
  if (97 <=? u)%N && (u <=? 122)%N then (u - 32)%N else u.

(** A literal character under the [i] flag. *)
Definition ci (a : N) : N -> bool := fun u => N.eqb (fold_case u) (fold_case a).

(** Line terminators: LF, CR, LS, PS. *)
Definition line_terminator (u : N) : bool :=
  N.eqb u 0x0A || N.eqb u 0x0D || N.eqb u 0x2028 || N.eqb u 0x2029.

(** [.] without the [s] flag. *)
Definition dot (u : N) : bool := negb (line_terminator u).

(** [\s]: white space and line terminators. *)
Definition space (u : N) : bool :=
  N.eqb u 0x09 || N.eqb u 0x0B || N.eqb u 0x0C || N.eqb u 0x20
  || N.eqb u 0xA0 || N.eqb u 0x1680
  || ((0x2000 <=? u)%N && (u <=? 0x200A)%N)
  || N.eqb u 0x202F || N.eqb u 0x205F || N.eqb u 0x3000 || N.eqb u 0xFEFF
  || line_terminator u.

(** The class of the double and the single quote, written [Q] below. *)
Definition quote (u : N) : bool := N.eqb u 0x22 || N.eqb u 0x27.

(** The negated class [^Q]. *)
Definition not_quote (u : N) : bool := negb (quote u).

(** [[^>]] *)
Definition not_gt (u : N) : bool := negb (N.eqb u 0x3E).

(** [[1-6]] *)
Definition digit_1_6 (u : N) : bool := (0x31 <=? u)%N && (u <=? 0x36)%N.

(** The nodes of a literal under the [i] flag. *)
Definition lit (s : string) : list node := map (fun a => Chr (ci a)) (js s).

End Regex.

Import Regex.

(** ** HTML feature extraction *)

(** [/<title>(.*?)<\/title>/i] *)
Definition TITLE_RE : list node :=
  lit "<title>" ++ [Group (Rep dot 0 false)] ++ lit "</title>".

(** [/<meta\s+name=QdescriptionQ\s+content=Q(.*?)Q/i], each [Q] the quote
    class. *)
Definition META_RE : list node :=
  lit "<meta" ++ [Rep space 1 true] ++ lit "name=" ++ [Chr quote]
  ++ lit "description" ++ [Chr quote; Rep space 1 true] ++ lit "content="
  ++ [Chr quote; Group (Rep dot 0 false); Chr quote].

(** [/<h[1-6][^>]*>(.*?)<\/h[1-6]>/gi] *)
Definition HEADING_RE : list node :=
  lit "<h" ++ [Chr digit_1_6; Rep not_gt 0 true] ++ lit ">"
  ++ [Group (Rep dot 0 false)] ++ lit "</h" ++ [Chr digit_1_6] ++ lit ">".

(** [/<[^>]*>/g] *)
Definition TAG_RE : list node :=
  lit "<" ++ [Rep not_gt 0 true] ++ lit ">".

(** [/<img[^>]+src=Q([^Q]+)Q/gi] *)
Definition IMG_RE : list node :=
  lit "<img" ++ [Rep not_gt 1 true] ++ lit "src="
  ++ [Chr quote; Group (Rep not_quote 1 true); Chr quote].

(** [/<a[^>]+href=Q([^Q]+)Q/gi] *)
Definition LINK_RE : list node :=
  lit "<a" ++ [Rep not_gt 1 true] ++ lit "href="
  ++ [Chr quote; Group (Rep not_quote 1 true); Chr quote].

(** [m[1]]; the group of each pattern above takes part in every match, so the
    [None] branch is never taken (lemma [match_seq_group] below). *)
Definition capture (m : result) : jsstring :=
  match group1 m with
  | Some c => c
  | None => []
  end.

Definition extractTitle (html : jsstring) : jsstring :=
  match exec TITLE_RE html with
  | Some m => capture m
  | None => NO_TITLE
  end.

Definition extractMetaDescription (html : jsstring) : jsstring :=
  match exec META_RE html with
  | Some m => capture m
  | None => NO_META
  end.

Definition extractHeadings (html : jsstring) : list jsstring :=
  (* [html.match(regex) || []] then [h.replace(/<[^>]*>/g, '')] *)
  let matches := map matched (match_all HEADING_RE html) in
  map (fun h => replace_all TAG_RE [] h) matches.

Definition extractImages (html : jsstring) : list jsstring :=
  let matches := match_all IMG_RE html in
  map capture matches.

Definition extractLinks (html : jsstring) : list jsstring :=
  let matches := match_all LINK_RE html in
  map capture matches.

(** The [pageData] literal of [analyzeSeoMultiStep]. *)
Definition extractPageData (html : jsstring) : PageData :=
  mkPageData html (extractTitle html) (extractMetaDescription html)
    (extractHeadings html) (extractImages html) (extractLinks html).

(** ** JavaScript values and JSON

    The values the worker builds and serializes: objects keep their members
    in insertion order (none of their keys is an array index, which the
    engine would move to the front), and numbers are integers, printed in
    full (as [Number::toString] prints them below ten to the 21).  A number
    literal with a fraction or an exponent is outside this fragment and
    [JSON_parse] does not read it.  A value that may be [undefined] is an
    [option json]. *)

Unset Elimination Schemes.
Inductive json :=
| JNull
| JBool (b : bool)
| JNum (z : Z)
| JStr (s : jsstring)
| JArr (items : list json)
| JObj (members : list (jsstring * json)).
Set Elimination Schemes.

(** Induction on values, through the lists they nest. *)

Section JsonInduction.
Variable P : json -> Prop.
Hypothesis HNull : P JNull.
Hypothesis HBool : forall b : bool, P (JBool b).
Hypothesis HNum : forall z : Z, P (JNum z).
Hypothesis HStr : forall s : jsstring, P (JStr s).
Hypothesis HArr : forall items : list json, Forall P items -> P (JArr items).
Hypothesis HObj :
  forall members : list (jsstring * json),
    Forall (fun kv => P (snd kv)) members -> P (JObj members).

Fixpoint json_induction (v : json) : P v :=
  match v with
  | JNull => HNull
  | JBool b => HBool b
  | JNum z => HNum z
  | JStr s => HStr s
  | JArr items =>
      HArr items
        ((fix all (l : list json) : Forall P l :=
            match l with
            | [] => @List.Forall_nil _ P
            | x :: l' => @List.Forall_cons _ P x l' (json_induction x) (all l')
            end) items)
  | JObj members =>
      HObj members
        ((fix all (l : list (jsstring * json))
            : Forall (fun kv => P (snd kv)) l :=
            match l with
            | [] => @List.Forall_nil _ _
            | kv :: l' =>
                @List.Forall_cons _ (fun kv => P (snd kv)) kv l'
                  (json_induction (snd kv)) (all l')
            end) members)
  end.
End JsonInduction.

Module Json.

(** [Number::toString] of an integer. *)
Definition Z_toString (z : Z) : jsstring :=
  match Z.to_int z with
  | Decimal.Pos d => uint_units d
  | Decimal.Neg d => 0x2D%N :: uint_units d
  end.

Definition hex_digit (n : N) : N :=
  if (n <? 10)%N then (48 + n)%N else (87 + n)%N.

(** [\uXXXX] with lower-case digits. *)
Definition unicode_escape (u : N) : jsstring :=
  [0x5C; 0x75; hex_digit (u / 4096 mod 16); hex_digit (u / 256 mod 16);
   hex_digit (u / 16 mod 16); hex_digit (u mod 16)]%N.

Definition high_surrogate (u : N) : bool := (0xD800 <=? u)%N && (u <=? 0xDBFF)%N.
Definition low_surrogate (u : N) : bool := (0xDC00 <=? u)%N && (u <=? 0xDFFF)%N.

(** One unit that is not half of a surrogate pair. *)
Definition quote_unit (u : N) : jsstring :=
  if N.eqb u 0x08 then js "\b"
  else if N.eqb u 0x09 then js "\t"
  else if N.eqb u 0x0A then js "\n"
  else if N.eqb u 0x0C then js "\f"
  else if N.eqb u 0x0D then js "\r"
  else if N.eqb u 0x22 then [0x5C; 0x22]%N
  else if N.eqb u 0x5C then [0x5C; 0x5C]%N
  else if (u <? 0x20)%N || high_surrogate u || low_surrogate u
  then unicode_escape u
  else [u].

(** The body of [QuoteJSONString]: a surrogate pair goes through as it is,
    a lone surrogate is escaped. *)
Fixpoint quote_units (s : jsstring) : jsstring :=
  match s with
  | [] => []
  | u :: s' =>
      if high_surrogate u then
        match s' with
        | v :: s'' =>
            if low_surrogate v then u :: v :: quote_units s''
            else unicode_escape u ++ quote_units s'
        | [] => unicode_escape u
        end
      else quote_unit u ++ quote_units s'
  end.

Definition quote_string (s : jsstring) : jsstring :=
  [0x22%N] ++ quote_units s ++ [0x22%N].

(** [parts.join(',')] *)
Fixpoint comma_join (parts : list jsstring) : jsstring :=
  match parts with
  | [] => []
  | x :: parts' =>
      x ++ match parts' with
           | [] => []
           | _ :: _ => 0x2C%N :: comma_join parts'
           end
  end.

(** [JSON.stringify(v)] *)
Fixpoint JSON_stringify (v : json) : jsstring :=
  match v with
  | JNull => js "null"
  | JBool true => js "true"
  | JBool false => js "false"
  | JNum z => Z_toString z
  | JStr s => quote_string s
  | JArr items =>
      [0x5B%N] ++ comma_join (map JSON_stringify items) ++ [0x5D%N]
  | JObj members =>
      [0x7B%N]
      ++ comma_join
           (map (fun kv : jsstring * json =>
                   let (key, value) := kv in
                   quote_string key ++ [0x3A%N] ++ JSON_stringify value)
              members)
      ++ [0x7D%N]
  end.

(** *** Parsing *)

Definition ws (u : N) : bool :=
  N.eqb u 0x20 || N.eqb u 0x09 || N.eqb u 0x0A || N.eqb u 0x0D.

Fixpoint skip_ws (s : jsstring) : jsstring :=
  match s with
  | c :: s' => if ws c then skip_ws s' else s
  | [] => []
  end.

Definition hex_value (u : N) : option N :=
  if (48 <=? u)%N && (u <=? 57)%N then Some (u - 48)%N
  else if (97 <=? u)%N && (u <=? 102)%N then Some (u - 87)%N
  else if (65 <=? u)%N && (u <=? 70)%N then Some (u - 55)%N
  else None.

Definition hex4 (a b c d : N) : option N :=
  match hex_value a, hex_value b, hex_value c, hex_value d with
  | Some x, Some y, Some z, Some w => Some (x * 4096 + y * 256 + z * 16 + w)%N
  | _, _, _, _ => None
  end.

(** The unit a one-letter escape stands for. *)
Definition simple_escape (e : N) : option N :=
  if N.eqb e 0x22 then Some 0x22%N
  else if N.eqb e 0x5C then Some 0x5C%N
  else if N.eqb e 0x2F then Some 0x2F%N
  else if N.eqb e 0x62 then Some 0x08%N
  else if N.eqb e 0x66 then Some 0x0C%N
  else if N.eqb e 0x6E then Some 0x0A%N
  else if N.eqb e 0x72 then Some 0x0D%N
  else if N.eqb e 0x74 then Some 0x09%N
  else None.

Definition cons_unit (u : N) (r : option (jsstring * jsstring))
    : option (jsstring * jsstring) :=
  match r with
  | Some (str, rest) => Some (u :: str, rest)
  | None => None
  end.

(** The characters of a string literal after its opening quote, up to and
    including the closing quote. *)
Fixpoint parse_chars (s : jsstring) : option (jsstring * jsstring) :=
  match s with
  | [] => None
  | c :: s1 =>
      if N.eqb c 0x22 then Some ([], s1)
      else if N.eqb c 0x5C then
        match s1 with
        | [] => None
        | e :: s2 =>
            if N.eqb e 0x75 then
              match s2 with
              | h1 :: h2 :: h3 :: h4 :: s3 =>
                  match hex4 h1 h2 h3 h4 with
                  | Some u => cons_unit u (parse_chars s3)
                  | None => None
                  end
              | _ => None
              end
            else
              match simple_escape e with
              | Some u => cons_unit u (parse_chars s2)
              | None => None
              end
        end
      else if (c <? 0x20)%N then None
      else cons_unit c (parse_chars s1)
  end.

Definition digit_value (u : N) : option (Decimal.uint -> Decimal.uint) :=
  if N.eqb u 48 then Some Decimal.D0
  else if N.eqb u 49 then Some Decimal.D1
  else if N.eqb u 50 then Some Decimal.D2
  else if N.eqb u 51 then Some Decimal.D3
  else if N.eqb u 52 then Some Decimal.D4
  else if N.eqb u 53 then Some Decimal.D5
  else if N.eqb u 54 then Some Decimal.D6
  else if N.eqb u 55 then Some Decimal.D7
  else if N.eqb u 56 then Some Decimal.D8
  else if N.eqb u 57 then Some Decimal.D9
  else None.

(** The longest run of digits at the head of [s]. *)
Fixpoint parse_digits (s : jsstring) : Decimal.uint * jsstring :=
  match s with
  | c :: s' =>
      match digit_value c with
      | Some d => let (ds, rest) := parse_digits s' in (d ds, rest)
      | None => (Decimal.Nil, s)
      end
  | [] => (Decimal.Nil, [])
  end.

(** What may not follow the integer part in this model. *)
Definition continues_number (rest : jsstring) : bool :=
  match rest with
  | c :: _ => N.eqb c 0x2E || N.eqb c 0x65 || N.eqb c 0x45
  | [] => false
  end.

(** An integer literal without its sign: no leading zero. *)
Definition parse_uint (s : jsstring) : option (Decimal.uint * jsstring) :=
  let (ds, rest) := parse_digits s in
  if Decimal.uint_beq (Decimal.unorm ds) ds && negb (continues_number rest)
  then Some (ds, rest) else None.

Definition parse_number (s : jsstring) : option (json * jsstring) :=
  match s with
  | c :: s' =>
      if N.eqb c 0x2D then
        match parse_uint s' with
        | Some (ds, rest) => Some (JNum (Z.of_int (Decimal.Neg ds)), rest)
        | None => None
        end
      else
        match parse_uint s with
        | Some (ds, rest) => Some (JNum (Z.of_int (Decimal.Pos ds)), rest)
        | None => None
        end
  | [] => None
  end.

(** [expect lit s]: [s] without its prefix [lit]. *)
Definition expect (lit : jsstring) (s : jsstring) : option jsstring :=
  if starts_with lit s then Some (drop (length lit) s) else None.

(** Defining a property: a key already there keeps its place and takes the
    new value, a new key goes last. *)
Fixpoint obj_set (members : list (jsstring * json)) (key : jsstring)
    (value : json) : list (jsstring * json) :=
  match members with
  | [] => [(key, value)]
  | (k, v) :: members' =>
      if str_eqb k key then (k, value) :: members'
      else (k, v) :: obj_set members' key value
  end.

Definition obj_of_list (raw : list (jsstring * json)) : list (jsstring * json) :=
  fold_left (fun acc kv => obj_set acc (fst kv) (snd kv)) raw [].

(** A value, the elements of an array after its bracket, the members of an
    object after its brace; [fuel] bounds the number of nested calls. *)
Fixpoint parse_value (fuel : nat) (s : jsstring) : option (json * jsstring) :=
  match fuel with
  | 0 => None
  | S fuel' =>
      match skip_ws s with
      | [] => None
      | c :: s1 =>
          if N.eqb c 0x22 then
            match parse_chars s1 with
            | Some (str, rest) => Some (JStr str, rest)
            | None => None
            end
          else if N.eqb c 0x5B then
            match skip_ws s1 with
            | c2 :: s2 =>
                if N.eqb c2 0x5D then Some (JArr [], s2)
                else
                  match parse_elements fuel' s1 with
                  | Some (items, rest) => Some (JArr items, rest)
                  | None => None
                  end
            | [] => None
            end
          else if N.eqb c 0x7B then
            match skip_ws s1 with
            | c2 :: s2 =>
                if N.eqb c2 0x7D then Some (JObj [], s2)
                else
                  match parse_members fuel' s1 with
                  | Some (raw, rest) => Some (JObj (obj_of_list raw), rest)
                  | None => None
                  end
            | [] => None
            end
          else if N.eqb c 0x74 then
            match expect (js "true") (c :: s1) with
            | Some rest => Some (JBool true, rest)
            | None => None
            end
          else if N.eqb c 0x66 then
            match expect (js "false") (c :: s1) with
            | Some rest => Some (JBool false, rest)
            | None => None
            end
          else if N.eqb c 0x6E then
            match expect (js "null") (c :: s1) with
            | Some rest => Some (JNull, rest)
            | None => None
            end
          else parse_number (c :: s1)
      end
  end
with parse_elements (fuel : nat) (s : jsstring)
    : option (list json * jsstring) :=
  match fuel with
  | 0 => None
  | S fuel' =>
      match parse_value fuel' s with
      | Some (v, s1) =>
          match skip_ws s1 with
          | c :: s2 =>
              if N.eqb c 0x2C then
                match parse_elements fuel' s2 with
                | Some (items, rest) => Some (v :: items, rest)
                | None => None
                end
              else if N.eqb c 0x5D then Some ([v], s2)
              else None
          | [] => None
          end
      | None => None
      end
  end
with parse_members (fuel : nat) (s : jsstring)
    : option (list (jsstring * json) * jsstring) :=
  match fuel with
  | 0 => None
  | S fuel' =>
      match skip_ws s with
      | q :: s0 =>
          if N.eqb q 0x22 then
            match parse_chars s0 with
            | Some (key, s1) =>
                match skip_ws s1 with
                | colon :: s2 =>
                    if N.eqb colon 0x3A then
                      match parse_value fuel' s2 with
                      | Some (v, s3) =>
                          match skip_ws s3 with
                          | c :: s4 =>
                              if N.eqb c 0x2C then
                                match parse_members fuel' s4 with
                                | Some (raw, rest) => Some ((key, v) :: raw, rest)
                                | None => None
                                end
                              else if N.eqb c 0x7D then Some ([(key, v)], s4)
                              else None
                          | [] => None
                          end
                      | None => None
                      end
                    else None
                | [] => None
                end
            | None => None
            end
          else None
      | [] => None
      end
  end.

(** [JSON.parse(s)] on the fragment above; [None] stands for the thrown
    [SyntaxError].  No call nests deeper than twice the length of the
    text. *)
Definition JSON_parse (s : jsstring) : option json :=
  match parse_value (2 * length s + 2) s with
  | Some (v, rest) =>
      match skip_ws rest with
      | [] => Some v
      | _ :: _ => None
      end
  | None => None
  end.

End Json.

Import Json.

(** ** Values at run time *)

(** [Boolean(v)] *)
Definition truthy (v : option json) : bool :=
  match v with
  | None | Some JNull => false
  | Some (JBool b) => b
  | Some (JNum z) => negb (z =? 0)%Z
  | Some (JStr s) => negb (str_falsy s)
  | Some (JArr _) | Some (JObj _) => true
  end.

(** [a || b] *)
Definition or_else (a b : option json) : option json :=
  if truthy a then a else b.

(** The own property [key] of an object's member list. *)
Fixpoint member (key : jsstring) (members : list (jsstring * json))
    : option json :=
  match members with
  | [] => None
  | (k, v) :: members' => if str_eqb k key then Some v else member key members'
  end.

(** [o?.key], for the keys the worker reads (none of them a built-in
    property of strings or arrays). *)
Definition opt_get (o : option json) (key : jsstring) : option json :=
  match o with
  | Some (JObj members) => member key members
  | _ => None
  end.

(** [String(v)], as a template literal and [join] apply it. *)
Fixpoint ToString_json (v : json) : jsstring :=
  match v with
  | JNull => js "null"
  | JBool true => js "true"
  | JBool false => js "false"
  | JNum z => Z_toString z
  | JStr s => s
  | JArr items =>
      comma_join
        (map (fun x => match x with JNull => [] | _ => ToString_json x end) items)
  | JObj _ => js "[object Object]"
  end.

Definition ToString (v : option json) : jsstring :=
  match v with
  | None => js "undefined"
  | Some v => ToString_json v
  end.

(** [parts.join(sep)] *)
Fixpoint join (sep : jsstring) (parts : list (option json)) : jsstring :=
  match parts with
  | [] => []
  | x :: parts' =>
      match x with None | Some JNull => [] | _ => ToString x end
      ++ match parts' with
         | [] => []
         | _ :: _ => sep ++ join sep parts'
         end
  end.

(** ** The worker's records *)

Record Analysis := mkAnalysis {
  score : Z;
  issues : list jsstring;
  recommendations : list Recommendation;
  ragContext : jsstring
}.

(** [{ pageData, analysis }] *)
Record AnalysisResult := mkAnalysisResult {
  pageData : PageData;
  analysis : Analysis
}.

(** A match of the vector index; only its metadata is read. *)
Record VectorizeMatch := mkMatch { metadata : option json }.

(** A response of the worker: [c.json(body, status)]. *)
Record Response := mkResponse { status : nat; body : json }.

(** The objects above as JSON values, members in the order of the object
    literals. *)
Definition strings_json (l : list jsstring) : json := JArr (map JStr l).

Definition PageData_json (pd : PageData) : json :=
  JObj [(js "html", JStr (html pd)); (js "title", JStr (title pd));
        (js "metaDescription", JStr (metaDescription pd));
        (js "headings", strings_json (headings pd));
        (js "images", strings_json (images pd));
        (js "links", strings_json (links pd))].

Definition Recommendation_json (r : Recommendation) : json :=
  JObj [(js "text", JStr (text r)); (js "priority", JStr (priority r))].

Definition recommendations_json (l : list Recommendation) : json :=
  JArr (map Recommendation_json l).

Definition Analysis_json (a : Analysis) : json :=
  JObj [(js "score", JNum (score a)); (js "issues", strings_json (issues a));
        (js "recommendations", recommendations_json (recommendations a));
        (js "ragContext", JStr (ragContext a))].

Definition AnalysisResult_json (r : AnalysisResult) : json :=
  JObj [(js "pageData", PageData_json (pageData r));
        (js "analysis", Analysis_json (analysis r))].

(** ** Collaborators

    Each awaited call of the worker is an event; a handler is a program over
    events.  What is thrown is the message of an [Error], or [None] for a
    value that is no [Error]. *)

Definition thrown := option jsstring.

(** The errors the language itself throws in the handlers: the [TypeError]
    of destructuring [null] (the first property of the pattern is given) and
    the [SyntaxError] of [JSON.parse] (the text is given).  Their messages
    are the engine's: the model does not fix the wording, the world gives
    it. *)
Inductive engine_error :=
| TYPE_ERROR (property : jsstring)
| SYNTAX_ERROR (text : jsstring).

Inductive event : Type -> Type :=
| Fetch (url : option json) : event jsstring
| AiEmbed (text : option json) : event (list (list float))
| VectorizeQuery (vector : option (list float)) (topK : nat)
    : event (list VectorizeMatch)
| DbInsertAnalysis (url : option json) (analysis_data : jsstring) (score : Z)
    (recommendations : jsstring) : event unit
| DbSessionFirst (sessionId : option json) : event (option json)
| DbSessionReplace (sessionId : option json) (context : jsstring) : event unit
| CacheGet (key : jsstring) : event (option jsstring)
| CachePut (key value : jsstring) (expirationTtl : nat) : event unit
| AiChat (system : jsstring) (user : option json) (max_tokens : nat)
    : event (option json).

Inductive prog (A : Type) : Type :=
| Ret (a : A)
| Throw (e : thrown)
| Raise (e : engine_error)
| Do {X : Type} (ev : event X) (k : X -> prog A).

Arguments Ret {A} a.
Arguments Throw {A} e.
Arguments Raise {A} e.
Arguments Do {A X} ev k.

Fixpoint bind {A B : Type} (p : prog A) (f : A -> prog B) : prog B :=
  match p with
  | Ret a => f a
  | Throw e => Throw e
  | Raise e => Raise e
  | Do ev k => Do ev (fun x => bind (k x) f)
  end.

Declare Scope prog_scope.
Delimit Scope prog_scope with prog.
Notation "'let*' x ':=' p 'in' q" := (bind p (fun x => q))
  (at level 10, x name, p at level 100, q at level 200) : prog_scope.
Notation "'await' ev" := (Do ev Ret) (at level 10, ev at level 9) : prog_scope.

Inductive collaborator :=
| Transport | Embedding | VectorIndex | DurableStore | Cache | GenerativeText.

Definition collaborator_of {X : Type} (ev : event X) : collaborator :=
  match ev with
  | Fetch _ => Transport
  | AiEmbed _ => Embedding
  | VectorizeQuery _ _ => VectorIndex
  | DbInsertAnalysis _ _ _ _ | DbSessionFirst _ | DbSessionReplace _ _ =>
      DurableStore
  | CacheGet _ | CachePut _ _ _ => Cache
  | AiChat _ _ _ => GenerativeText
  end.

(** A call that was made. *)
Inductive call :=
| Called {X : Type} (ev : event X).

Inductive outcome (A : Type) : Type :=
| Returned (a : A)
| Thrown (e : thrown).

Arguments Returned {A} a.
Arguments Thrown {A} e.

(** What lies outside the worker during one request: the answers of the
    collaborators, whether a cache operation fails, and the wording the
    engine gives to the errors of the language.  The cache content itself is
    the state; it is read within the time to live of its entries, so no
    entry expires or is evicted. *)
Record World := mkWorld {
  answer : forall X : Type, event X -> outcome X;
  cache_get_fault : jsstring -> option thrown;
  cache_put_fault : jsstring -> option thrown;
  engine_message : engine_error -> jsstring
}.

Definition step (w : World) (cache : gmap jsstring jsstring) {X : Type}
    (ev : event X) : outcome X * gmap jsstring jsstring :=
  match ev in event T return outcome T * gmap jsstring jsstring with
  | CacheGet key =>
      match cache_get_fault w key with
      | Some e => (Thrown e, cache)
      | None => (Returned (cache !! key), cache)
      end
  | CachePut key value _ =>
      match cache_put_fault w key with
      | Some e => (Thrown e, cache)
      | None => (Returned tt, <[key := value]> cache)
      end
  | ev' => (answer w _ ev', cache)
  end.

(** Running a program: its outcome, the cache afterwards, the calls made. *)
Fixpoint run {A : Type} (w : World) (p : prog A) (cache : gmap jsstring jsstring)
    : outcome A * gmap jsstring jsstring * list call :=
  match p with
  | Ret a => (Returned a, cache, [])
  | Throw e => (Thrown e, cache, [])
  | Raise e => (Thrown (Some (engine_message w e)), cache, [])
  | Do ev k =>
      match step w cache ev with
      | (Returned x, cache') =>
          let '(o, cache'', calls) := run w (k x) cache' in
          (o, cache'', Called ev :: calls)
      | (Thrown e, cache') => (Thrown e, cache', [Called ev])
      end
  end.

(** ** The worker *)

Local Open Scope prog_scope.

Definition NEWLINES : jsstring := [0x0A; 0x0A]%N.

(** [ragResults.matches.map((m) => m.metadata?.text || '').filter(Boolean)
    .join('\n\n')] *)
Definition rag_context (matches : list VectorizeMatch) : jsstring :=
  join NEWLINES
    (List.filter truthy
       (map (fun m => or_else (opt_get (metadata m) (js "text")) (Some (JStr [])))
          matches)).

(** [analyzeSeoMultiStep(url, env)] *)
Definition analyzeSeoMultiStep (url : option json) : prog AnalysisResult :=
  (* Step 1: Scrape the URL *)
  let* html := await (Fetch url) in
  let pageData := extractPageData html in
  (* Step 2: Generate embeddings and query RAG *)
  let queryText :=
    js "SEO analysis for: " ++ title pageData ++ js ". Meta: "
    ++ metaDescription pageData in
  let* embedding := await (AiEmbed (Some (JStr queryText))) in
  let* ragResults := await (VectorizeQuery (head embedding) 10) in
  let ragContext := rag_context ragResults in
  (* Step 3: Rule-based analysis *)
  let analysis :=
    mkAnalysis (calculateSeoScore pageData) (findSeoIssues pageData)
      (generateRecommendations pageData) (take 500 ragContext) in
  (* Step 4: Save to D1 *)
  let* _ := await (DbInsertAnalysis url (JSON_stringify (PageData_json pageData))
                (score analysis)
                (JSON_stringify (recommendations_json (recommendations analysis)))) in
  (* Step 5: Cache results *)
  let result := mkAnalysisResult pageData analysis in
  let* _ := await (CachePut (js "analysis:" ++ ToString url)
                (JSON_stringify (AnalysisResult_json result)) 3600) in
  Ret result.

(** The body of [app.post('/api/analyze')] inside its [try]; [body] is what
    [c.req.json()] resolved to. *)
Definition analyze_try (body : json) : prog Response :=
  match body with
  | JNull => Raise (TYPE_ERROR (js "url"))
  | _ =>
      let url := opt_get (Some body) (js "url") in
      if negb (truthy url) then
        Ret (mkResponse 400 (JObj [(js "error", JStr (js "URL is required"))]))
      else
        (* Check cache first *)
        let* cached := await (CacheGet (js "analysis:" ++ ToString url)) in
        match cached with
        | Some (c :: cached') =>
            match JSON_parse (c :: cached') with
            | Some data =>
                Ret (mkResponse 200
                       (JObj [(js "cached", JBool true); (js "data", data);
                              (js "message", JStr (js "Retrieved from cache"))]))
            | None => Raise (SYNTAX_ERROR (c :: cached'))
            end
        | _ =>
            (* Run analysis *)
            let* result := analyzeSeoMultiStep url in
            Ret (mkResponse 200
                   (JObj [(js "cached", JBool false);
                          (js "data", AnalysisResult_json result);
                          (js "message", JStr (js "Analysis complete"))]))
        end
  end.

(** [ragResults.matches.map((m) => m.metadata?.source || 'Unknown')
    .filter(Boolean)] *)
Definition chat_sources (matches : list VectorizeMatch) : list (option json) :=
  List.filter truthy
    (map (fun m =>
            or_else (opt_get (metadata m) (js "source")) (Some (JStr (js "Unknown"))))
       matches).

(** A property that is [undefined] is left out of the serialized object; an
    array element that is [undefined] is serialized as [null]. *)
Definition field (key : jsstring) (v : option json) : list (jsstring * json) :=
  match v with
  | Some v => [(key, v)]
  | None => []
  end.

Definition array_json (l : list (option json)) : json :=
  JArr (map (fun v => match v with Some v => v | None => JNull end) l).

(** The body of [app.post('/api/chat')] inside its [try]. *)
Definition chat_try (body : json) : prog Response :=
  match body with
  | JNull => Raise (TYPE_ERROR (js "message"))
  | _ =>
      let message := opt_get (Some body) (js "message") in
      let sessionId := opt_get (Some body) (js "sessionId") in
      (* Get relevant SEO knowledge from Vectorize *)
      let* queryEmbedding := await (AiEmbed message) in
      let* ragResults := await (VectorizeQuery (head queryEmbedding) 5) in
      (* Build context from RAG results *)
      let ragContext := rag_context ragResults in
      (* Get user history from D1 *)
      let* history := await (DbSessionFirst sessionId) in
      (* Generate response *)
      let* response :=
        await (AiChat
                 (js "You are an expert SEO consultant. Use this knowledge base to provide accurate advice:"
                  ++ NEWLINES ++ ragContext ++ NEWLINES
                  ++ js "Previous context: "
                  ++ ToString (or_else (opt_get history (js "context"))
                                 (Some (JStr (js "None")))))
                 message 1024) in
      (* Update session memory *)
      let* _ := await (DbSessionReplace sessionId
                    (JSON_stringify (JObj (field (js "lastMessage") message)))) in
      Ret (mkResponse 200
             (JObj (field (js "response") response
                    ++ [(js "sources", array_json (chat_sources ragResults))])))
  end.

(** [catch (error)]: the response for what was thrown. *)
Definition on_error (e : thrown) : Response :=
  mkResponse 500
    (JObj [(js "error",
            JStr (match e with Some message => message
                             | None => js "Unknown error" end))]).

(** A route: its [try] body run in a world, what is thrown answered by the
    [catch]. *)
Definition serve (route : json -> prog Response) (w : World) (body : json)
    (cache : gmap jsstring jsstring)
    : Response * gmap jsstring jsstring * list call :=
  let '(o, cache', calls) := run w (route body) cache in
  (match o with Returned r => r | Thrown e => on_error e end, cache', calls).

Definition analyze (w : World) (body : json) (cache : gmap jsstring jsstring) :=
  serve analyze_try w body cache.

Definition chat (w : World) (body : json) (cache : gmap jsstring jsstring) :=
  serve chat_try w body cache.

Local Close Scope prog_scope.

(** ** Sample worlds and requests *)

(** Two knowledge entries of the seeded corpus; they declare the same
    source. *)
Definition seeded_match (category : string) : VectorizeMatch :=
  mkMatch (Some (JObj [(js "category", JStr (js category));
                       (js "text", JStr (js "Title tags should be 50-60 characters long."));
                       (js "source", JStr (js "SEO Best Practices"))])).

(** A wording of the errors of the language, for the sample worlds. *)
Definition sample_message (e : engine_error) : jsstring :=
  match e with
  | TYPE_ERROR property =>
      js "Cannot destructure property '" ++ property
      ++ js "' of 'body' as it is null."
  | SYNTAX_ERROR text => js "Unexpected token in JSON"
  end.

(** A world in which every collaborator answers: the page fetched is
    [page], the index returns the two entries above. *)
Definition sample_world (page : jsstring) : World :=
  mkWorld
    (fun X ev =>
       match ev in event T return outcome T with
       | Fetch _ => Returned page
       | AiEmbed _ => Returned [[]]
       | VectorizeQuery _ _ =>
           Returned [seeded_match "title-tags"; seeded_match "meta-description"]
       | DbInsertAnalysis _ _ _ _ => Returned tt
       | DbSessionFirst _ => Returned None
       | DbSessionReplace _ _ => Returned tt
       | CacheGet _ => Returned None
       | CachePut _ _ _ => Returned tt
       | AiChat _ _ _ => Returned (Some (JStr (js "SEO is search engine optimization.")))
       end)
    (fun _ => None) (fun _ => None) sample_message.

Definition chat_request : json :=
  JObj [(js "message", JStr (js "What is SEO?")); (js "sessionId", JStr (js "s1"))].

(** A chat request without its message. *)
Definition chat_request_no_message : json :=
  JObj [(js "sessionId", JStr (js "s1"))].

Definition analyze_request : json :=
  JObj [(js "url", JStr (js "https://example.com"))].

Definition short_page : jsstring :=
  js "<html><head><title>Short</title></head><body></body></html>".

(** The label the chat route reports for one match. *)
Definition source_label (m : VectorizeMatch) : option json :=
  or_else (opt_get (metadata m) (js "source")) (Some (JStr (js "Unknown"))).

(** ** Statement of the JSON round trip *)

(** An object has no two members with the same key; this holds of every
    object of the language, at every depth. *)
Fixpoint distinct_keys (v : json) : Prop :=
  match v with
  | JArr items =>
      (fix all (l : list json) : Prop :=
         match l with
         | [] => True
         | x :: l' => distinct_keys x /\ all l'
         end) items
  | JObj members =>
      NoDup (map fst members)
      /\ (fix all (l : list (jsstring * json)) : Prop :=
            match l with
            | [] => True
            | kv :: l' => distinct_keys (snd kv) /\ all l'
            end) members
  | _ => True
  end.

(** What can follow a value inside a text: nothing, a comma, or a closing
    bracket or brace. *)
Definition value_end (rest : jsstring) : Prop :=
  match rest with
  | [] => True
  | c :: _ => c = 0x2C%N \/ c = 0x5D%N \/ c = 0x7D%N
  end.

(** The text of one member of an object. *)
Definition member_text (kv : jsstring * json) : jsstring :=
  let (key, value) := kv in
  quote_string key ++ [0x3A%N] ++ JSON_stringify value.

(** The text of [v] followed by [rest] reads back as [v], leaving [rest],
    with any fuel from the length of the text on. *)
Definition reads_back (v : json) : Prop :=
  forall (n : nat) (rest : jsstring),
    length (JSON_stringify v) <= n -> value_end rest ->
    parse_value n (JSON_stringify v ++ rest) = Some (v, rest).

(** ** Reading the extraction policy literally

    The definitions of this section follow the wording of the extraction
    policy rather than the patterns, so that the two can be compared. *)

(** [s] begins with [p], ASCII letters compared without case. *)
Fixpoint starts_ci (p s : jsstring) : bool :=
  match p, s with
  | [], _ => true
  | a :: p', c :: s' => ci a c && starts_ci p' s'
  | _ :: _, [] => false
  end.

(** The first occurrence of [p] in [s], without case: the text before it and
    the text after it. *)
Fixpoint find_ci (p s : jsstring) : option (jsstring * jsstring) :=
  if starts_ci p s then Some ([], drop (length p) s)
  else
    match s with
    | [] => None
    | c :: s' =>
        match find_ci p s' with
        | Some (before, after) => Some (c :: before, after)
        | None => None
        end
    end.

(** The text content of the first title element: what lies between the first
    opening tag and the first closing tag after it. *)
Definition spec_first_title (html : jsstring) : option jsstring :=
  match find_ci (js "<title>") html with
  | Some (_, inside) =>
      match find_ci (js "</title>") inside with
      | Some (content, _) => Some content
      | None => None
      end
  | None => None
  end.

(** The title as the policy words it: that text, or the sentinel. *)
Definition spec_extractTitle (html : jsstring) : jsstring :=
  match spec_first_title html with
  | Some content => content
  | None => NO_TITLE
  end.










(** A pattern has a capture group. *)
Definition has_group (r : list node) : bool :=
  existsb (fun n => match n with Group _ => true | _ => false end) r.


(** ** Derived notions used to state the properties of the scoring engine *)

(** The amount each of the five evaluations of [calculateSeoScore] takes off. *)
Definition title_penalty (pageData : PageData) : Z :=
  if str_falsy (title pageData) || str_eqb (title pageData) NO_TITLE then 20
  else if length (title pageData) <? 30 then 10
  else if 60 <? length (title pageData) then 10
  else 0.

Definition meta_penalty (pageData : PageData) : Z :=
  if str_falsy (metaDescription pageData)
     || str_eqb (metaDescription pageData) NO_META then 20
  else if length (metaDescription pageData) <? 120 then 10
  else if 160 <? length (metaDescription pageData) then 10
  else 0.

Definition headings_penalty (pageData : PageData) : Z :=
  if length (headings pageData) =? 0 then 15
  else if length (headings pageData) <? 3 then 5
  else 0.

Definition images_penalty (pageData : PageData) : Z :=
  if 20 <? length (images pageData) then 10 else 0.

Definition links_penalty (pageData : PageData) : Z :=
  if length (links pageData) <? 3 then 10 else 0.

Definition penalties (pageData : PageData) : list Z :=
  [title_penalty pageData; meta_penalty pageData; headings_penalty pageData;
   images_penalty pageData; links_penalty pageData].

(** How many penalty branches fired. *)
Definition penalty_branches_taken (pageData : PageData) : nat :=
  length (List.filter (fun p => negb (p =? 0)%Z) (penalties pageData)).

(** A field is present when it is neither empty nor its sentinel. *)
Definition title_present (pageData : PageData) : bool :=
  negb (str_falsy (title pageData) || str_eqb (title pageData) NO_TITLE).

Definition meta_present (pageData : PageData) : bool :=
  negb (str_falsy (metaDescription pageData)
        || str_eqb (metaDescription pageData) NO_META).

Inductive Severity := Critical | Warning | Informational | Unmarked.

(** Severity of an issue, read off its opening mark. *)
Definition severity (issue : jsstring) : Severity :=
  if starts_with MARK_CRITICAL issue then Critical
  else if starts_with MARK_WARNING issue then Warning
  else if starts_with MARK_INFO issue then Informational
  else Unmarked.

Definition penalising (issue : jsstring) : bool :=
  match severity issue with
  | Critical | Warning => true
  | Informational | Unmarked => false
  end.

(** A penalty branch of [calculateSeoScore]: the condition under which it is
    taken, the points it takes off, and the issue [findSeoIssues] pushes
    under that condition. *)
Record Branch := mkBranch {
  taken : bool;
  points : Z;
  issue : jsstring
}.

(** The ten penalty branches, in the order of the source. *)
Definition penalty_branches (pageData : PageData) : list Branch :=
  [mkBranch (negb (title_present pageData)) 20
     (MARK_CRITICAL ++ js " Missing title tag - critical for SEO");
   mkBranch (title_present pageData && (length (title pageData) <? 30)) 10
     (MARK_WARNING ++ js " Title tag is too short ("
      ++ nat_toString (length (title pageData))
      ++ js " characters) - should be 50-60 characters");
   mkBranch (title_present pageData && (60 <? length (title pageData))) 10
     (MARK_WARNING ++ js " Title tag is too long ("
      ++ nat_toString (length (title pageData))
      ++ js " characters) - may be truncated in search results");
   mkBranch (negb (meta_present pageData)) 20
     (MARK_CRITICAL
      ++ js " Missing meta description - important for click-through rates");
   mkBranch (meta_present pageData
             && (length (metaDescription pageData) <? 120)) 10
     (MARK_WARNING ++ js " Meta description is too short ("
      ++ nat_toString (length (metaDescription pageData))
      ++ js " characters) - should be 150-160 characters");
   mkBranch (meta_present pageData
             && (160 <? length (metaDescription pageData))) 10
     (MARK_WARNING ++ js " Meta description is too long ("
      ++ nat_toString (length (metaDescription pageData))
      ++ js " characters) - will be truncated");
   mkBranch (length (headings pageData) =? 0) 15
     (MARK_CRITICAL
      ++ js " No heading tags (H1-H6) found - critical for content structure");
   mkBranch ((0 <? length (headings pageData))
             && (length (headings pageData) <? 3)) 5
     (MARK_WARNING
      ++ js " Low number of headings - consider adding more subheadings for better structure");
   mkBranch (20 <? length (images pageData)) 10
     (MARK_WARNING ++ js " High number of images ("
      ++ nat_toString (length (images pageData))
      ++ js ") - ensure optimization to prevent slow load times");
   mkBranch (length (links pageData) <? 3) 10
     (MARK_WARNING
      ++ js " Low number of internal links - improve site structure with more linking")].

(** The points and the issues of the branches that are taken. *)
Definition points_taken (branches : list Branch) : Z :=
  fold_right Z.add 0%Z (map points (List.filter taken branches)).

Definition issues_taken (branches : list Branch) : list jsstring :=
  map issue (List.filter taken branches).

(** The unguarded tail of [generateRecommendations]. *)
Definition UNIVERSAL : list Recommendation :=
  [REC_IMAGES; REC_SPEED; REC_LINKS; REC_MOBILE; REC_HTTPS; REC_SITEMAP].

(** The guarded head of [generateRecommendations]. *)
Definition conditional (pageData : PageData) : list Recommendation :=
  (if str_falsy (title pageData) || str_eqb (title pageData) NO_TITLE
      || (length (title pageData) <? 50) then [REC_TITLE] else [])
  ++ (if str_falsy (metaDescription pageData)
         || str_eqb (metaDescription pageData) NO_META
      then [REC_META] else [])
  ++ (if length (headings pageData) =? 0 then [REC_HEADINGS] else []).

(** A page whose title and description have the given lengths and whose
    other fields are in range. *)
Definition sample_page (title_len meta_len : nat) : PageData :=
  mkPageData [] (repeat 120%N title_len) (repeat 120%N meta_len)
    [js "a"; js "b"; js "c"] [js "i.png"] [js "/a"; js "/b"; js "/c"].

(** ** Further notions used to state properties of the worker *)

(** A text holds a tag: a less-than sign with a greater-than sign somewhere
    after it. *)
Definition holds_tag (s : jsstring) : Prop :=
  exists a b c : jsstring, s = a ++ 0x3C%N :: b ++ 0x3E%N :: c.

Definition is_critical (issue : jsstring) : bool :=
  match severity issue with Critical => true | _ => false end.

Definition is_warning (issue : jsstring) : bool :=
  match severity issue with Warning => true | _ => false end.

(** The collaborators called, in the order of the calls. *)
Definition collaborators (calls : list call) : list collaborator :=
  map (fun c => match c with Called ev => collaborator_of ev end) calls.

(** What a call does, its arguments left aside: one operation for each
    kind of event. *)
Inductive operation :=
| PageFetch | Embed | VectorQuery | AnalysisInsert | SessionRead | SessionWrite
| CacheRead | CacheWrite | Generate.

Definition operation_of {X : Type} (ev : event X) : operation :=
  match ev with
  | Fetch _ => PageFetch
  | AiEmbed _ => Embed
  | VectorizeQuery _ _ => VectorQuery
  | DbInsertAnalysis _ _ _ _ => AnalysisInsert
  | DbSessionFirst _ => SessionRead
  | DbSessionReplace _ _ => SessionWrite
  | CacheGet _ => CacheRead
  | CachePut _ _ _ => CacheWrite
  | AiChat _ _ _ => Generate
  end.

(** The operations of the calls, in the order of the calls. *)
Definition operations (calls : list call) : list operation :=
  map (fun c => match c with Called ev => operation_of ev end) calls.

(** What each of the five blocks of [findSeoIssues] pushes. *)
Definition title_issues (pageData : PageData) : list jsstring :=
  if str_falsy (title pageData) || str_eqb (title pageData) NO_TITLE
  then [MARK_CRITICAL ++ js " Missing title tag - critical for SEO"]
  else if length (title pageData) <? 30
  then [MARK_WARNING ++ js " Title tag is too short ("
          ++ nat_toString (length (title pageData))
          ++ js " characters) - should be 50-60 characters"]
  else if 60 <? length (title pageData)
  then [MARK_WARNING ++ js " Title tag is too long ("
          ++ nat_toString (length (title pageData))
          ++ js " characters) - may be truncated in search results"]
  else [].

Definition meta_issues (pageData : PageData) : list jsstring :=
  if str_falsy (metaDescription pageData)
     || str_eqb (metaDescription pageData) NO_META
  then [MARK_CRITICAL
          ++ js " Missing meta description - important for click-through rates"]
  else if length (metaDescription pageData) <? 120
  then [MARK_WARNING ++ js " Meta description is too short ("
          ++ nat_toString (length (metaDescription pageData))
          ++ js " characters) - should be 150-160 characters"]
  else if 160 <? length (metaDescription pageData)
  then [MARK_WARNING ++ js " Meta description is too long ("
          ++ nat_toString (length (metaDescription pageData))
          ++ js " characters) - will be truncated"]
  else [].

Definition heading_issues (pageData : PageData) : list jsstring :=
  if length (headings pageData) =? 0
  then [MARK_CRITICAL
          ++ js " No heading tags (H1-H6) found - critical for content structure"]
  else if length (headings pageData) <? 3
  then [MARK_WARNING
          ++ js " Low number of headings - consider adding more subheadings for better structure"]
  else [].

Definition image_issues (pageData : PageData) : list jsstring :=
  if length (images pageData) =? 0
  then [ISSUE_NO_IMAGES]
  else if 20 <? length (images pageData)
  then [MARK_WARNING ++ js " High number of images ("
          ++ nat_toString (length (images pageData))
          ++ js ") - ensure optimization to prevent slow load times"]
  else [].

Definition link_issues (pageData : PageData) : list jsstring :=
  if length (links pageData) <? 3
  then [MARK_WARNING
          ++ js " Low number of internal links - improve site structure with more linking"]
  else [].

(** What one block contributes to the counts and to the score. *)
Definition block_ok (block : list jsstring) (penalty : Z) : Prop :=
  let critical := Z.of_nat (length (List.filter is_critical block)) in
  let warnings := Z.of_nat (length (List.filter is_warning block)) in
  (15 * critical + 5 * warnings <= penalty <= 20 * critical + 10 * warnings)%Z
  /\ length block <= 1
  /\ Forall (fun i => severity i <> Unmarked) block.

Definition is_high (r : Recommendation) : bool := str_eqb (priority r) HIGH.

Definition ISSUE_NO_TITLE : jsstring :=
  MARK_CRITICAL ++ js " Missing title tag - critical for SEO".

(** The collaborators of a chat turn, in call order. *)
Definition CHAT_ORDER : list collaborator :=
  [Embedding; VectorIndex; DurableStore; GenerativeText; DurableStore].

(** The operations of a fresh analysis and of a chat turn, in call order. *)
Definition ANALYZE_OPERATIONS : list operation :=
  [CacheRead; PageFetch; Embed; VectorQuery; AnalysisInsert; CacheWrite].

Definition CHAT_OPERATIONS : list operation :=
  [Embed; VectorQuery; SessionRead; Generate; SessionWrite].


(** The url of a request and its cache key. *)
Definition url_of (req : json) : option json := opt_get (Some req) (js "url").

Definition cache_key (req : json) : jsstring :=
  js "analysis:" ++ ToString (url_of req).

(** The response of a fresh analysis. *)
Definition fresh_response (result : AnalysisResult) : Response :=
  mkResponse 200
    (JObj [(js "cached", JBool false); (js "data", AnalysisResult_json result);
           (js "message", JStr (js "Analysis complete"))]).

(** A world whose page fetch fails. *)
Definition unreachable_world : World :=
  mkWorld
    (fun X ev =>
       match ev in event T return outcome T with
       | Fetch _ => Thrown (Some (js "fetch failed"))
       | ev' => answer (sample_world []) _ ev'
       end)
    (fun _ => None) (fun _ => None) sample_message.

(** A world whose generative call fails. *)
Definition mute_world : World :=
  mkWorld
    (fun X ev =>
       match ev in event T return outcome T with
       | AiChat _ _ _ => Thrown (Some (js "model unavailable"))
       | ev' => answer (sample_world []) _ ev'
       end)
    (fun _ => None) (fun _ => None) sample_message.



(** A match without metadata. *)
Definition bare_match : VectorizeMatch := mkMatch None.

(** ** Seeding the vector index

    [app.get('/api/populate-vectorize')]: the knowledge entries, each
    embedded and inserted in turn.  The state is the list of records the
    index has accepted, in the order of the inserts. *)

Record KnowledgeItem := mkKnowledgeItem {
  category : jsstring;
  item_text : jsstring;
  source : jsstring
}.

Definition KNOWLEDGE : list KnowledgeItem :=
  [
   mkKnowledgeItem (js "title-tags")
     (js "Title tags should be 50-60 characters long. Include your primary keyword near the beginning.")
     (js "SEO Best Practices");
   mkKnowledgeItem (js "meta-description")
     (js "Meta descriptions should be 150-160 characters. Include a call-to-action and primary keywords naturally.")
     (js "SEO Best Practices");
   mkKnowledgeItem (js "headings")
     (js "Use H1 tags for main page titles (only one per page). H2-H6 for subheadings in hierarchical order.")
     (js "SEO Best Practices");
   mkKnowledgeItem (js "content")
     (js "Content should be at least 300 words for standard pages, 1000+ for cornerstone content.")
     (js "Content Guidelines");
   mkKnowledgeItem (js "images")
     (js "All images should have descriptive alt text. Compress images to reduce page load time.")
     (js "Image Optimization");
   mkKnowledgeItem (js "internal-linking")
     (js "Internal links help distribute page authority. Use descriptive anchor text.")
     (js "Link Building");
   mkKnowledgeItem (js "page-speed")
     (js "Page load time is a ranking factor. Aim for under 3 seconds.")
     (js "Performance Optimization");
   mkKnowledgeItem (js "mobile-optimization")
     (js "Mobile-first indexing means Google primarily uses mobile version for ranking.")
     (js "Mobile SEO")
  ].

(** [{ id, values, metadata }] *)
Record VectorRecord := mkVectorRecord {
  record_id : jsstring;
  record_values : option (list float);
  record_metadata : KnowledgeItem
}.

(** What lies outside the route: the embedding of a text, the identifier
    drawn at the n-th draw of the request, whether an insert fails. *)
Record SeedWorld := mkSeedWorld {
  embed : jsstring -> outcome (list (list float));
  randomUUID : nat -> jsstring;
  insert_fault : VectorRecord -> option thrown
}.

(** The [for (const item of knowledge)] loop. *)
Fixpoint populate_loop (w : SeedWorld) (knowledge : list KnowledgeItem)
    (drawn : nat) (inserted : list VectorRecord)
    : outcome unit * list VectorRecord :=
  match knowledge with
  | [] => (Returned tt, inserted)
  | item :: knowledge' =>
      match embed w (item_text item) with
      | Thrown e => (Thrown e, inserted)
      | Returned embedding =>
          let record :=
            mkVectorRecord (randomUUID w drawn) (head embedding) item in
          match insert_fault w record with
          | Some e => (Thrown e, inserted)
          | None => populate_loop w knowledge' (S drawn) (inserted ++ [record])
          end
      end
  end.

Definition populate_vectorize (w : SeedWorld) (inserted : list VectorRecord)
    : Response * list VectorRecord :=
  match populate_loop w KNOWLEDGE 0 inserted with
  | (Returned _, inserted') =>
      (mkResponse 200
         (JObj [(js "success", JBool true);
                (js "message", JStr (js "Vectorize populated!"))]),
       inserted')
  | (Thrown e, inserted') => (on_error e, inserted')
  end.

(** A world in which every embedding and insert succeeds, and one whose
    embedding fails on the fourth entry, the one on content. *)
Definition seed_world : SeedWorld :=
  mkSeedWorld (fun _ => Returned [[]]) (fun n => nat_toString n) (fun _ => None).

Definition faulty_seed_world : SeedWorld :=
  mkSeedWorld
    (fun t => if starts_with (js "Content") t
              then Thrown (Some (js "embedding failed")) else Returned [[]])
    (fun n => nat_toString n) (fun _ => None).

(** A description meta tag as it is usually written: white space [ws1] and
    [ws2] between the attributes, quotes [q1] to [q4] around the values. *)
Definition meta_tag (ws1 ws2 d : jsstring) (q1 q2 q3 q4 : N) : jsstring :=
  js "<meta" ++ ws1 ++ js "name=" ++ [q1] ++ js "description" ++ [q2]
  ++ ws2 ++ js "content=" ++ [q3] ++ d ++ [q4].

Definition not_lt (u : N) : bool := negb (N.eqb u 0x3C).

(* ================================================================== *)
(** * Properties *)
(* ================================================================== *)

(** ** Strings *)

Lemma str_eqb_eq (a b : jsstring) : str_eqb a b = true <-> a = b.
Proof.
  revert b. induction a as [|x a IH]; intros [|y b]; simpl; split;
    try discriminate; try reflexivity.
  - intros [Hxy Hab]%andb_true_iff. apply N.eqb_eq in Hxy.
    apply IH in Hab. congruence.
  - intros [= -> ->]. rewrite N.eqb_refl. simpl. now apply IH.
Qed.

Lemma str_eqb_length (a b : jsstring) :
  str_eqb a b = true -> length a = length b.
Proof. intros H%str_eqb_eq. now subst. Qed.

Lemma starts_with_app (p s : jsstring) : starts_with p (p ++ s) = true.
Proof. induction p as [|x p IH]; simpl; [reflexivity|]. now rewrite N.eqb_refl. Qed.

(** ** The scoring engine *)

Ltac case_if :=
  match goal with
  | |- context [if ?b then _ else _] => destruct b eqn:?
  end.

Ltac case_if_in H :=
  match type of H with
  | context [if ?b then _ else _] => destruct b eqn:?
  end.

(** The score is 100 minus the five penalties; the clamp never acts. *)
Lemma calculateSeoScore_penalties (pd : PageData) :
  calculateSeoScore pd
  = (100 - title_penalty pd - meta_penalty pd - headings_penalty pd
     - images_penalty pd - links_penalty pd)%Z.
Proof.
  unfold calculateSeoScore, title_penalty, meta_penalty, headings_penalty,
    images_penalty, links_penalty.
  repeat case_if; reflexivity.
Qed.

Lemma title_penalty_cases (pd : PageData) :
  title_penalty pd = 0%Z \/ title_penalty pd = 10%Z \/ title_penalty pd = 20%Z.
Proof. unfold title_penalty. repeat case_if; auto. Qed.

Lemma meta_penalty_cases (pd : PageData) :
  meta_penalty pd = 0%Z \/ meta_penalty pd = 10%Z \/ meta_penalty pd = 20%Z.
Proof. unfold meta_penalty. repeat case_if; auto. Qed.

Lemma headings_penalty_cases (pd : PageData) :
  headings_penalty pd = 0%Z \/ headings_penalty pd = 5%Z
  \/ headings_penalty pd = 15%Z.
Proof. unfold headings_penalty. repeat case_if; auto. Qed.

Lemma images_penalty_cases (pd : PageData) :
  images_penalty pd = 0%Z \/ images_penalty pd = 10%Z.
Proof. unfold images_penalty. repeat case_if; auto. Qed.

Lemma links_penalty_cases (pd : PageData) :
  links_penalty pd = 0%Z \/ links_penalty pd = 10%Z.
Proof. unfold links_penalty. repeat case_if; auto. Qed.

Lemma calculateSeoScore_range (pd : PageData) :
  (25 <= calculateSeoScore pd <= 100)%Z.
Proof.
  rewrite calculateSeoScore_penalties.
  pose proof (title_penalty_cases pd). pose proof (meta_penalty_cases pd).
  pose proof (headings_penalty_cases pd). pose proof (images_penalty_cases pd).
  pose proof (links_penalty_cases pd). lia.
Qed.

(** ** Recommendations *)

Ltac rec_neq :=
  let H := fresh in
  intro H; apply (f_equal text) in H; vm_compute in H; discriminate H.

Lemma REC_TITLE_META : REC_TITLE <> REC_META. Proof. rec_neq. Qed.
Lemma REC_TITLE_HEADINGS : REC_TITLE <> REC_HEADINGS. Proof. rec_neq. Qed.
Lemma REC_META_HEADINGS : REC_META <> REC_HEADINGS. Proof. rec_neq. Qed.

Lemma high_not_universal (r : Recommendation) :
  priority r = HIGH -> ~ In r UNIVERSAL.
Proof.
  intros Hp Hin. unfold UNIVERSAL in Hin. simpl in Hin.
  repeat (destruct Hin as [<- | Hin]; [vm_compute in Hp; discriminate Hp|]).
  exact Hin.
Qed.

(** The shape of the list: the conditional entries that fired, in source
    order, then the unguarded tail. *)
Lemma generateRecommendations_shape (pd : PageData) :
  generateRecommendations pd = conditional pd ++ UNIVERSAL.
Proof.
  unfold generateRecommendations, conditional. repeat case_if; reflexivity.
Qed.

Lemma conditional_high (pd : PageData) :
  Forall (fun r => priority r = HIGH
                   /\ In r [REC_TITLE; REC_META; REC_HEADINGS]) (conditional pd).
Proof.
  unfold conditional. repeat case_if; simpl;
    repeat (apply List.Forall_cons; [split; [reflexivity|simpl; tauto]|]);
    apply List.Forall_nil.
Qed.

Lemma in_app_universal (r : Recommendation) (cond : list Recommendation) :
  priority r = HIGH -> In r (cond ++ UNIVERSAL) <-> In r cond.
Proof.
  intros Hp. rewrite in_app_iff. pose proof (high_not_universal r Hp). tauto.
Qed.

(** C1, as stated, fails: a page with every field in range gets six
    recommendations in all, so no seven entries close its list. *)
Lemma C1_seven_universal_refuted :
  ~ (exists cond univ : list Recommendation,
        generateRecommendations (sample_page 55 150) = cond ++ univ
        /\ length univ = 7).
Proof.
  intros (cond & univ & Heq & Hlen).
  assert (Hsix : length (generateRecommendations (sample_page 55 150)) = 6)
    by reflexivity.
  rewrite Heq, length_app, Hlen in Hsix. lia.
Qed.

(** C1 (amended): for every page the recommendations are some conditional
    entries, each of priority High and none of them universal, followed by
    exactly the six universal entries, always the same ones, with priorities
    images Medium, page-speed Medium, internal-linking Medium, mobile Medium,
    https Low, sitemap Low. *)
Theorem C1_universal_tail (pd : PageData) :
  exists cond : list Recommendation,
    generateRecommendations pd = cond ++ UNIVERSAL
    /\ Forall (fun r => priority r = HIGH /\ ~ In r UNIVERSAL) cond
    /\ length cond <= 3
    /\ length UNIVERSAL = 6
    /\ UNIVERSAL
       = [REC_IMAGES; REC_SPEED; REC_LINKS; REC_MOBILE; REC_HTTPS; REC_SITEMAP]
    /\ map priority UNIVERSAL = [MEDIUM; MEDIUM; MEDIUM; MEDIUM; LOW; LOW].
Proof.
  exists (conditional pd). split; [apply generateRecommendations_shape|].
  split.
  - eapply List.Forall_impl; [|apply conditional_high].
    intros r [Hp _]. split; [exact Hp|]. now apply high_not_universal.
  - split; [unfold conditional; repeat case_if; simpl; lia|].
    split; [reflexivity|]. split; reflexivity.
Qed.

(** C2, as stated, fails: a present title of 40 units triggers no scoring
    deficiency (it is neither shorter than 30 nor longer than 60), yet the
    title recommendation is emitted. *)
Lemma C2_title_iff_refuted :
  ~ (In REC_TITLE (generateRecommendations (sample_page 40 150))
     <-> title_penalty (sample_page 40 150) <> 0%Z).
Proof.
  intros [Hto _]. apply Hto; [|reflexivity].
  vm_compute. left. reflexivity.
Qed.

(** C2 (amended): each conditional recommendation appears exactly when its
    own guard holds: the title one when the title is missing or shorter than
    50 units, the description one when the description is missing, the
    headings one when there is no heading; each is tagged High, and all of
    them precede the universal entries. *)
Theorem C2_conditional_guards (pd : PageData) :
  (In REC_TITLE (generateRecommendations pd)
   <-> title pd = [] \/ title pd = NO_TITLE \/ length (title pd) < 50)
  /\ (In REC_META (generateRecommendations pd)
      <-> metaDescription pd = [] \/ metaDescription pd = NO_META)
  /\ (In REC_HEADINGS (generateRecommendations pd)
      <-> length (headings pd) = 0)
  /\ exists cond : list Recommendation,
       generateRecommendations pd = cond ++ UNIVERSAL
       /\ Forall (fun r => priority r = HIGH
                           /\ In r [REC_TITLE; REC_META; REC_HEADINGS]) cond.
Proof.
  assert (Hfalsy : forall s : jsstring, str_falsy s = true <-> s = [])
    by (intros [|? ?]; simpl; split; congruence).
  rewrite generateRecommendations_shape. unfold conditional at 1 2 3.
  pose proof REC_TITLE_META. pose proof REC_TITLE_HEADINGS.
  pose proof REC_META_HEADINGS.
  repeat split.
  - rewrite in_app_universal by reflexivity.
    rewrite !in_app_iff. intros [Hin | [Hin | Hin]].
    + destruct (_ || _ || _) eqn:E in Hin; [|destruct Hin].
      apply orb_true_iff in E as [E | E%Nat.ltb_lt]; [|tauto].
      apply orb_true_iff in E as [E%Hfalsy | E%str_eqb_eq]; tauto.
    + case_if_in Hin; simpl in Hin; intuition congruence.
    + case_if_in Hin; simpl in Hin; intuition congruence.
  - intros Hc. apply in_app_universal; [reflexivity|]. apply in_or_app. left.
    replace (_ || _ || _) with true; [now left|]. symmetry.
    rewrite !orb_true_iff, Hfalsy, str_eqb_eq, Nat.ltb_lt. tauto.
  - rewrite in_app_universal by reflexivity.
    rewrite !in_app_iff. intros [Hin | [Hin | Hin]].
    + case_if_in Hin; simpl in Hin; intuition congruence.
    + destruct (_ || _) eqn:E in Hin; [|destruct Hin].
      apply orb_true_iff in E as [E%Hfalsy | E%str_eqb_eq]; tauto.
    + case_if_in Hin; simpl in Hin; intuition congruence.
  - intros Hc. apply in_app_universal; [reflexivity|].
    apply in_or_app. right. apply in_or_app. left.
    replace (_ || _) with true; [now left|]. symmetry.
    rewrite !orb_true_iff, Hfalsy, str_eqb_eq. tauto.
  - rewrite in_app_universal by reflexivity.
    rewrite !in_app_iff. intros [Hin | [Hin | Hin]].
    + case_if_in Hin; simpl in Hin; intuition congruence.
    + case_if_in Hin; simpl in Hin; intuition congruence.
    + destruct (_ =? 0) eqn:E in Hin; [|destruct Hin]. now apply Nat.eqb_eq.
  - intros Hc. apply in_app_universal; [reflexivity|].
    apply in_or_app. right. apply in_or_app. right.
    rewrite Hc. now left.
  - exists (conditional pd). split; [reflexivity|apply conditional_high].
Qed.

(** ** Length boundaries *)

Lemma present_of_length (s sentinel : jsstring) :
  length sentinel < length s ->
  str_falsy s || str_eqb s sentinel = false.
Proof.
  intros Hlen. apply orb_false_iff. split.
  - destruct s; [simpl in Hlen; lia|reflexivity].
  - destruct (str_eqb s sentinel) eqn:E; [|reflexivity].
    apply str_eqb_length in E. lia.
Qed.

(** C7: a title of exactly 60 units carries no title penalty and one of 61
    units carries the 10-point one; a description of exactly 160 units carries
    no description penalty and one of 161 units the 10-point one.  The score is
    100 minus the penalties, so the same holds of the score itself. *)
Theorem C7_length_boundaries (pd : PageData) :
  (length (title pd) = 60 -> title_present pd = true /\ title_penalty pd = 0%Z)
  /\ (length (title pd) = 61 ->
      title_present pd = true /\ title_penalty pd = 10%Z)
  /\ (length (metaDescription pd) = 160 ->
      meta_present pd = true /\ meta_penalty pd = 0%Z)
  /\ (length (metaDescription pd) = 161 ->
      meta_present pd = true /\ meta_penalty pd = 10%Z)
  /\ calculateSeoScore pd
     = (100 - title_penalty pd - meta_penalty pd - headings_penalty pd
        - images_penalty pd - links_penalty pd)%Z.
Proof.
  unfold title_present, meta_present, title_penalty, meta_penalty.
  split; [|split; [|split; [|split]]].
  5: apply calculateSeoScore_penalties.
  all: intros Hlen.
  all: rewrite present_of_length by (rewrite Hlen; vm_compute; lia).
  all: rewrite Hlen; split; reflexivity.
Qed.

(** C7 at a page whose title has 60 units and whose description has 160. *)
Lemma C7_length_boundaries_witness :
  length (title (sample_page 60 160)) = 60
  /\ title_penalty (sample_page 60 160) = 0%Z
  /\ calculateSeoScore (sample_page 60 160) = 100%Z.
Proof.
  split; [reflexivity|].
  split; [|reflexivity].
  apply (C7_length_boundaries (sample_page 60 160)). reflexivity.
Defined.

(** ** Severity marks *)

Lemma severity_critical (s : jsstring) : severity (MARK_CRITICAL ++ s) = Critical.
Proof. reflexivity. Qed.

Lemma severity_warning (s : jsstring) : severity (MARK_WARNING ++ s) = Warning.
Proof. reflexivity. Qed.

Lemma severity_info (s : jsstring) : severity (MARK_INFO ++ s) = Informational.
Proof. reflexivity. Qed.

(** ** The matcher *)

Section Matcher.
Context {R : Type}.
Variable p : N -> bool.
Variable k : jsstring -> option R.

Lemma rep_eq (greedy : bool) (min : nat) (s : jsstring) :
  rep p greedy k min s
  = let more (min' : nat) :=
      match s with
      | c :: s' => if p c then rep p greedy k min' s' else None
      | [] => None
      end in
    match min with
    | S min' => more min'
    | 0 =>
        if greedy then
          match more 0 with Some r => Some r | None => k s end
        else
          match k s with Some r => Some r | None => more 0 end
    end.
Proof. destruct s; reflexivity. Qed.

(** The repetition fails when the continuation fails on every suffix. *)
Lemma rep_none (greedy : bool) (s : jsstring) :
  forall min : nat,
    (forall a u : jsstring, s = a ++ u -> k u = None) ->
    rep p greedy k min s = None.
Proof.
  induction s as [|c s IH]; intros min Hk.
  - assert (k [] = None) as Hnil by (apply (Hk []); reflexivity).
    destruct min, greedy; simpl; try rewrite Hnil; reflexivity.
  - assert (k (c :: s) = None) as Hhere by (apply (Hk []); reflexivity).
    assert (forall m, rep p greedy k m s = None) as Hrest.
    { intros m. apply IH. intros a u ->. apply (Hk (c :: a)). reflexivity. }
    destruct min, greedy; simpl; rewrite ?Hhere, ?Hrest;
      destruct (p c); reflexivity.
Qed.

(** A success of the repetition is a success of the continuation on some
    suffix. *)
Lemma rep_some (greedy : bool) (s : jsstring) (min : nat) (r : R) :
  rep p greedy k min s = Some r ->
  exists a u : jsstring, s = a ++ u /\ k u = Some r.
Proof.
  revert min. induction s as [|c s IH]; intros min Hrep.
  - exists [], []. split; [reflexivity|].
    destruct min, greedy; simpl in Hrep; try discriminate Hrep;
      destruct (k []); congruence.
  - assert (forall m, rep p greedy k m s = Some r ->
                      exists a u, c :: s = a ++ u /\ k u = Some r) as Hrest.
    { intros m Hm. destruct (IH m Hm) as (a & u & -> & Hu).
      exists (c :: a), u. split; [reflexivity|exact Hu]. }
    assert (k (c :: s) = Some r ->
            exists a u, c :: s = a ++ u /\ k u = Some r) as Hhere.
    { intros Hu. exists [], (c :: s). split; [reflexivity|exact Hu]. }
    destruct min, greedy; simpl in Hrep.
    + destruct (p c).
      * destruct (rep p true k 0 s) eqn:E.
        -- injection Hrep as ->. eapply Hrest, E.
        -- apply Hhere, Hrep.
      * apply Hhere, Hrep.
    + destruct (k (c :: s)) eqn:E.
      * injection Hrep as ->. apply Hhere. reflexivity.
      * destruct (p c); [eapply Hrest, Hrep|discriminate Hrep].
    + destruct (p c); [eapply Hrest, Hrep|discriminate Hrep].
    + destruct (p c); [eapply Hrest, Hrep|discriminate Hrep].
Qed.

(** The lazy repetition stops at the first suffix the continuation
    accepts, provided the units passed over are all in the class. *)
Lemma rep_lazy_hit (t s' : jsstring) (r : R) :
  forallb p t = true ->
  (forall t1 t2 : jsstring, t = t1 ++ t2 -> t2 <> [] -> k (t2 ++ s') = None) ->
  k s' = Some r ->
  rep p false k 0 (t ++ s') = Some r.
Proof.
  induction t as [|c t IH]; intros Hp Hk Hs'.
  - simpl. rewrite rep_eq. simpl. now rewrite Hs'.
  - simpl in Hp. apply andb_true_iff in Hp as [Hc Hp].
    assert (k (c :: t ++ s') = None) as Hhere
      by (apply (Hk [] (c :: t)); [reflexivity|discriminate]).
    simpl. rewrite Hhere, Hc. apply IH; [exact Hp| |exact Hs'].
    intros t1 t2 -> Hne. apply (Hk (c :: t1)); [reflexivity|exact Hne].
Qed.
End Matcher.

Lemma starts_ci_length (p s : jsstring) :
  starts_ci p s = true -> length p <= length s.
Proof.
  revert s. induction p as [|a p IH]; intros [|c s]; simpl;
    try discriminate; try lia.
  intros [_ H]%andb_true_iff. apply IH in H. lia.
Qed.

(** A literal prefix of a pattern matches by [starts_ci]. *)
Lemma match_seq_lit (p : jsstring) (r : list node) (cap : option jsstring)
    (s : jsstring) :
  match_seq (map (fun a => Chr (ci a)) p ++ r) cap s
  = if starts_ci p s then match_seq r cap (drop (length p) s) else None.
Proof.
  revert s. induction p as [|a p IH]; intros s; simpl.
  - now rewrite drop_0.
  - destruct s as [|c s]; [reflexivity|]. unfold ci at 1.
    fold (ci a c). destruct (ci a c); simpl; [apply IH|reflexivity].
Qed.

Lemma find_ci_Some (p s t a : jsstring) :
  find_ci p s = Some (t, a) ->
  exists m : jsstring,
    s = t ++ m /\ starts_ci p m = true /\ a = drop (length p) m
    /\ forall t1 t2 : jsstring,
         t = t1 ++ t2 -> t2 <> [] -> starts_ci p (t2 ++ m) = false.
Proof.
  revert t a. induction s as [|c s IH]; intros t a; simpl.
  - destruct (starts_ci p []) eqn:E; [|discriminate].
    intros [= <- <-]. exists []. repeat split; try assumption.
    intros [|? ?] t2 Heq Hne; destruct t2; simpl in Heq; congruence.
  - destruct (starts_ci p (c :: s)) eqn:E.
    + intros [= <- <-]. exists (c :: s). repeat split; try assumption.
      intros [|? ?] t2 Heq Hne; destruct t2; simpl in Heq; congruence.
    + destruct (find_ci p s) as [[b a']|] eqn:F; [|discriminate].
      intros [= <- <-]. destruct (IH b a' eq_refl) as (m & -> & Hm & Ha & Hfirst).
      exists m. repeat split; try assumption.
      intros [|x t1] t2 Heq Hne; simpl in Heq.
      * subst t2. exact E.
      * injection Heq as -> ->. now apply (Hfirst t1 t2).
Qed.

Lemma find_ci_None (p s : jsstring) :
  find_ci p s = None ->
  forall a u : jsstring, s = a ++ u -> starts_ci p u = false.
Proof.
  induction s as [|c s IH]; simpl.
  - destruct (starts_ci p []) eqn:E; [discriminate|].
    intros _ [|? ?] u Heq; destruct u; simpl in Heq; try discriminate. exact E.
  - destruct (starts_ci p (c :: s)) eqn:E; [discriminate|].
    destruct (find_ci p s) as [[b a']|] eqn:F; [discriminate|].
    intros _ [|x a] u Heq; simpl in Heq.
    + now subst u.
    + injection Heq as -> ->. now apply (IH eq_refl a).
Qed.

(** Searching past positions where the pattern cannot match. *)
Lemma exec_skip (r : list node) (pre x : jsstring) :
  (forall t1 t2 : jsstring,
      pre = t1 ++ t2 -> t2 <> [] -> match_here r (t2 ++ x) = None) ->
  exec r (pre ++ x) = exec r x.
Proof.
  induction pre as [|c pre IH]; intros Hnone; [reflexivity|].
  simpl. change (c :: pre ++ x) with ((c :: pre) ++ x).
  rewrite (Hnone [] (c :: pre)) by (reflexivity || discriminate).
  apply IH. intros t1 t2 -> Hne. now apply (Hnone (c :: t1)).
Qed.

Lemma exec_none (r : list node) (s : jsstring) :
  (forall a u : jsstring, s = a ++ u -> match_here r u = None) ->
  exec r s = None.
Proof.
  induction s as [|c s IH]; intros Hnone; simpl.
  - now rewrite (Hnone [] []).
  - rewrite (Hnone [] (c :: s)) by reflexivity.
    apply IH. intros a u ->. now apply (Hnone (c :: a)).
Qed.


(** A pattern that opens with a literal matches nowhere in a text in which
    the literal does not occur. *)
Lemma match_here_lit_absent (p : jsstring) (r : list node) (s : jsstring) :
  find_ci p s = None ->
  forall a u : jsstring,
    s = a ++ u -> match_here (map (fun a => Chr (ci a)) p ++ r) u = None.
Proof.
  intros Hfind a u Heq. unfold match_here.
  rewrite match_seq_lit, (find_ci_None p s Hfind a u Heq). reflexivity.
Qed.

Lemma match_seq_lit_end (p : jsstring) (cap : option jsstring) (s : jsstring) :
  match_seq (map (fun a => Chr (ci a)) p) cap s
  = if starts_ci p s then Some (cap, drop (length p) s) else None.
Proof.
  rewrite <- (app_nil_r (map _ p)). rewrite match_seq_lit. reflexivity.
Qed.

Lemma exec_eq (r : list node) (s : jsstring) :
  exec r s
  = match match_here r s with
    | Some m => Some m
    | None => match s with [] => None | _ :: s' => exec r s' end
    end.
Proof. destruct s; reflexivity. Qed.

(** ** The title pattern *)

(** What the title pattern does right after an opening tag: [inside] is the
    text that follows the tag. *)
Lemma match_seq_TITLE (s : jsstring) :
  match_seq TITLE_RE None s
  = if starts_ci (js "<title>") s
    then
      let inside := drop (length (js "<title>")) s in
      rep dot false
        (fun u =>
           match_seq (map (fun a => Chr (ci a)) (js "</title>"))
             (Some (take (length inside - length u) inside)) u)
        0 inside
    else None.
Proof. unfold TITLE_RE, lit. rewrite match_seq_lit. reflexivity. Qed.

(** The closing tag is found after a content without line terminator. *)
Lemma match_seq_TITLE_hit (s content m : jsstring) :
  starts_ci (js "<title>") s = true ->
  drop (length (js "<title>")) s = content ++ m ->
  starts_ci (js "</title>") m = true ->
  (forall t1 t2 : jsstring,
      content = t1 ++ t2 -> t2 <> [] ->
      starts_ci (js "</title>") (t2 ++ m) = false) ->
  forallb dot content = true ->
  match_seq TITLE_RE None s
  = Some (Some content, drop (length (js "</title>")) m).
Proof.
  intros Hopen Hinside Hclose Hfirst Hdot.
  rewrite match_seq_TITLE, Hopen. cbv zeta. rewrite Hinside.
  erewrite rep_lazy_hit; [reflexivity|exact Hdot| |].
  - intros t1 t2 Heq Hne. cbv beta.
    rewrite match_seq_lit_end, (Hfirst t1 t2 Heq Hne). reflexivity.
  - cbv beta. rewrite match_seq_lit_end, Hclose.
    rewrite length_app, Nat.add_sub, take_app_length. reflexivity.
Qed.

(** No closing tag in what follows: the pattern fails. *)
Lemma match_seq_TITLE_miss (s : jsstring) :
  (starts_ci (js "<title>") s = true ->
   forall a u : jsstring,
     drop (length (js "<title>")) s = a ++ u ->
     starts_ci (js "</title>") u = false) ->
  match_seq TITLE_RE None s = None.
Proof.
  intros Hnone. rewrite match_seq_TITLE.
  destruct (starts_ci (js "<title>") s); [|reflexivity].
  cbv zeta. apply rep_none. intros a u Heq.
  rewrite match_seq_lit_end, (Hnone eq_refl a u Heq). reflexivity.
Qed.

Lemma suffix_after_drop (n : nat) (m a u a' u' : jsstring) :
  m = a ++ u -> n <= length u -> drop n u = a' ++ u' ->
  exists b : jsstring, drop n m = b ++ u'.
Proof.
  intros -> Hlen Hdrop.
  exists (drop n (a ++ take n u ++ a')).
  rewrite <- drop_app_le.
  - rewrite <- !app_assoc, <- Hdrop, take_drop. reflexivity.
  - rewrite !length_app, length_take. lia.
Qed.

(** The code against the policy's wording: whenever the content of the first
    title element has no line terminator, the pattern captures exactly that
    content; and when there is no title element, the pattern matches
    nowhere. *)
Lemma exec_TITLE_spec (html : jsstring) :
  match spec_first_title html with
  | Some content =>
      forallb dot content = true ->
      exists m : result,
        exec TITLE_RE html = Some m /\ group1 m = Some content
  | None => exec TITLE_RE html = None
  end.
Proof.
  unfold spec_first_title.
  destruct (find_ci (js "<title>") html) as [[pre inside]|] eqn:Fopen.
  2: { apply exec_none. intros a u Heq. unfold match_here.
       rewrite match_seq_TITLE, (find_ci_None _ _ Fopen a u Heq). reflexivity. }
  apply find_ci_Some in Fopen as (m & -> & Hopen & -> & Hfirst).
  assert (exec TITLE_RE (pre ++ m) = exec TITLE_RE m) as ->.
  { apply exec_skip. intros t1 t2 Heq Hne. unfold match_here.
    rewrite match_seq_TITLE, (Hfirst t1 t2 Heq Hne). reflexivity. }
  destruct (find_ci (js "</title>") (drop (length (js "<title>")) m))
    as [[content after]|] eqn:Fclose.
  - apply find_ci_Some in Fclose as (m2 & Hinside & Hclose & -> & Hfirst2).
    intros Hdot. eexists. rewrite exec_eq. unfold match_here.
    rewrite (match_seq_TITLE_hit m content m2 Hopen Hinside Hclose Hfirst2 Hdot).
    split; reflexivity.
  - apply exec_none. intros a u Heq. unfold match_here.
    rewrite match_seq_TITLE_miss; [reflexivity|].
    intros Hu a' u' Hdrop. apply starts_ci_length in Hu.
    destruct (suffix_after_drop _ m a u a' u' Heq Hu Hdrop) as [b Hb].
    exact (find_ci_None _ _ Fclose b u' Hb).
Qed.

(** ** Capture groups always take part *)

Lemma match_node_some {R : Type} (n : node) :
  forall (s : jsstring) (k : option jsstring -> jsstring -> option R) (x : R),
    match_node n s k = Some x ->
    exists (c : option jsstring) (s' : jsstring),
      k c s' = Some x
      /\ (match n with Group _ => True | _ => False end -> c <> None).
Proof.
  induction n as [p|p min greedy|n IH]; intros s k x Hm; simpl in Hm.
  - destruct s as [|c s]; [discriminate|]. destruct (p c); [|discriminate].
    exists None, s. split; [exact Hm|intros []].
  - apply rep_some in Hm as (a & u & _ & Hu).
    exists None, u. split; [exact Hu|intros []].
  - apply IH in Hm as (c & s' & Hk & _).
    eexists _, s'. split; [exact Hk|discriminate].
Qed.





(** ** Extraction *)

Lemma extractTitle_spec (html : jsstring) :
  (forall content : jsstring,
      spec_first_title html = Some content -> forallb dot content = true) ->
  extractTitle html = spec_extractTitle html.
Proof.
  intros Hline. unfold extractTitle, spec_extractTitle.
  pose proof (exec_TITLE_spec html) as Hspec.
  destruct (spec_first_title html) as [content|].
  - destruct (Hspec (Hline content eq_refl)) as (m & -> & Hg).
    unfold capture. now rewrite Hg.
  - now rewrite Hspec.
Qed.

Lemma extractTitle_absent (html : jsstring) :
  spec_first_title html = None -> extractTitle html = NO_TITLE.
Proof.
  intros Hnone. rewrite extractTitle_spec.
  - unfold spec_extractTitle. now rewrite Hnone.
  - intros content Hc. congruence.
Qed.


(** C6: when the page has no title element, extraction yields the title
    sentinel and the title evaluation takes off exactly 20 points, not the 10
    points of a short title on top; and for every page the title, description
    and headings evaluations each take exactly one of their branches. *)
Theorem C6_missing_title_penalty (html : jsstring) :
  spec_first_title html = None ->
  extractTitle html = NO_TITLE
  /\ length NO_TITLE < 30
  /\ title_penalty (extractPageData html) = 20%Z
  /\ calculateSeoScore (extractPageData html)
     = (100 - 20 - meta_penalty (extractPageData html)
        - headings_penalty (extractPageData html)
        - images_penalty (extractPageData html)
        - links_penalty (extractPageData html))%Z
  /\ (forall pd : PageData,
         (title_penalty pd = 0 \/ title_penalty pd = 10
          \/ title_penalty pd = 20)%Z
         /\ (meta_penalty pd = 0 \/ meta_penalty pd = 10
             \/ meta_penalty pd = 20)%Z
         /\ (headings_penalty pd = 0 \/ headings_penalty pd = 5
             \/ headings_penalty pd = 15)%Z).
Proof.
  intros Habs. pose proof (extractTitle_absent html Habs) as Ht.
  assert (title_penalty (extractPageData html) = 20%Z) as Hp.
  { unfold title_penalty, extractPageData. simpl title. rewrite Ht. reflexivity. }
  split; [exact Ht|]. split; [vm_compute; lia|]. split; [exact Hp|].
  split; [rewrite calculateSeoScore_penalties, Hp; reflexivity|].
  intros pd. split; [apply title_penalty_cases|].
  split; [apply meta_penalty_cases|apply headings_penalty_cases].
Qed.

(** C6 at a page without a title. *)
Lemma C6_missing_title_penalty_witness :
  extractTitle (js "<html><body><p>x</p></body></html>") = NO_TITLE
  /\ title_penalty (extractPageData (js "<html><body><p>x</p></body></html>"))
     = 20%Z.
Proof.
  pose proof (C6_missing_title_penalty
                (js "<html><body><p>x</p></body></html>") eq_refl) as H.
  split; [apply H|apply H].
Defined.

(** ** Running the routes *)

Lemma run_await {A X : Type} (w : World) (ev : event X) (f : X -> prog A)
    (cache : gmap jsstring jsstring) :
  run w (bind (Do ev Ret) f) cache
  = match step w cache ev with
    | (Returned x, cache') =>
        let '(o, cache'', calls) := run w (f x) cache' in
        (o, cache'', Called ev :: calls)
    | (Thrown e, cache') => (Thrown e, cache', [Called ev])
    end.
Proof. reflexivity. Qed.

Lemma run_bind {A B : Type} (w : World) (p : prog A) (f : A -> prog B)
    (cache : gmap jsstring jsstring) :
  run w (bind p f) cache
  = match run w p cache with
    | (Returned a, cache', calls) =>
        let '(o, cache'', calls') := run w (f a) cache' in
        (o, cache'', calls ++ calls')
    | (Thrown e, cache', calls) => (Thrown e, cache', calls)
    end.
Proof.
  revert cache. induction p as [a|e|e|X ev k IH]; intros cache; simpl.
  - destruct (run w (f a) cache) as [[o c] calls]. reflexivity.
  - reflexivity.
  - reflexivity.
  - destruct (step w cache ev) as [[x|e] cache']; [|reflexivity].
    rewrite IH. destruct (run w (k x) cache') as [[[a|e] c] calls];
      [|reflexivity].
    destruct (run w (f a) c) as [[o c'] calls']. reflexivity.
Qed.

(** Every successful run of [analyzeSeoMultiStep] makes the same five calls;
    its result is computed from the fetched page and the matches, and is what
    it leaves in the cache. *)
Lemma analyzeSeoMultiStep_returned (w : World) (url : option json)
    (cache cache' : gmap jsstring jsstring) (r : AnalysisResult)
    (calls : list call) :
  run w (analyzeSeoMultiStep url) cache = (Returned r, cache', calls) ->
  exists (page : jsstring) (embedding : list (list float))
         (matches : list VectorizeMatch),
    answer w _ (Fetch url) = Returned page
    /\ answer w _ (VectorizeQuery (head embedding) 10) = Returned matches
    /\ r = mkAnalysisResult (extractPageData page)
             (mkAnalysis (calculateSeoScore (extractPageData page))
                (findSeoIssues (extractPageData page))
                (generateRecommendations (extractPageData page))
                (take 500 (rag_context matches)))
    /\ cache' = <[js "analysis:" ++ ToString url
                  := JSON_stringify (AnalysisResult_json r)]> cache
    /\ map (fun c => match c with Called ev => collaborator_of ev end) calls
       = [Transport; Embedding; VectorIndex; DurableStore; Cache].
Proof.
  unfold analyzeSeoMultiStep. rewrite run_await. simpl step.
  destruct (answer w _ (Fetch url)) as [page|e] eqn:Hfetch; [|discriminate].
  rewrite run_await. simpl step.
  destruct (answer w _ (AiEmbed _)) as [embedding|e] eqn:Hembed; [|discriminate].
  rewrite run_await. simpl step.
  destruct (answer w _ (VectorizeQuery _ _)) as [matches|e] eqn:Hquery;
    [|discriminate].
  rewrite run_await. simpl step.
  destruct (answer w _ (DbInsertAnalysis _ _ _ _)) as [[]|e] eqn:Hdb;
    [|discriminate].
  rewrite run_await. simpl step.
  destruct (cache_put_fault w _) as [e|] eqn:Hput; [discriminate|].
  simpl. intros [= <- <- <-].
  exists page, embedding, matches. repeat split; assumption.
Qed.

(** ** Chat sources *)

Lemma source_label_truthy (m : VectorizeMatch) : truthy (source_label m) = true.
Proof.
  unfold source_label, or_else.
  destruct (truthy (opt_get (metadata m) (js "source"))) eqn:E;
    [exact E|reflexivity].
Qed.

(** The filter of [chat_sources] removes nothing. *)
Lemma chat_sources_map (matches : list VectorizeMatch) :
  chat_sources matches = map source_label matches.
Proof.
  unfold chat_sources. change (fun m => or_else _ _) with source_label.
  induction matches as [|m matches IH]; [reflexivity|].
  cbn [map List.filter]. rewrite (source_label_truthy m). now rewrite IH.
Qed.

Lemma chat_try_not_null (req : json) :
  req <> JNull ->
  chat_try req
  = (let message := opt_get (Some req) (js "message") in
     let sessionId := opt_get (Some req) (js "sessionId") in
     bind (Do (AiEmbed message) Ret) (fun queryEmbedding =>
     bind (Do (VectorizeQuery (head queryEmbedding) 5) Ret) (fun ragResults =>
     bind (Do (DbSessionFirst sessionId) Ret) (fun history =>
     bind (Do (AiChat
                 (js "You are an expert SEO consultant. Use this knowledge base to provide accurate advice:"
                  ++ NEWLINES ++ rag_context ragResults ++ NEWLINES
                  ++ js "Previous context: "
                  ++ ToString (or_else (opt_get history (js "context"))
                                 (Some (JStr (js "None")))))
                 message 1024) Ret) (fun response =>
     bind (Do (DbSessionReplace sessionId
                 (JSON_stringify (JObj (field (js "lastMessage") message)))) Ret)
       (fun _ =>
     Ret (mkResponse 200
            (JObj (field (js "response") response
                   ++ [(js "sources", array_json (chat_sources ragResults))])))))))))%prog.
Proof. destruct req; [congruence|reflexivity..]. Qed.

(** C3, as stated, fails: two retrieved passages that declare the same
    source give a sources list with that label twice. *)
Lemma C3_sources_deduplicated_refuted :
  opt_get (Some (body (fst (fst (chat (sample_world short_page) chat_request ∅)))))
    (js "sources")
  = Some (JArr [JStr (js "SEO Best Practices"); JStr (js "SEO Best Practices")])
  /\ ~ NoDup (chat_sources [seeded_match "title-tags";
                            seeded_match "meta-description"]).
Proof.
  split; [vm_compute; reflexivity|].
  intros Hnodup. rewrite chat_sources_map in Hnodup. simpl in Hnodup.
  apply NoDup_cons_1_1 in Hnodup. apply Hnodup. left.
Qed.

(** C3 (amended): whenever the chat route answers with success, the sources
    of its response are the source labels of the retrieved passages, one per
    passage and in retrieval order, with Unknown standing in for a label that
    is missing or empty; labels that occur twice are kept twice. *)
Theorem C3_sources_in_retrieval_order (w : World) (req : json)
    (cache cache' : gmap jsstring jsstring) (resp : Response)
    (calls : list call) :
  chat w req cache = (resp, cache', calls) ->
  status resp = 200 ->
  exists (embedding : list (list float)) (matches : list VectorizeMatch),
    answer w _ (AiEmbed (opt_get (Some req) (js "message"))) = Returned embedding
    /\ answer w _ (VectorizeQuery (head embedding) 5) = Returned matches
    /\ opt_get (Some (body resp)) (js "sources")
       = Some (array_json (map source_label matches))
    /\ chat_sources matches = map source_label matches
    /\ length (chat_sources matches) = length matches.
Proof.
  unfold chat, serve. intros Hrun Hstatus.
  assert (req = JNull \/ req <> JNull) as [->|Hreq]
    by (destruct req; (now left) || (right; discriminate)).
  { simpl in Hrun. injection Hrun as <- _ _. discriminate Hstatus. }
  rewrite (chat_try_not_null req Hreq) in Hrun. cbv zeta in Hrun.
  rewrite run_await in Hrun. simpl step in Hrun.
  destruct (answer w _ (AiEmbed _)) as [embedding|e] eqn:Hembed;
    [|injection Hrun as <- _ _; discriminate Hstatus].
  rewrite run_await in Hrun. simpl step in Hrun.
  destruct (answer w _ (VectorizeQuery _ _)) as [matches|e] eqn:Hquery;
    [|injection Hrun as <- _ _; discriminate Hstatus].
  rewrite run_await in Hrun. simpl step in Hrun.
  destruct (answer w _ (DbSessionFirst _)) as [history|e];
    [|injection Hrun as <- _ _; discriminate Hstatus].
  rewrite run_await in Hrun. simpl step in Hrun.
  destruct (answer w _ (AiChat _ _ _)) as [response|e];
    [|injection Hrun as <- _ _; discriminate Hstatus].
  rewrite run_await in Hrun. simpl step in Hrun.
  destruct (answer w _ (DbSessionReplace _ _)) as [[]|e];
    [|injection Hrun as <- _ _; discriminate Hstatus].
  simpl in Hrun. injection Hrun as <- _ _.
  exists embedding, matches. rewrite chat_sources_map.
  repeat split; try assumption.
  - destruct response; reflexivity.
  - now rewrite length_map.
Qed.

(** C3 in the sample world. *)
Lemma C3_sources_in_retrieval_order_witness :
  exists (embedding : list (list float)) (matches : list VectorizeMatch),
    answer (sample_world short_page) _
      (AiEmbed (opt_get (Some chat_request) (js "message")))
    = Returned embedding
    /\ answer (sample_world short_page) _ (VectorizeQuery (head embedding) 5)
       = Returned matches
    /\ opt_get
         (Some (body (fst (fst (chat (sample_world short_page) chat_request ∅)))))
         (js "sources")
       = Some (array_json (map source_label matches))
    /\ chat_sources matches = map source_label matches
    /\ length (chat_sources matches) = length matches.
Proof.
  apply (C3_sources_in_retrieval_order (sample_world short_page) chat_request
           ∅ (snd (fst (chat (sample_world short_page) chat_request ∅)))
           (fst (fst (chat (sample_world short_page) chat_request ∅)))
           (snd (chat (sample_world short_page) chat_request ∅))).
  - reflexivity.
  - reflexivity.
Defined.

(** ** Missing request fields *)

(** The analyze route answers a request without a url before any call. *)
Lemma analyze_missing_url (w : World) (req : json)
    (cache : gmap jsstring jsstring) :
  req <> JNull ->
  truthy (opt_get (Some req) (js "url")) = false ->
  analyze w req cache
  = (mkResponse 400 (JObj [(js "error", JStr (js "URL is required"))]),
     cache, []).
Proof.
  intros Hreq Hurl. unfold analyze, serve, analyze_try.
  destruct req; try congruence; rewrite Hurl; reflexivity.
Qed.

(** C4 at the failing request: the analyze route rejects a request without
    url with status 400 and no call, but the chat route has no such check; on
    a request without message its first act is to call the embedding
    collaborator with an undefined text, and when that call fails the answer
    is the status 500 of every other failure. *)
Theorem C4_chat_without_message_calls_embedding (w : World)
    (cache : gmap jsstring jsstring) :
  opt_get (Some chat_request_no_message) (js "message") = None
  /\ (exists rest : list call,
         snd (chat w chat_request_no_message cache)
         = Called (AiEmbed None) :: rest)
  /\ (forall e : thrown,
         answer w _ (AiEmbed None) = Thrown e ->
         chat w chat_request_no_message cache
         = (on_error e, cache, [Called (AiEmbed None)]))
  /\ analyze w (JObj []) cache
     = (mkResponse 400 (JObj [(js "error", JStr (js "URL is required"))]),
        cache, []).
Proof.
  split; [reflexivity|]. split; [|split].
  - unfold chat, serve. rewrite chat_try_not_null by discriminate.
    cbv zeta. rewrite run_await.
    change (opt_get (Some chat_request_no_message) (js "message")) with (@None json).
    simpl step. destruct (answer w _ (AiEmbed None)) as [x|e].
    + destruct (run w _ cache) as [[o c] calls]. eexists. reflexivity.
    + eexists. reflexivity.
  - intros e He. unfold chat, serve. rewrite chat_try_not_null by discriminate.
    cbv zeta. rewrite run_await.
    change (opt_get (Some chat_request_no_message) (js "message")) with (@None json).
    simpl step. rewrite He. reflexivity.
  - apply analyze_missing_url; [discriminate|reflexivity].
Qed.

(** ** Purity of the scoring pipeline *)

(** C5: for every HTML text the score of the extracted features is an
    integer between 0 and 100; and the score, the issues and the
    recommendations of an analysis are functions of the fetched text alone:
    two successful analyses that fetched the same text, in any two worlds
    and cache states and for any urls, agree on all three. *)
Theorem C5_score_range_and_purity (page : jsstring) :
  (0 <= calculateSeoScore (extractPageData page) <= 100)%Z
  /\ forall (w1 w2 : World) (url1 url2 : option json)
            (cache1 cache2 cache1' cache2' : gmap jsstring jsstring)
            (r1 r2 : AnalysisResult) (calls1 calls2 : list call),
       run w1 (analyzeSeoMultiStep url1) cache1 = (Returned r1, cache1', calls1) ->
       run w2 (analyzeSeoMultiStep url2) cache2 = (Returned r2, cache2', calls2) ->
       answer w1 _ (Fetch url1) = Returned page ->
       answer w2 _ (Fetch url2) = Returned page ->
       score (analysis r1) = calculateSeoScore (extractPageData page)
       /\ score (analysis r1) = score (analysis r2)
       /\ issues (analysis r1) = issues (analysis r2)
       /\ recommendations (analysis r1) = recommendations (analysis r2)
       /\ pageData r1 = pageData r2.
Proof.
  split.
  - pose proof (calculateSeoScore_range (extractPageData page)). lia.
  - intros w1 w2 url1 url2 cache1 cache2 cache1' cache2' r1 r2 calls1 calls2
      Hrun1 Hrun2 Hpage1 Hpage2.
    apply analyzeSeoMultiStep_returned in Hrun1
      as (p1 & e1 & m1 & Hf1 & _ & -> & _).
    apply analyzeSeoMultiStep_returned in Hrun2
      as (p2 & e2 & m2 & Hf2 & _ & -> & _).
    rewrite Hpage1 in Hf1. rewrite Hpage2 in Hf2.
    injection Hf1 as <-. injection Hf2 as <-. simpl. repeat split.
Qed.

(** C5 in the sample world: the page of the scenario scores 45. *)
Lemma C5_score_range_and_purity_witness :
  (0 <= calculateSeoScore (extractPageData short_page) <= 100)%Z
  /\ forall r : AnalysisResult,
       fst (fst (run (sample_world short_page)
                   (analyzeSeoMultiStep (Some (JStr (js "https://example.com"))))
                   ∅))
       = Returned r ->
       score (analysis r) = 45%Z.
Proof.
  split; [apply (C5_score_range_and_purity short_page)|].
  intros r Hr.
  destruct (run (sample_world short_page)
              (analyzeSeoMultiStep (Some (JStr (js "https://example.com")))) ∅)
    as [[o cache'] calls] eqn:Hrun.
  simpl in Hr. subst o.
  destruct (proj2 (C5_score_range_and_purity short_page)
              (sample_world short_page) (sample_world short_page) _ _ _ _ _ _
              _ _ _ _ Hrun Hrun eq_refl eq_refl) as (Hscore & _).
  rewrite Hscore. reflexivity.
Defined.
(** ** JSON texts *)

Lemma hex_value_hex_digit (n : N) :
  (n < 16)%N -> hex_value (hex_digit n) = Some n.
Proof.
  intros Hn.
  assert (In n [0; 1; 2; 3; 4; 5; 6; 7; 8; 9; 10; 11; 12; 13; 14; 15]%N) as Hin.
  { simpl. lia. }
  simpl in Hin.
  repeat (destruct Hin as [<- | Hin]; [reflexivity|]). destruct Hin.
Qed.

Lemma hex4_escape (u : N) :
  (u < 65536)%N ->
  hex4 (hex_digit (u / 4096 mod 16)) (hex_digit (u / 256 mod 16))
    (hex_digit (u / 16 mod 16)) (hex_digit (u mod 16))
  = Some u.
Proof.
  intros Hu. unfold hex4.
  rewrite !hex_value_hex_digit by (apply N.mod_lt; discriminate).
  f_equal. 
  zify. Z.to_euclidean_division_equations. lia.
Qed.

Lemma parse_chars_escape (u : N) (tail : jsstring) :
  (u < 65536)%N ->
  parse_chars (unicode_escape u ++ tail) = cons_unit u (parse_chars tail).
Proof.
  intros Hu. unfold unicode_escape. cbn [app parse_chars].
  change (N.eqb 0x5C 0x22) with false. change (N.eqb 0x5C 0x5C) with true.
  change (N.eqb 0x75 0x75) with true. cbv iota.
  now rewrite (hex4_escape u Hu).
Qed.

Lemma parse_chars_literal (u : N) (tail : jsstring) :
  N.eqb u 0x22 = false -> N.eqb u 0x5C = false -> (u <? 0x20)%N = false ->
  parse_chars (u :: tail) = cons_unit u (parse_chars tail).
Proof. intros H1 H2 H3. cbn [parse_chars]. now rewrite H1, H2, H3. Qed.

Lemma surrogate_range (u : N) :
  high_surrogate u = true \/ low_surrogate u = true ->
  (u < 65536)%N /\ N.eqb u 0x22 = false /\ N.eqb u 0x5C = false
  /\ (u <? 0x20)%N = false.
Proof.
  unfold high_surrogate, low_surrogate.
  rewrite !andb_true_iff, !N.leb_le, !N.eqb_neq, N.ltb_ge. lia.
Qed.

Lemma parse_chars_quote_unit (u : N) (tail : jsstring) :
  high_surrogate u = false ->
  parse_chars (quote_unit u ++ tail) = cons_unit u (parse_chars tail).
Proof.
  intros Hhigh. unfold quote_unit.
  destruct (N.eqb_spec u 0x08) as [->|H08]; [reflexivity|].
  destruct (N.eqb_spec u 0x09) as [->|H09]; [reflexivity|].
  destruct (N.eqb_spec u 0x0A) as [->|H0A]; [reflexivity|].
  destruct (N.eqb_spec u 0x0C) as [->|H0C]; [reflexivity|].
  destruct (N.eqb_spec u 0x0D) as [->|H0D]; [reflexivity|].
  destruct (N.eqb_spec u 0x22) as [->|H22]; [reflexivity|].
  destruct (N.eqb_spec u 0x5C) as [->|H5C]; [reflexivity|].
  rewrite Hhigh, orb_false_r.
  destruct (u <? 0x20)%N eqn:Hctl; [|destruct (low_surrogate u) eqn:Hlow]; simpl.
  - apply parse_chars_escape. apply N.ltb_lt in Hctl. lia.
  - apply parse_chars_escape. apply (surrogate_range u). now right.
  - apply parse_chars_literal; [now apply N.eqb_neq..|exact Hctl].
Qed.

(** A quoted string reads back as the string it quotes. *)
Lemma parse_chars_quote_units (s rest : jsstring) :
  parse_chars (quote_units s ++ 0x22%N :: rest) = Some (s, rest).
Proof.
  remember (length s) as n eqn:Hn.
  assert (length s <= n) as Hlen by lia. clear Hn.
  revert s Hlen. induction n as [|n IH]; intros s Hlen.
  { destruct s; [reflexivity|simpl in Hlen; lia]. }
  destruct s as [|u s]; [reflexivity|]. simpl in Hlen.
  cbn [quote_units]. destruct (high_surrogate u) eqn:Hhigh.
  - destruct (surrogate_range u (or_introl Hhigh)) as (Hu & H22 & H5C & Hctl).
    destruct s as [|v s].
    + rewrite parse_chars_escape by exact Hu. reflexivity.
    + destruct (low_surrogate v) eqn:Hlow.
      * destruct (surrogate_range v (or_intror Hlow)) as (_ & V22 & V5C & Vctl).
        cbn [app]. rewrite parse_chars_literal by assumption.
        rewrite parse_chars_literal by assumption.
        rewrite IH by (simpl in Hlen; lia). reflexivity.
      * rewrite <- app_assoc, parse_chars_escape by exact Hu.
        rewrite IH by lia. reflexivity.
  - rewrite <- app_assoc, parse_chars_quote_unit by exact Hhigh.
    rewrite IH by lia. reflexivity.
Qed.


Lemma value_end_digits (rest : jsstring) :
  value_end rest ->
  parse_digits rest = (Decimal.Nil, rest) /\ continues_number rest = false.
Proof.
  destruct rest as [|c rest]; [split; reflexivity|].
  intros [-> | [-> | ->]]; split; reflexivity.
Qed.

Lemma parse_digits_units (d : Decimal.uint) (rest : jsstring) :
  value_end rest -> parse_digits (uint_units d ++ rest) = (d, rest).
Proof.
  intros Hend. induction d; cbn [uint_units app parse_digits];
    try (change (digit_value _) with (Some Decimal.D0)
         || change (digit_value _) with (Some Decimal.D1)
         || change (digit_value _) with (Some Decimal.D2)
         || change (digit_value _) with (Some Decimal.D3)
         || change (digit_value _) with (Some Decimal.D4)
         || change (digit_value _) with (Some Decimal.D5)
         || change (digit_value _) with (Some Decimal.D6)
         || change (digit_value _) with (Some Decimal.D7)
         || change (digit_value _) with (Some Decimal.D8)
         || change (digit_value _) with (Some Decimal.D9));
    try (cbv iota beta; rewrite IHd; reflexivity).
  apply value_end_digits, Hend.
Qed.

Lemma uint_beq_refl (d : Decimal.uint) : Decimal.uint_beq d d = true.
Proof. induction d; simpl; auto. Qed.

Lemma parse_uint_units (d : Decimal.uint) (rest : jsstring) :
  Decimal.unorm d = d -> value_end rest ->
  parse_uint (uint_units d ++ rest) = Some (d, rest).
Proof.
  intros Hnorm Hend. unfold parse_uint.
  rewrite parse_digits_units by exact Hend.
  rewrite Hnorm, uint_beq_refl.
  now rewrite (proj2 (value_end_digits rest Hend)).
Qed.

(** The first unit of a decimal numeral is a digit. *)
Lemma uint_units_head (d : Decimal.uint) :
  d <> Decimal.Nil ->
  exists (c : N) (s : jsstring),
    uint_units d = c :: s /\ (48 <= c <= 57)%N.
Proof.
  destruct d; [congruence|intros _; simpl; eexists _, _; split;
                           [reflexivity|lia]..].
Qed.

Lemma to_int_normal (z : Z) :
  match Z.to_int z with
  | Decimal.Pos d | Decimal.Neg d => Decimal.unorm d = d /\ d <> Decimal.Nil
  end.
Proof.
  pose proof (DecimalZ.to_of (Z.to_int z)) as Hnorm.
  rewrite DecimalZ.of_to in Hnorm.
  destruct (Z.to_int z) as [d|d]; simpl in Hnorm.
  - injection Hnorm as Hd. split; [now symmetry|].
    intros ->. discriminate Hd.
  - revert Hnorm. unfold Decimal.unorm.
    destruct (Decimal.nzhead d) eqn:E; intros Hnorm;
      try discriminate Hnorm; injection Hnorm as ->;
      (split; [reflexivity|discriminate]).
Qed.

(** An integer numeral reads back as its integer. *)
Lemma parse_number_toString (z : Z) (rest : jsstring) :
  value_end rest ->
  parse_number (Z_toString z ++ rest) = Some (JNum z, rest).
Proof.
  intros Hend. unfold Z_toString.
  pose proof (to_int_normal z) as Hnormal.
  pose proof (DecimalZ.of_to z) as Hz.
  destruct (Z.to_int z) as [d|d]; destruct Hnormal as [Hnorm Hnil].
  - destruct (uint_units_head d Hnil) as (c & s & Hunits & Hc).
    unfold parse_number.
    pose proof (parse_uint_units d rest Hnorm Hend) as Hparse.
    rewrite Hunits in *. cbn [app] in *.
    replace (N.eqb c 0x2D) with false by (symmetry; apply N.eqb_neq; lia).
    rewrite Hparse, Hz. reflexivity.
  - cbn [app parse_number]. change (N.eqb 0x2D 0x2D) with true. cbv iota.
    rewrite (parse_uint_units d rest Hnorm Hend), Hz. reflexivity.
Qed.

Lemma Z_toString_head (z : Z) :
  exists (c : N) (s : jsstring),
    Z_toString z = c :: s /\ (c = 0x2D \/ 48 <= c <= 57)%N.
Proof.
  unfold Z_toString. pose proof (to_int_normal z) as Hnormal.
  destruct (Z.to_int z) as [d|d]; destruct Hnormal as [_ Hnil].
  - destruct (uint_units_head d Hnil) as (c & s & -> & Hc).
    exists c, s. split; [reflexivity|now right].
  - eexists _, _. split; [reflexivity|now left].
Qed.


Lemma distinct_keys_array (items : list json) :
  distinct_keys (JArr items) <-> Forall distinct_keys items.
Proof.
  simpl. induction items as [|x items IH].
  - split; [constructor|trivial].
  - rewrite List.Forall_cons_iff. tauto.
Qed.

Lemma distinct_keys_object (members : list (jsstring * json)) :
  distinct_keys (JObj members)
  <-> NoDup (map fst members)
      /\ Forall (fun kv => distinct_keys (snd kv)) members.
Proof.
  simpl. apply and_iff_compat_l. induction members as [|kv members IH].
  - split; [constructor|trivial].
  - rewrite List.Forall_cons_iff. tauto.
Qed.

(** *** Unfolding the parser *)

Lemma parse_value_quote (n : nat) (s : jsstring) :
  parse_value (S n) (0x22%N :: s)
  = match parse_chars s with
    | Some (str, rest) => Some (JStr str, rest)
    | None => None
    end.
Proof. reflexivity. Qed.

Lemma parse_value_bracket (n : nat) (c : N) (s : jsstring) :
  ws c = false -> N.eqb c 0x5D = false ->
  parse_value (S n) (0x5B%N :: c :: s)
  = match parse_elements n (c :: s) with
    | Some (items, rest) => Some (JArr items, rest)
    | None => None
    end.
Proof. intros Hws Hc. cbn. now rewrite Hws, Hc. Qed.

Lemma parse_value_brace (n : nat) (s : jsstring) :
  parse_value (S n) (0x7B%N :: 0x22%N :: s)
  = match parse_members n (0x22%N :: s) with
    | Some (raw, rest) => Some (JObj (obj_of_list raw), rest)
    | None => None
    end.
Proof. reflexivity. Qed.

Lemma parse_value_number (n : nat) (c : N) (s : jsstring) :
  (c = 0x2D \/ 48 <= c <= 57)%N ->
  parse_value (S n) (c :: s) = parse_number (c :: s).
Proof.
  intros Hc.
  assert (ws c = false) as Hws.
  { unfold ws. rewrite !orb_false_iff, !N.eqb_neq. lia. }
  cbn [parse_value skip_ws]. rewrite Hws.
  repeat match goal with
         | |- context [N.eqb c ?k] =>
             replace (N.eqb c k) with false by (symmetry; apply N.eqb_neq; lia)
         end.
  reflexivity.
Qed.

Lemma parse_elements_S (n : nat) (s : jsstring) :
  parse_elements (S n) s
  = match parse_value n s with
    | Some (v, s1) =>
        match skip_ws s1 with
        | c :: s2 =>
            if N.eqb c 0x2C then
              match parse_elements n s2 with
              | Some (items, rest) => Some (v :: items, rest)
              | None => None
              end
            else if N.eqb c 0x5D then Some ([v], s2)
            else None
        | [] => None
        end
    | None => None
    end.
Proof. reflexivity. Qed.

Lemma parse_members_S (n : nat) (s : jsstring) :
  parse_members (S n) (0x22%N :: s)
  = match parse_chars s with
    | Some (key, s1) =>
        match skip_ws s1 with
        | colon :: s2 =>
            if N.eqb colon 0x3A then
              match parse_value n s2 with
              | Some (v, s3) =>
                  match skip_ws s3 with
                  | c :: s4 =>
                      if N.eqb c 0x2C then
                        match parse_members n s4 with
                        | Some (raw, rest) => Some ((key, v) :: raw, rest)
                        | None => None
                        end
                      else if N.eqb c 0x7D then Some ([(key, v)], s4)
                      else None
                  | [] => None
                  end
              | None => None
              end
            else None
        | [] => None
        end
    | None => None
    end.
Proof. reflexivity. Qed.

(** *** Texts read back *)

(** The first unit of the text of a value is no white space and closes
    nothing. *)
Lemma stringify_head (v : json) :
  exists (c : N) (s : jsstring),
    JSON_stringify v = c :: s
    /\ ws c = false /\ N.eqb c 0x5D = false /\ N.eqb c 0x7D = false.
Proof.
  destruct v as [|[|]|z|s|items|members];
    try (eexists _, _; split; [reflexivity|repeat split; reflexivity]).
  destruct (Z_toString_head z) as (c & s & Hz & Hc).
  exists c, s. split; [exact Hz|].
  unfold ws. rewrite !orb_false_iff, !N.eqb_neq. lia.
Qed.

Lemma obj_set_fresh (acc : list (jsstring * json)) (key : jsstring) (value : json) :
  ~ In key (map fst acc) -> obj_set acc key value = acc ++ [(key, value)].
Proof.
  induction acc as [|[k v] acc IH]; intros Hfresh; [reflexivity|].
  simpl in *. destruct (str_eqb k key) eqn:E.
  - apply str_eqb_eq in E. tauto.
  - rewrite IH by tauto. reflexivity.
Qed.

Lemma obj_of_list_distinct (members : list (jsstring * json)) :
  NoDup (map fst members) -> obj_of_list members = members.
Proof.
  unfold obj_of_list.
  enough (forall acc : list (jsstring * json),
             NoDup (map fst (acc ++ members)) ->
             fold_left (fun acc kv => obj_set acc (fst kv) (snd kv)) members acc
             = acc ++ members) as Hgen by (apply (Hgen [])).
  induction members as [|[k v] members IH]; intros acc Hnodup; simpl.
  - now rewrite app_nil_r.
  - rewrite obj_set_fresh.
    + rewrite IH; rewrite <- app_assoc; [reflexivity|exact Hnodup].
    + rewrite map_app in Hnodup. simpl in Hnodup.
      apply NoDup_app in Hnodup as (_ & Hdisjoint & _).
      intros Hin%list_elem_of_In. apply (Hdisjoint k Hin). left.
Qed.

Lemma comma_join_single (a : jsstring) : comma_join [a] = a.
Proof. simpl. apply app_nil_r. Qed.

Lemma comma_join_cons (a : jsstring) (l : list jsstring) :
  l <> [] -> comma_join (a :: l) = a ++ 0x2C%N :: comma_join l.
Proof. destruct l; [congruence|reflexivity]. Qed.

Lemma parse_elements_join (items : list json) :
  Forall reads_back items -> items <> [] ->
  forall (n : nat) (rest : jsstring),
    length (comma_join (map JSON_stringify items)) + 1 <= n ->
    parse_elements n (comma_join (map JSON_stringify items) ++ 0x5D%N :: rest)
    = Some (items, rest).
Proof.
  induction items as [|x items IH]; intros Hall Hne n rest Hn; [congruence|].
  apply List.Forall_cons_iff in Hall as [Hx Hall].
  destruct n as [|n]; [lia|]. rewrite parse_elements_S.
  destruct items as [|y items].
  - change (map JSON_stringify [x]) with [JSON_stringify x] in *.
    rewrite comma_join_single in *.
    rewrite Hx; [reflexivity|lia|simpl; tauto].
  - change (map JSON_stringify (x :: y :: items))
      with (JSON_stringify x :: map JSON_stringify (y :: items)) in *.
    rewrite comma_join_cons in * by discriminate.
    rewrite length_app in Hn. cbn [length] in Hn.
    rewrite <- app_assoc. cbn [app]. rewrite Hx; [|lia|simpl; tauto].
    cbn [skip_ws]. change (ws 0x2C) with false. cbv iota.
    change (N.eqb 0x2C 0x2C) with true. cbv iota.
    rewrite IH; [reflexivity|exact Hall|discriminate|lia].
Qed.

Lemma member_text_eq (key : jsstring) (value : json) (tail : jsstring) :
  member_text (key, value) ++ tail
  = 0x22%N :: quote_units key
    ++ 0x22%N :: 0x3A%N :: JSON_stringify value ++ tail.
Proof.
  unfold member_text, quote_string. cbn [app].
  now rewrite <- !app_assoc.
Qed.

Lemma member_text_length (key : jsstring) (value : json) :
  length (JSON_stringify value) + 3 <= length (member_text (key, value)).
Proof.
  unfold member_text, quote_string. rewrite !length_app. simpl. lia.
Qed.

Lemma parse_members_join (members : list (jsstring * json)) :
  Forall (fun kv => reads_back (snd kv)) members -> members <> [] ->
  forall (n : nat) (rest : jsstring),
    length (comma_join (map member_text members)) + 1 <= n ->
    parse_members n (comma_join (map member_text members) ++ 0x7D%N :: rest)
    = Some (members, rest).
Proof.
  induction members as [|[k v] members IH]; intros Hall Hne n rest Hn;
    [congruence|].
  apply List.Forall_cons_iff in Hall as [Hv Hall]. simpl in Hv.
  destruct n as [|n]; [lia|].
  pose proof (member_text_length k v) as Hlen.
  destruct members as [|kv members].
  - change (map member_text [(k, v)]) with [member_text (k, v)] in *.
    rewrite comma_join_single in *.
    rewrite member_text_eq, parse_members_S.
    rewrite parse_chars_quote_units. cbn [skip_ws].
    change (ws 0x3A) with false. cbv iota.
    change (N.eqb 0x3A 0x3A) with true. cbv iota.
    rewrite Hv; [reflexivity|lia|simpl; tauto].
  - change (map member_text ((k, v) :: kv :: members))
      with (member_text (k, v) :: map member_text (kv :: members)) in *.
    rewrite comma_join_cons in * by discriminate.
    rewrite length_app in Hn. cbn [length] in Hn.
    rewrite <- app_assoc, member_text_eq, parse_members_S.
    rewrite parse_chars_quote_units. cbn [skip_ws].
    change (ws 0x3A) with false. cbv iota.
    change (N.eqb 0x3A 0x3A) with true. cbv iota.
    cbn [app]. rewrite Hv; [|lia|simpl; tauto].
    cbn [skip_ws]. change (ws 0x2C) with false. cbv iota.
    change (N.eqb 0x2C 0x2C) with true. cbv iota.
    rewrite IH; [reflexivity|exact Hall|discriminate|lia].
Qed.

Lemma stringify_object_eq (members : list (jsstring * json)) :
  JSON_stringify (JObj members)
  = 0x7B%N :: comma_join (map member_text members) ++ [0x7D%N].
Proof. reflexivity. Qed.

Lemma stringify_array_eq (items : list json) :
  JSON_stringify (JArr items)
  = 0x5B%N :: comma_join (map JSON_stringify items) ++ [0x5D%N].
Proof. reflexivity. Qed.

(** Every value without duplicate keys reads back from its text. *)
Lemma stringify_reads_back (v : json) : distinct_keys v -> reads_back v.
Proof.
  induction v as [|b|z|s|items IH|members IH] using json_induction;
    intros Hkeys n rest Hn Hend.
  - destruct n as [|n]; [simpl in Hn; lia|reflexivity].
  - destruct n as [|n]; [destruct b; simpl in Hn; lia|].
    destruct b; reflexivity.
  - destruct (Z_toString_head z) as (c & s & Hz & Hc).
    destruct n as [|n]; [simpl in Hn; rewrite Hz in Hn; simpl in Hn; lia|].
    pose proof (parse_number_toString z rest Hend) as Hparse.
    cbn [JSON_stringify] in *. rewrite Hz in *. cbn [app] in *.
    now rewrite parse_value_number.
  - destruct n as [|n]; [simpl in Hn; lia|].
    cbn [JSON_stringify]. unfold quote_string. cbn [app].
    rewrite <- app_assoc. cbn [app].
    now rewrite parse_value_quote, parse_chars_quote_units.
  - apply distinct_keys_array in Hkeys.
    assert (Forall reads_back items) as Hall.
    { rewrite List.Forall_forall in *. intros x Hx. apply IH; auto. }
    rewrite stringify_array_eq in *.
    destruct n as [|n]; [simpl in Hn; lia|].
    cbn [length] in Hn. rewrite length_app in Hn. cbn [length] in Hn.
    cbn [app]. rewrite <- app_assoc. cbn [app].
    destruct items as [|x items]; [reflexivity|].
    destruct (stringify_head x) as (c & s & Hx & Hws & Hc & _).
    assert (exists s' : jsstring,
               comma_join (map JSON_stringify (x :: items)) = c :: s')
      as [s' Hjoin].
    { cbn [map comma_join]. rewrite Hx. eexists. reflexivity. }
    pose proof (parse_elements_join (x :: items) Hall ltac:(discriminate)
                  n rest ltac:(lia)) as Hparse.
    rewrite Hjoin in *. cbn [app] in *.
    rewrite parse_value_bracket by assumption. now rewrite Hparse.
  - apply distinct_keys_object in Hkeys as [Hnodup Hkeys].
    assert (Forall (fun kv => reads_back (snd kv)) members) as Hall.
    { rewrite List.Forall_forall in *. intros x Hx. apply IH; auto. }
    rewrite stringify_object_eq in *.
    destruct n as [|n]; [simpl in Hn; lia|].
    cbn [length] in Hn. rewrite length_app in Hn. cbn [length] in Hn.
    cbn [app]. rewrite <- app_assoc. cbn [app].
    destruct members as [|[k v] members]; [reflexivity|].
    assert (exists s' : jsstring,
               comma_join (map member_text ((k, v) :: members)) = 0x22%N :: s')
      as [s' Hjoin].
    { cbn [map comma_join member_text quote_string app]. eexists. reflexivity. }
    pose proof (parse_members_join ((k, v) :: members) Hall ltac:(discriminate)
                  n rest ltac:(lia)) as Hparse.
    rewrite Hjoin in *. cbn [app] in *.
    rewrite parse_value_brace, Hparse.
    now rewrite obj_of_list_distinct.
Qed.

(** [JSON.parse(JSON.stringify(v))] is [v]. *)
Lemma JSON_parse_stringify (v : json) :
  distinct_keys v -> JSON_parse (JSON_stringify v) = Some v.
Proof.
  intros Hkeys. unfold JSON_parse.
  pose proof (stringify_reads_back v Hkeys
                (2 * length (JSON_stringify v) + 2) [] ltac:(lia) I) as Hparse.
  rewrite app_nil_r in Hparse. now rewrite Hparse.
Qed.

(** ** The cache *)

Lemma distinct_keys_strings (l : list jsstring) : distinct_keys (strings_json l).
Proof.
  apply distinct_keys_array. induction l; constructor; [exact I|assumption].
Qed.

Ltac keys_distinct := apply (bool_decide_unpack _); vm_compute; exact I.

Ltac members_distinct tac :=
  repeat (apply List.Forall_cons; [cbn [snd]; first [exact I | tac]|]);
  apply List.Forall_nil.

Lemma distinct_keys_recommendations (l : list Recommendation) :
  distinct_keys (recommendations_json l).
Proof.
  apply distinct_keys_array. induction l as [|r l IH]; constructor;
    [|exact IH].
  apply distinct_keys_object. split; [keys_distinct|members_distinct fail].
Qed.

(** The value cached for a result is an object of the language. *)
Lemma distinct_keys_result (r : AnalysisResult) :
  distinct_keys (AnalysisResult_json r).
Proof.
  apply distinct_keys_object. split; [keys_distinct|].
  members_distinct
    ltac:(apply distinct_keys_object; split;
          [keys_distinct
          |members_distinct
             ltac:(first [apply distinct_keys_strings
                         |apply distinct_keys_recommendations])]).
Qed.

Lemma analyze_try_not_null (req : json) :
  req <> JNull ->
  truthy (opt_get (Some req) (js "url")) = true ->
  analyze_try req
  = (let url := opt_get (Some req) (js "url") in
     bind (Do (CacheGet (js "analysis:" ++ ToString url)) Ret) (fun cached =>
       match cached with
       | Some (c :: cached') =>
           match JSON_parse (c :: cached') with
           | Some data =>
               Ret (mkResponse 200
                      (JObj [(js "cached", JBool true); (js "data", data);
                             (js "message", JStr (js "Retrieved from cache"))]))
           | None => Raise (SYNTAX_ERROR (c :: cached'))
           end
       | _ =>
           bind (analyzeSeoMultiStep url) (fun result =>
             Ret (mkResponse 200
                    (JObj [(js "cached", JBool false);
                           (js "data", AnalysisResult_json result);
                           (js "message", JStr (js "Analysis complete"))])))
       end)).
Proof.
  intros Hreq Hurl. unfold analyze_try.
  destruct req; try congruence; rewrite Hurl; reflexivity.
Qed.

(** A request served from the cache: one cache read and nothing else. *)
Lemma analyze_cache_hit (w : World) (req data : json)
    (cache : gmap jsstring jsstring) :
  req <> JNull ->
  truthy (opt_get (Some req) (js "url")) = true ->
  cache_get_fault w (js "analysis:" ++ ToString (opt_get (Some req) (js "url")))
  = None ->
  distinct_keys data ->
  cache !! (js "analysis:" ++ ToString (opt_get (Some req) (js "url")))
  = Some (JSON_stringify data) ->
  analyze w req cache
  = (mkResponse 200
       (JObj [(js "cached", JBool true); (js "data", data);
              (js "message", JStr (js "Retrieved from cache"))]),
     cache,
     [Called (CacheGet (js "analysis:"
                        ++ ToString (opt_get (Some req) (js "url"))))]).
Proof.
  intros Hreq Hurl Hfault Hkeys Hlookup. unfold analyze, serve.
  rewrite (analyze_try_not_null req Hreq Hurl). cbv zeta.
  rewrite run_await. cbn [step]. rewrite Hfault, Hlookup.
  destruct (stringify_head data) as (c & s & Htext & _).
  pose proof (JSON_parse_stringify data Hkeys) as Hparse.
  rewrite Htext in *. rewrite Hparse. reflexivity.
Qed.

(** C8: when an analyze request is answered with a fresh result, the cache
    holds the serialization of that result under the url's key, and parsing
    that serialization gives the result back, member for member and in order;
    so the same request on that cache, in any world whose cache read does not
    fail, makes the cache read and no other call, and answers with the cached
    flag and with the same data as the first answer. *)
Theorem C8_cache_hit_verbatim (w1 w2 : World) (req : json)
    (cache cache1 : gmap jsstring jsstring) (resp1 : Response)
    (calls1 : list call) :
  analyze w1 req cache = (resp1, cache1, calls1) ->
  opt_get (Some (body resp1)) (js "cached") = Some (JBool false) ->
  cache_get_fault w2 (js "analysis:" ++ ToString (opt_get (Some req) (js "url")))
  = None ->
  exists result : AnalysisResult,
    resp1
    = mkResponse 200
        (JObj [(js "cached", JBool false);
               (js "data", AnalysisResult_json result);
               (js "message", JStr (js "Analysis complete"))])
    /\ cache1 !! (js "analysis:" ++ ToString (opt_get (Some req) (js "url")))
       = Some (JSON_stringify (AnalysisResult_json result))
    /\ JSON_parse (JSON_stringify (AnalysisResult_json result))
       = Some (AnalysisResult_json result)
    /\ analyze w2 req cache1
       = (mkResponse 200
            (JObj [(js "cached", JBool true);
                   (js "data", AnalysisResult_json result);
                   (js "message", JStr (js "Retrieved from cache"))]),
          cache1,
          [Called (CacheGet (js "analysis:"
                             ++ ToString (opt_get (Some req) (js "url"))))]).
Proof.
  intros Hrun Hfresh Hfault.
  assert (req = JNull \/ req <> JNull) as [->|Hreq]
    by (destruct req; (now left) || (right; discriminate)).
  { unfold analyze, serve in Hrun. simpl in Hrun.
    injection Hrun as <- _ _. discriminate Hfresh. }
  destruct (truthy (opt_get (Some req) (js "url"))) eqn:Hurl.
  2: { rewrite (analyze_missing_url w1 req cache Hreq Hurl) in Hrun.
       injection Hrun as <- _ _. discriminate Hfresh. }
  pose proof Hrun as Hrun1. unfold analyze, serve in Hrun1.
  rewrite (analyze_try_not_null req Hreq Hurl) in Hrun1. cbv zeta in Hrun1.
  rewrite run_await in Hrun1. cbn [step] in Hrun1.
  destruct (cache_get_fault w1 _) as [e|];
    [injection Hrun1 as <- _ _; discriminate Hfresh|].
  assert (exists result : AnalysisResult,
             resp1
             = mkResponse 200
                 (JObj [(js "cached", JBool false);
                        (js "data", AnalysisResult_json result);
                        (js "message", JStr (js "Analysis complete"))])
             /\ cache1
                = <[js "analysis:" ++ ToString (opt_get (Some req) (js "url"))
                    := JSON_stringify (AnalysisResult_json result)]> cache)
    as (result & Hresp & Hcache).
  { destruct (cache !! _) as [[|c cached']|] eqn:Hlookup.
    2: { destruct (JSON_parse (c :: cached')) as [data|];
           injection Hrun1 as <- _ _; discriminate Hfresh. }
    all: rewrite run_bind in Hrun1.
    all: destruct (run w1 (analyzeSeoMultiStep _) cache)
           as [[[r|e] c] calls] eqn:Hstep;
         [|simpl in Hrun1; injection Hrun1 as <- _ _; discriminate Hfresh].
    all: apply analyzeSeoMultiStep_returned in Hstep
           as (_ & _ & _ & _ & _ & _ & Hc & _).
    all: simpl in Hrun1; injection Hrun1 as <- <- _.
    all: exists r; split; [reflexivity|exact Hc]. }
  exists result. split; [exact Hresp|].
  assert (cache1 !! (js "analysis:" ++ ToString (opt_get (Some req) (js "url")))
          = Some (JSON_stringify (AnalysisResult_json result))) as Hstored
    by (rewrite Hcache; apply lookup_insert_eq).
  split; [exact Hstored|].
  split; [apply JSON_parse_stringify, distinct_keys_result|].
  apply analyze_cache_hit; try assumption. apply distinct_keys_result.
Qed.

(** C8 in the sample world, from an empty cache. *)
Lemma C8_cache_hit_verbatim_witness :
  exists result : AnalysisResult,
    fst (fst (analyze (sample_world short_page) analyze_request ∅))
    = mkResponse 200
        (JObj [(js "cached", JBool false);
               (js "data", AnalysisResult_json result);
               (js "message", JStr (js "Analysis complete"))])
    /\ fst (fst (analyze (sample_world short_page) analyze_request
                   (snd (fst (analyze (sample_world short_page)
                                analyze_request ∅)))))
       = mkResponse 200
           (JObj [(js "cached", JBool true);
                  (js "data", AnalysisResult_json result);
                  (js "message", JStr (js "Retrieved from cache"))]).
Proof.
  destruct (C8_cache_hit_verbatim (sample_world short_page)
              (sample_world short_page) analyze_request ∅
              (snd (fst (analyze (sample_world short_page) analyze_request ∅)))
              (fst (fst (analyze (sample_world short_page) analyze_request ∅)))
              (snd (analyze (sample_world short_page) analyze_request ∅)))
    as (result & Hfirst & _ & _ & Hsecond).
  - reflexivity.
  - reflexivity.
  - reflexivity.
  - exists result. split; [exact Hfirst|]. now rewrite Hsecond.
Defined.

(* ================================================================== *)
(** * Further properties of the worker *)
(* ================================================================== *)

(** ** More on the matcher *)

Section MatcherSplit.
Context {R : Type}.
Variable p : N -> bool.
Variable k : jsstring -> option R.

(** A success of the repetition: the units it took are in the class, at
    least [min] of them, and the continuation succeeded on the rest. *)
Lemma rep_some_split (greedy : bool) (s : jsstring) :
  forall (min : nat) (r : R),
    rep p greedy k min s = Some r ->
    exists t s' : jsstring,
      s = t ++ s' /\ forallb p t = true /\ min <= length t /\ k s' = Some r.
Proof.
  induction s as [|c s IH]; intros min r Hrep.
  - exists [], []. destruct min, greedy; simpl in Hrep; try discriminate Hrep;
      (destruct (k []) eqn:E; [|discriminate Hrep]); injection Hrep as ->;
      repeat split; auto.
  - assert (forall m, rep p greedy k m s = Some r -> p c = true ->
                      exists t s', c :: s = t ++ s' /\ forallb p t = true
                                   /\ S m <= length t /\ k s' = Some r) as Hmore.
    { intros m Hm Hc. destruct (IH m r Hm) as (t & s' & -> & Hp & Hlen & Hk).
      exists (c :: t), s'. simpl. rewrite Hc, Hp. repeat split; auto. lia. }
    assert (k (c :: s) = Some r ->
            exists t s', c :: s = t ++ s' /\ forallb p t = true
                         /\ 0 <= length t /\ k s' = Some r) as Hhere.
    { intros Hk. exists [], (c :: s). repeat split; auto. }
    destruct min, greedy; simpl in Hrep.
    + destruct (p c) eqn:Hc.
      * destruct (rep p true k 0 s) eqn:E.
        -- injection Hrep as ->.
           destruct (Hmore 0 E eq_refl) as (t & s' & H1 & H2 & H3 & H4).
           exists t, s'. repeat split; auto. lia.
        -- apply Hhere, Hrep.
      * apply Hhere, Hrep.
    + destruct (k (c :: s)) eqn:E.
      * injection Hrep as ->. apply Hhere. reflexivity.
      * destruct (p c) eqn:Hc; [|discriminate Hrep].
        destruct (Hmore 0 Hrep eq_refl) as (t & s' & H1 & H2 & H3 & H4).
        exists t, s'. repeat split; auto. lia.
    + destruct (p c) eqn:Hc; [|discriminate Hrep]. now apply Hmore.
    + destruct (p c) eqn:Hc; [|discriminate Hrep]. now apply Hmore.
Qed.

(** A success of the lazy repetition: the continuation failed at every
    earlier stop. *)
Lemma rep_lazy_some (s : jsstring) :
  forall r : R,
    rep p false k 0 s = Some r ->
    exists t s' : jsstring,
      s = t ++ s' /\ forallb p t = true /\ k s' = Some r
      /\ forall t1 t2 : jsstring,
           t = t1 ++ t2 -> t2 <> [] -> k (t2 ++ s') = None.
Proof.
  induction s as [|c s IH]; intros r Hrep.
  - exists [], []. simpl in Hrep. destruct (k []) eqn:E; [|discriminate Hrep].
    injection Hrep as ->. repeat split; auto.
    intros t1 t2 Heq Hne. destruct t1, t2; simpl in Heq; congruence.
  - simpl in Hrep. destruct (k (c :: s)) eqn:E.
    + injection Hrep as ->. exists [], (c :: s). repeat split; auto.
      intros t1 t2 Heq Hne. destruct t1, t2; simpl in Heq; congruence.
    + destruct (p c) eqn:Hc; [|discriminate Hrep].
      destruct (IH r Hrep) as (t & s' & -> & Hp & Hk & Hfirst).
      exists (c :: t), s'. simpl. rewrite Hc, Hp. repeat split; auto.
      intros [|x t1] t2 Heq Hne; simpl in Heq.
      * subst t2. exact E.
      * injection Heq as -> ->. now apply (Hfirst t1 t2).
Qed.

(** The greedy repetition runs to the first unit outside the class when the
    continuation accepts there. *)
Lemma rep_greedy_hit (t s' : jsstring) (r : R) :
  forallb p t = true ->
  match s' with [] => True | c :: _ => p c = false end ->
  k s' = Some r ->
  rep p true k 0 (t ++ s') = Some r.
Proof.
  induction t as [|c t IH]; intros Hp Hstop Hk.
  - simpl. rewrite rep_eq. cbv zeta. destruct s' as [|c s'].
    + now rewrite Hk.
    + now rewrite Hstop, Hk.
  - simpl in Hp. apply andb_true_iff in Hp as [Hc Hp].
    simpl. rewrite Hc, IH by assumption. reflexivity.
Qed.
End MatcherSplit.

(** A node that is no group passes no capture on. *)
Lemma match_node_plain {R : Type} (n : node) :
  forall (s : jsstring) (k : option jsstring -> jsstring -> option R) (x : R),
    match n with Group _ => False | _ => True end ->
    match_node n s k = Some x ->
    exists s' : jsstring, k None s' = Some x.
Proof.
  destruct n as [p|p min greedy|n]; intros s k x Hplain Hm; simpl in Hm.
  - destruct s as [|c s]; [discriminate|]. destruct (p c); [|discriminate].
    now exists s.
  - apply rep_some in Hm as (a & u & _ & Hu). now exists u.
  - destruct Hplain.
Qed.

(** Nodes without a group leave the capture as it was. *)
Lemma match_seq_plain (r : list node) :
  forall (cap : option jsstring) (s : jsstring) (c : option jsstring)
         (rest : jsstring),
    has_group r = false ->
    match_seq r cap s = Some (c, rest) -> c = cap.
Proof.
  induction r as [|n r IH]; intros cap s c rest Hg Hm; simpl in Hm.
  - now injection Hm as <- <-.
  - simpl in Hg. apply orb_false_iff in Hg as [Hn Hg].
    apply match_node_plain in Hm as (s' & Hk); [|destruct n; auto; discriminate].
    now apply IH in Hk.
Qed.

(** A match of a sequence is a match of each of its tails. *)
Lemma match_seq_app_some (r1 r2 : list node) :
  forall (cap : option jsstring) (s : jsstring)
         (x : option jsstring * jsstring),
    match_seq (r1 ++ r2) cap s = Some x ->
    exists (cap' : option jsstring) (s' : jsstring),
      match_seq r2 cap' s' = Some x.
Proof.
  induction r1 as [|n r1 IH]; intros cap s x Hm.
  - now exists cap, s.
  - simpl in Hm. apply match_node_some in Hm as (c & s' & Hk & _).
    now apply IH in Hk.
Qed.

(** The capture of a group around a repetition, when nothing after the group
    captures: its units are in the class and there are at least [min]. *)
Lemma match_seq_group_capture (r1 r2 : list node) (p : N -> bool)
    (min : nat) (greedy : bool) (cap : option jsstring) (s : jsstring)
    (c : option jsstring) (rest : jsstring) :
  has_group r2 = false ->
  match_seq (r1 ++ Group (Rep p min greedy) :: r2) cap s = Some (c, rest) ->
  exists t : jsstring,
    c = Some t /\ forallb p t = true /\ min <= length t.
Proof.
  intros Hg Hm. apply match_seq_app_some in Hm as (cap' & s' & Hm).
  simpl in Hm. apply rep_some_split in Hm as (t & u & -> & Hp & Hlen & Hk).
  apply match_seq_plain in Hk; [|exact Hg].
  exists t. rewrite length_app, Nat.add_sub, take_app_length in Hk.
  auto.
Qed.

Lemma exec_some (r : list node) (s : jsstring) (m : result) :
  exec r s = Some m ->
  exists a u : jsstring, s = a ++ u /\ match_here r u = Some m.
Proof.
  induction s as [|c s IH]; simpl.
  - destruct (match_here r []) eqn:E; [|discriminate].
    intros [= <-]. now exists [], [].
  - destruct (match_here r (c :: s)) eqn:E.
    + intros [= <-]. now exists [], (c :: s).
    + intros Hm. destruct (IH Hm) as (a & u & -> & Hu).
      now exists (c :: a), u.
Qed.

(** Whatever holds of every match at a position holds of every match the
    global search returns. *)
Lemma match_all_from_Forall (r : list node) (P : result -> Prop) :
  (forall (u : jsstring) (m : result), match_here r u = Some m -> P m) ->
  forall (s : jsstring) (skip : nat), Forall P (match_all_from r skip s).
Proof.
  intros HP. induction s as [|c s IH]; intros skip.
  - destruct skip; simpl; [|constructor].
    destruct (match_here r []) eqn:E; constructor; [eauto|constructor].
  - destruct skip; simpl; [|apply IH].
    destruct (match_here r (c :: s)) eqn:E; [|apply IH].
    constructor; [eauto|apply IH].
Qed.

Lemma match_here_capture (r : list node) (s : jsstring) (m : result) :
  match_here r s = Some m ->
  exists rest : jsstring, match_seq r None s = Some (group1 m, rest).
Proof.
  unfold match_here. destruct (match_seq r None s) as [[c rest]|]; [|discriminate].
  intros [= <-]. now exists rest.
Qed.

(** ** Pages without a feature *)


















(** ** What the extractors return *)

Lemma find_ci_absent (p t : jsstring) :
  (forall a u : jsstring, t = a ++ u -> starts_ci p u = false) ->
  find_ci p t = None.
Proof.
  induction t as [|c t IH]; intros Hnone; simpl.
  - now rewrite (Hnone [] []).
  - rewrite (Hnone [] (c :: t)) by reflexivity.
    rewrite IH; [reflexivity|]. intros a u ->. now apply (Hnone (c :: a)).
Qed.

Lemma starts_ci_app (p u v : jsstring) :
  starts_ci p u = true -> starts_ci p (u ++ v) = true.
Proof.
  revert u. induction p as [|a p IH]; intros [|c u]; simpl; try discriminate;
    try reflexivity.
  intros [Hc Hp]%andb_true_iff. now rewrite Hc, IH.
Qed.

(** The title returned never holds a line terminator nor a closing title
    tag: the lazy group stops at the first closing tag and cannot cross a
    line. *)
Theorem extractTitle_one_line (html : jsstring) :
  forallb dot (extractTitle html) = true
  /\ find_ci (js "</title>") (extractTitle html) = None.
Proof.
  unfold extractTitle. destruct (exec TITLE_RE html) as [m|] eqn:Hexec;
    [|split; reflexivity].
  apply exec_some in Hexec as (a & u & _ & Hm).
  apply match_here_capture in Hm as (rest & Hm).
  rewrite match_seq_TITLE in Hm.
  destruct (starts_ci (js "<title>") u); [|discriminate]. cbv zeta in Hm.
  apply rep_lazy_some in Hm as (t & s' & Hinside & Hdot & Hk & Hfirst).
  rewrite match_seq_lit_end in Hk.
  destruct (starts_ci (js "</title>") s') eqn:Hclose; [|discriminate].
  rewrite Hinside, length_app, Nat.add_sub, take_app_length in Hk.
  injection Hk as Hcap _.
  unfold capture. rewrite <- Hcap. split; [exact Hdot|].
  apply find_ci_absent. intros t1 t2 Heq.
  destruct t2 as [|x t2]; [reflexivity|].
  destruct (starts_ci (js "</title>") (x :: t2)) eqn:E; [|reflexivity].
  apply (starts_ci_app _ _ s') in E.
  specialize (Hfirst t1 (x :: t2) Heq ltac:(discriminate)).
  cbv beta in Hfirst. rewrite match_seq_lit_end, E in Hfirst. discriminate.
Qed.

(** The description returned never holds a quote of either kind nor a line
    terminator: the lazy group stops at the first quote, whichever quote
    opened the attribute. *)
Theorem extractMetaDescription_stops_at_quote (html : jsstring) :
  forallb (fun u => negb (quote u) && dot u) (extractMetaDescription html)
  = true.
Proof.
  unfold extractMetaDescription.
  destruct (exec META_RE html) as [m|] eqn:Hexec; [|reflexivity].
  apply exec_some in Hexec as (a & u & _ & Hm).
  apply match_here_capture in Hm as (rest & Hm).
  change META_RE
    with ((lit "<meta" ++ [Rep space 1 true] ++ lit "name=" ++ [Chr quote]
           ++ lit "description" ++ [Chr quote; Rep space 1 true]
           ++ lit "content=" ++ [Chr quote])
          ++ [Group (Rep dot 0 false); Chr quote]) in Hm.
  apply match_seq_app_some in Hm as (cap' & s & Hm). simpl in Hm.
  apply rep_lazy_some in Hm as (t & s' & -> & Hdot & Hk & Hfirst).
  assert (group1 m = Some t) as Hcap.
  { destruct s' as [|c s']; [discriminate|]. destruct (quote c); [|discriminate].
    injection Hk as <- _.
    now rewrite length_app, Nat.add_sub, take_app_length. }
  unfold capture. rewrite Hcap. apply forallb_forall. intros x Hx.
  apply andb_true_iff. split.
  - apply in_split in Hx as (t1 & t2 & ->).
    specialize (Hfirst t1 (x :: t2) eq_refl ltac:(discriminate)).
    simpl in Hfirst. destruct (quote x); [discriminate|reflexivity].
  - rewrite forallb_forall in Hdot. now apply Hdot.
Qed.

(** Every image address and every link target returned is non-empty and
    holds no quote of either kind. *)
Theorem extractImages_extractLinks_values (html : jsstring) :
  Forall (fun u => u <> [] /\ forallb not_quote u = true) (extractImages html)
  /\ Forall (fun u => u <> [] /\ forallb not_quote u = true) (extractLinks html).
Proof.
  assert (forall r1 : list node,
             Forall (fun u => u <> [] /\ forallb not_quote u = true)
               (map capture
                  (match_all (r1 ++ [Group (Rep not_quote 1 true); Chr quote])
                     html))) as Hgen.
  { intros r1. apply List.Forall_map. apply match_all_from_Forall.
    intros u m Hm. apply match_here_capture in Hm as (rest & Hm).
    apply match_seq_group_capture in Hm as (t & Hcap & Hp & Hlen);
      [|reflexivity].
    unfold capture. rewrite Hcap. split; [|exact Hp].
    intros ->. simpl in Hlen. lia. }
  split.
  - apply (Hgen (lit "<img" ++ [Rep not_gt 1 true] ++ lit "src=" ++ [Chr quote])).
  - apply (Hgen (lit "<a" ++ [Rep not_gt 1 true] ++ lit "href=" ++ [Chr quote])).
Qed.

(** *** Stripping tags *)

Lemma first_gt (s : jsstring) :
  In 0x3E%N s ->
  exists t rest : jsstring, s = t ++ 0x3E%N :: rest /\ forallb not_gt t = true.
Proof.
  induction s as [|c s IH]; [intros []|].
  destruct (N.eqb_spec c 0x3E) as [->|Hc].
  - intros _. now exists [], s.
  - intros [Heq|Hin]; [congruence|].
    destruct (IH Hin) as (t & rest & -> & Ht).
    exists (c :: t), rest. split; [reflexivity|]. simpl.
    unfold not_gt at 1. apply N.eqb_neq in Hc. now rewrite Hc.
Qed.

(** The tag pattern matches at a less-than sign that has a greater-than
    sign after it, up to the first such sign. *)
Lemma match_here_TAG_hit (t rest : jsstring) :
  forallb not_gt t = true ->
  exists m : result,
    match_here TAG_RE (0x3C%N :: t ++ 0x3E%N :: rest) = Some m
    /\ length (matched m) = S (S (length t)).
Proof.
  intros Ht. unfold match_here, TAG_RE, lit.
  rewrite match_seq_lit. change (starts_ci (js "<") (0x3C%N :: _)) with true.
  cbv iota. change (drop (length (js "<")) (0x3C%N :: t ++ 0x3E%N :: rest))
    with (t ++ 0x3E%N :: rest).
  cbn [app match_seq match_node]. rewrite rep_greedy_hit with (r := (None, rest));
    [|exact Ht|reflexivity|reflexivity].
  eexists. split; [reflexivity|]. cbn [matched].
  rewrite length_take. simpl. rewrite length_app. simpl. lia.
Qed.

Lemma replace_from_In (r : list node) (s : jsstring) :
  forall (skip : nat) (x : N), In x (replace_from r [] skip s) -> In x s.
Proof.
  induction s as [|c s IH]; intros skip x.
  - destruct skip; simpl; [|tauto]. destruct (match_here r []); simpl; tauto.
  - destruct skip; simpl; [|intros H; right; eapply IH, H].
    destruct (match_here r (c :: s)) as [m|]; simpl.
    + destruct (length (matched m)); simpl.
      * intros [->|H]; [now left|right; eapply IH, H].
      * intros H; right; eapply IH, H.
    + intros [->|H]; [now left|right; eapply IH, H].
Qed.

Lemma holds_tag_cons (c : N) (s : jsstring) :
  holds_tag (c :: s) -> (c = 0x3C%N /\ In 0x3E%N s) \/ holds_tag s.
Proof.
  intros (a & b & d & Heq). destruct a as [|x a]; simpl in Heq.
  - injection Heq as -> ->. left. split; [reflexivity|].
    apply in_or_app. right. now left.
  - injection Heq as -> ->. right. now exists a, b, d.
Qed.

(** After the replacement no less-than sign has a greater-than sign after
    it. *)
Lemma replace_from_TAG (s : jsstring) :
  forall skip : nat, ~ holds_tag (replace_from TAG_RE [] skip s).
Proof.
  assert (~ holds_tag []) as Hnil.
  { intros (a & b & c & Heq). destruct a; discriminate Heq. }
  induction s as [|c s IH]; intros skip.
  - destruct skip; simpl; [|exact Hnil].
    destruct (match_here TAG_RE []); exact Hnil.
  - assert (forall out : jsstring,
               out = replace_from TAG_RE [] 0 s ->
               (c = 0x3C%N -> In 0x3E%N s -> False) ->
               ~ holds_tag (c :: out)) as Hkeep.
    { intros out -> Hno [[-> Hin]|Hin]%holds_tag_cons.
      - apply Hno; [reflexivity|]. eapply replace_from_In, Hin.
      - now apply (IH 0). }
    destruct skip; simpl; [|apply IH].
    destruct (match_here TAG_RE (c :: s)) as [m|] eqn:Hm; simpl.
    + destruct (length (matched m)) eqn:Hlen; [|apply IH].
      apply Hkeep; [reflexivity|]. intros -> Hin.
      destruct (first_gt s Hin) as (t & rest & -> & Ht).
      destruct (match_here_TAG_hit t rest Ht) as (m' & Hm' & Hlen').
      rewrite Hm in Hm'. injection Hm' as <-. lia.
    + apply Hkeep; [reflexivity|]. intros -> Hin.
      destruct (first_gt s Hin) as (t & rest & -> & Ht).
      destruct (match_here_TAG_hit t rest Ht) as (m' & Hm' & _).
      rewrite Hm in Hm'. discriminate.
Qed.

(** No heading returned holds a tag: a less-than sign that is left has no
    greater-than sign after it. *)
Theorem extractHeadings_no_tag (html : jsstring) :
  Forall (fun h => ~ holds_tag h) (extractHeadings html).
Proof.
  unfold extractHeadings. apply List.Forall_map.
  apply List.Forall_forall. intros h _. apply replace_from_TAG.
Qed.

(** ** More on score, issues and recommendations *)

Lemma push_if1 {A : Type} (c1 : bool) (l : list A) (a1 : A) :
  (if c1 then l ++ [a1] else l) = l ++ (if c1 then [a1] else []).
Proof. destruct c1; [reflexivity|now rewrite app_nil_r]. Qed.

Lemma push_if2 {A : Type} (c1 c2 : bool) (l : list A) (a1 a2 : A) :
  (if c1 then l ++ [a1] else if c2 then l ++ [a2] else l)
  = l ++ (if c1 then [a1] else if c2 then [a2] else []).
Proof. destruct c1, c2; try reflexivity; now rewrite app_nil_r. Qed.

Lemma push_if3 {A : Type} (c1 c2 c3 : bool) (l : list A) (a1 a2 a3 : A) :
  (if c1 then l ++ [a1] else if c2 then l ++ [a2]
   else if c3 then l ++ [a3] else l)
  = l ++ (if c1 then [a1] else if c2 then [a2] else if c3 then [a3] else []).
Proof. destruct c1, c2, c3; try reflexivity; now rewrite app_nil_r. Qed.

(** The issues come block by block, in the order title, description,
    headings, images, links. *)
Lemma findSeoIssues_shape (pd : PageData) :
  findSeoIssues pd
  = title_issues pd ++ meta_issues pd ++ heading_issues pd
    ++ image_issues pd ++ link_issues pd.
Proof.
  unfold findSeoIssues. cbv zeta.
  rewrite push_if1, push_if2, push_if2, push_if3, push_if3.
  fold (title_issues pd) (meta_issues pd) (heading_issues pd)
    (image_issues pd) (link_issues pd).
  now rewrite <- !app_assoc.
Qed.

(** ** The score and the issues, branch by branch *)

Lemma points_taken_app (a b : list Branch) :
  points_taken (a ++ b) = (points_taken a + points_taken b)%Z.
Proof.
  unfold points_taken. rewrite List.filter_app, map_app.
  induction (map points (List.filter taken a)) as [|x l IH]; simpl; lia.
Qed.

Lemma issues_taken_app (a b : list Branch) :
  issues_taken (a ++ b) = issues_taken a ++ issues_taken b.
Proof. unfold issues_taken. now rewrite List.filter_app, map_app. Qed.

Ltac ltb_cases :=
  repeat match goal with
         | |- context [?a <? ?b] =>
             let E := fresh "E" in
             destruct (Nat.ltb_spec a b) as [E|E]
         | |- context [?a =? ?b] =>
             let E := fresh "E" in
             destruct (Nat.eqb_spec a b) as [E|E]
         end.

Lemma title_branches (pd : PageData) :
  points_taken (take 3 (penalty_branches pd)) = title_penalty pd
  /\ issues_taken (take 3 (penalty_branches pd))
     = List.filter penalising (title_issues pd)
  /\ (title_penalty pd = 0%Z ->
      title_issues pd = [] /\ List.filter taken (take 3 (penalty_branches pd)) = []).
Proof.
  unfold penalty_branches, title_penalty, title_issues, title_present,
    points_taken, issues_taken.
  cbn [take List.filter map fold_right taken points issue].
  destruct (str_falsy (title pd) || str_eqb (title pd) NO_TITLE);
    cbn [negb andb]; [split; [|split]; [reflexivity..|discriminate]|].
  ltb_cases; try lia; (split; [|split]; [reflexivity..|]);
    intros H0; try discriminate H0; split; reflexivity.
Qed.

Lemma meta_branches (pd : PageData) :
  points_taken (take 3 (drop 3 (penalty_branches pd))) = meta_penalty pd
  /\ issues_taken (take 3 (drop 3 (penalty_branches pd)))
     = List.filter penalising (meta_issues pd)
  /\ (meta_penalty pd = 0%Z ->
      meta_issues pd = []
      /\ List.filter taken (take 3 (drop 3 (penalty_branches pd))) = []).
Proof.
  unfold penalty_branches, meta_penalty, meta_issues, meta_present,
    points_taken, issues_taken.
  cbn [take drop List.filter map fold_right taken points issue].
  destruct (str_falsy (metaDescription pd) || str_eqb (metaDescription pd) NO_META);
    cbn [negb andb]; [split; [|split]; [reflexivity..|discriminate]|].
  ltb_cases; try lia; (split; [|split]; [reflexivity..|]);
    intros H0; try discriminate H0; split; reflexivity.
Qed.

Lemma other_branches (pd : PageData) :
  points_taken (drop 6 (penalty_branches pd))
  = (headings_penalty pd + images_penalty pd + links_penalty pd)%Z
  /\ issues_taken (drop 6 (penalty_branches pd))
     = List.filter penalising
         (heading_issues pd ++ image_issues pd ++ link_issues pd)
  /\ ((headings_penalty pd + images_penalty pd + links_penalty pd = 0)%Z ->
      (heading_issues pd ++ image_issues pd ++ link_issues pd = []
       \/ heading_issues pd ++ image_issues pd ++ link_issues pd
          = [ISSUE_NO_IMAGES])
      /\ List.filter taken (drop 6 (penalty_branches pd)) = []).
Proof.
  unfold penalty_branches, headings_penalty, images_penalty, links_penalty,
    heading_issues, image_issues, link_issues, points_taken, issues_taken.
  cbn [take drop List.filter map fold_right taken points issue].
  ltb_cases; try lia; (split; [|split]; [reflexivity..|]);
    intros H0; try discriminate H0; split; auto.
Qed.

Lemma penalty_branches_split (pd : PageData) :
  penalty_branches pd
  = take 3 (penalty_branches pd)
    ++ take 3 (drop 3 (penalty_branches pd)) ++ drop 6 (penalty_branches pd).
Proof. reflexivity. Qed.

(** The branches account for the score and for the issues. *)
Lemma penalty_branches_mirror (pd : PageData) :
  calculateSeoScore pd = (100 - points_taken (penalty_branches pd))%Z
  /\ List.filter penalising (findSeoIssues pd)
     = issues_taken (penalty_branches pd).
Proof.
  rewrite (penalty_branches_split pd), !points_taken_app, !issues_taken_app.
  destruct (title_branches pd) as (-> & -> & _).
  destruct (meta_branches pd) as (-> & -> & _).
  destruct (other_branches pd) as (-> & -> & _).
  rewrite calculateSeoScore_penalties, findSeoIssues_shape, !List.filter_app.
  split; [lia|reflexivity].
Qed.

(** An issue that carries no penalty is the informational one, pushed for a
    page without images. *)
Lemma unpenalised_issue (pd : PageData) (i : jsstring) :
  In i (findSeoIssues pd) -> penalising i = false ->
  i = ISSUE_NO_IMAGES /\ length (images pd) = 0.
Proof.
  rewrite findSeoIssues_shape, !in_app_iff.
  unfold title_issues, meta_issues, heading_issues, image_issues, link_issues.
  intros [Hin|[Hin|[Hin|[Hin|Hin]]]] Hpen; revert Hin.
  - repeat case_if; simpl; intros Hin; intuition (subst; discriminate).
  - repeat case_if; simpl; intros Hin; intuition (subst; discriminate).
  - repeat case_if; simpl; intros Hin; intuition (subst; discriminate).
  - destruct (Nat.eqb_spec (length (images pd)) 0) as [E|E].
    + intros [<-|[]]. auto.
    + case_if; simpl; intros Hin; intuition (subst; discriminate).
  - repeat case_if; simpl; intros Hin; intuition (subst; discriminate).
Qed.

Lemma forallb_negb_filter {A : Type} (p : A -> bool) (l : list A) :
  forallb (fun x => negb (p x)) l = true <-> List.filter p l = [].
Proof.
  induction l as [|x l IH]; simpl; [tauto|].
  destruct (p x); simpl; [split; discriminate|exact IH].
Qed.

Lemma points_taken_nonneg (branches : list Branch) :
  Forall (fun b => (0 < points b)%Z) branches ->
  (0 <= points_taken branches)%Z
  /\ (points_taken branches = 0%Z <-> List.filter taken branches = []).
Proof.
  unfold points_taken.
  induction 1 as [|b bs Hb _ [IHpos IHzero]]; simpl; [split; [lia|tauto]|].
  destruct (taken b); simpl; [|split; assumption].
  split; [lia|]. split; [lia|discriminate].
Qed.

Lemma penalty_branches_points (pd : PageData) :
  Forall (fun b => (0 < points b)%Z) (penalty_branches pd).
Proof. unfold penalty_branches. repeat constructor. Qed.

(** A score of 100: no branch is taken, and no issue is left but the
    informational one. *)
Lemma perfect_score (pd : PageData) :
  calculateSeoScore pd = 100%Z ->
  List.filter taken (penalty_branches pd) = []
  /\ (findSeoIssues pd = [] \/ findSeoIssues pd = [ISSUE_NO_IMAGES]).
Proof.
  intros Hscore. rewrite calculateSeoScore_penalties in Hscore.
  pose proof (title_penalty_cases pd). pose proof (meta_penalty_cases pd).
  pose proof (headings_penalty_cases pd). pose proof (images_penalty_cases pd).
  pose proof (links_penalty_cases pd).
  destruct (title_branches pd) as (_ & _ & Ht).
  destruct (meta_branches pd) as (_ & _ & Hm).
  destruct (other_branches pd) as (_ & _ & Ho).
  destruct Ht as [Ht1 Ht2]; [lia|]. destruct Hm as [Hm1 Hm2]; [lia|].
  destruct Ho as [Ho1 Ho2]; [lia|].
  split.
  - rewrite (penalty_branches_split pd), !List.filter_app, Ht2, Hm2, Ho2.
    reflexivity.
  - rewrite findSeoIssues_shape, Ht1, Hm1. exact Ho1.
Qed.

(** As many branches are taken as penalties are not zero. *)
Lemma branches_counted_title (pd : PageData) :
  length (List.filter taken (take 3 (penalty_branches pd)))
  = length (List.filter (fun p => negb (p =? 0)%Z) [title_penalty pd]).
Proof.
  unfold penalty_branches, title_penalty, title_present.
  cbn [take List.filter taken].
  destruct (str_falsy (title pd) || str_eqb (title pd) NO_TITLE);
    cbn [negb andb]; [reflexivity|].
  ltb_cases; try lia; reflexivity.
Qed.

Lemma branches_counted_meta (pd : PageData) :
  length (List.filter taken (take 3 (drop 3 (penalty_branches pd))))
  = length (List.filter (fun p => negb (p =? 0)%Z) [meta_penalty pd]).
Proof.
  unfold penalty_branches, meta_penalty, meta_present.
  cbn [take drop List.filter taken].
  destruct (str_falsy (metaDescription pd) || str_eqb (metaDescription pd) NO_META);
    cbn [negb andb]; [reflexivity|].
  ltb_cases; try lia; reflexivity.
Qed.

Lemma branches_counted_other (pd : PageData) :
  length (List.filter taken (drop 6 (penalty_branches pd)))
  = length (List.filter (fun p => negb (p =? 0)%Z)
              [headings_penalty pd; images_penalty pd; links_penalty pd]).
Proof.
  unfold penalty_branches, headings_penalty, images_penalty, links_penalty.
  cbn [take drop List.filter taken].
  ltb_cases; try lia; reflexivity.
Qed.

(** C10: the score is 100 exactly when no issue is critical or a warning,
    that is when the issue list is empty or is the single informational
    no-images issue; the number of critical and warning issues is the number
    of penalty branches taken; the score is never under 25, so the clamp at 0
    never acts.  Branch by branch: the score is 100 less the points of the
    penalty branches whose condition holds, and the critical and warning
    issues are, in order and one for one, the issues of exactly those
    branches; the only other issue is the informational one of a page
    without images. *)
Theorem C10_score_mirrors_issues (pd : PageData) :
  (calculateSeoScore pd = 100%Z
   <-> forallb (fun i => negb (penalising i)) (findSeoIssues pd) = true)
  /\ (calculateSeoScore pd = 100%Z
      <-> findSeoIssues pd = [] \/ findSeoIssues pd = [ISSUE_NO_IMAGES])
  /\ length (List.filter penalising (findSeoIssues pd))
     = penalty_branches_taken pd
  /\ (25 <= calculateSeoScore pd <= 100)%Z
  /\ (100 - title_penalty pd - meta_penalty pd - headings_penalty pd
      - images_penalty pd - links_penalty pd
      = Z.max 0 (Z.min 100
                   (100 - title_penalty pd - meta_penalty pd
                    - headings_penalty pd - images_penalty pd
                    - links_penalty pd)))%Z
  /\ calculateSeoScore pd = (100 - points_taken (penalty_branches pd))%Z
  /\ List.filter penalising (findSeoIssues pd)
     = issues_taken (penalty_branches pd)
  /\ (forall i : jsstring,
         In i (findSeoIssues pd) -> penalising i = false ->
         i = ISSUE_NO_IMAGES /\ length (images pd) = 0).
Proof.
  destruct (penalty_branches_mirror pd) as [Hscore Hissues].
  pose proof (points_taken_nonneg _ (penalty_branches_points pd)) as [_ Hzero].
  assert (calculateSeoScore pd = 100%Z
          <-> List.filter penalising (findSeoIssues pd) = []) as Hperfect.
  { rewrite Hissues. unfold issues_taken. split.
    - intros H100. now rewrite (proj1 (perfect_score pd H100)).
    - intros Hnil. apply map_eq_nil in Hnil. apply Hzero in Hnil. lia. }
  split; [|split; [|split; [|split; [|split; [|split; [|split]]]]]].
  - now rewrite forallb_negb_filter.
  - split; [apply perfect_score|].
    intros [Hnil|Hinfo]; apply Hperfect; [now rewrite Hnil|now rewrite Hinfo].
  - rewrite Hissues. unfold issues_taken. rewrite length_map.
    rewrite (penalty_branches_split pd), !List.filter_app, !length_app.
    unfold penalty_branches_taken, penalties.
    change [title_penalty pd; meta_penalty pd; headings_penalty pd;
            images_penalty pd; links_penalty pd]
      with ([title_penalty pd] ++ [meta_penalty pd]
            ++ [headings_penalty pd; images_penalty pd; links_penalty pd]).
    rewrite !List.filter_app, !length_app.
    rewrite (branches_counted_title pd), (branches_counted_meta pd),
      (branches_counted_other pd). reflexivity.
  - apply calculateSeoScore_range.
  - pose proof (calculateSeoScore_range pd) as H.
    rewrite calculateSeoScore_penalties in H. lia.
  - exact Hscore.
  - exact Hissues.
  - apply unpenalised_issue.
Qed.

Ltac block_cases :=
  unfold block_ok; repeat case_if; cbn;
  (split; [lia|split; [lia|]]);
  repeat (apply List.Forall_cons; [discriminate|]); apply List.Forall_nil.

Lemma title_block (pd : PageData) : block_ok (title_issues pd) (title_penalty pd).
Proof. unfold title_issues, title_penalty. block_cases. Qed.

Lemma meta_block (pd : PageData) : block_ok (meta_issues pd) (meta_penalty pd).
Proof. unfold meta_issues, meta_penalty. block_cases. Qed.

Lemma heading_block (pd : PageData) :
  block_ok (heading_issues pd) (headings_penalty pd).
Proof. unfold heading_issues, headings_penalty. block_cases. Qed.

Lemma image_block (pd : PageData) :
  block_ok (image_issues pd) (images_penalty pd).
Proof.
  unfold image_issues, images_penalty, block_ok.
  destruct (length (images pd) =? 0) eqn:Hi0.
  - apply Nat.eqb_eq in Hi0. rewrite Hi0. cbn.
    split; [lia|split; [lia|]]. repeat constructor. discriminate.
  - block_cases.
Qed.

Lemma link_block (pd : PageData) : block_ok (link_issues pd) (links_penalty pd).
Proof. unfold link_issues, links_penalty. block_cases. Qed.

(** The score lies between what the issue counts allow: a critical issue
    costs 15 to 20 points, a warning 5 to 10, the informational issue nothing.
    There are at most five issues and each opens with a severity mark. *)
Theorem score_between_issue_counts (pd : PageData) :
  let critical := Z.of_nat (length (List.filter is_critical (findSeoIssues pd))) in
  let warnings := Z.of_nat (length (List.filter is_warning (findSeoIssues pd))) in
  (100 - 20 * critical - 10 * warnings <= calculateSeoScore pd
   <= 100 - 15 * critical - 5 * warnings)%Z
  /\ length (findSeoIssues pd) <= 5
  /\ Forall (fun i => severity i <> Unmarked) (findSeoIssues pd).
Proof.
  cbv zeta. rewrite calculateSeoScore_penalties, findSeoIssues_shape.
  destruct (title_block pd) as (Ht & Htl & Htm).
  destruct (meta_block pd) as (Hm & Hml & Hmm).
  destruct (heading_block pd) as (Hh & Hhl & Hhm).
  destruct (image_block pd) as (Hi & Hil & Him).
  destruct (link_block pd) as (Hl & Hll & Hlm).
  cbv zeta in *.
  rewrite !List.filter_app, !length_app, !Nat2Z.inj_add.
  split; [lia|split; [lia|]].
  repeat (apply List.Forall_app; split); assumption.
Qed.

(** The issues are reported block by block in the order title, description,
    headings, images, links, at most one per block; a block is empty exactly
    when its feature is in range (for images: between 1 and 20 of them). *)
Theorem findSeoIssues_in_order (pd : PageData) :
  findSeoIssues pd
  = title_issues pd ++ meta_issues pd ++ heading_issues pd
    ++ image_issues pd ++ link_issues pd
  /\ length (title_issues pd) <= 1 /\ length (meta_issues pd) <= 1
  /\ length (heading_issues pd) <= 1 /\ length (image_issues pd) <= 1
  /\ length (link_issues pd) <= 1
  /\ (title_issues pd = [] <-> title_penalty pd = 0%Z)
  /\ (meta_issues pd = [] <-> meta_penalty pd = 0%Z)
  /\ (heading_issues pd = [] <-> 3 <= length (headings pd))
  /\ (image_issues pd = [] <-> 1 <= length (images pd) <= 20)
  /\ (link_issues pd = [] <-> 3 <= length (links pd)).
Proof.
  split; [apply findSeoIssues_shape|].
  split; [apply title_block|]. split; [apply meta_block|].
  split; [apply heading_block|]. split; [apply image_block|].
  split; [apply link_block|].
  unfold title_issues, title_penalty, meta_issues, meta_penalty,
    heading_issues, image_issues, link_issues.
  split; [|split; [|split; [|split]]]; repeat case_if;
    repeat match goal with
           | H : (_ <? _) = true |- _ => apply Nat.ltb_lt in H
           | H : (_ <? _) = false |- _ => apply Nat.ltb_ge in H
           | H : (_ =? _) = true |- _ => apply Nat.eqb_eq in H
           | H : (_ =? _) = false |- _ => apply Nat.eqb_neq in H
           end;
    (split; intros Hside; try discriminate Hside; try reflexivity; try lia).
Qed.

Lemma length_if_singleton {A : Type} (c : bool) (a : A) :
  length (if c then [a] else []) = if c then 1 else 0.
Proof. now destruct c. Qed.

(** High recommendations against critical issues: every critical issue has
    its High recommendation, and the only High recommendation without a
    critical issue is the title one, given for a present title shorter than
    50 units. *)
Theorem high_recommendations_match_critical_issues (pd : PageData) :
  length (List.filter is_high (generateRecommendations pd))
  = length (List.filter is_critical (findSeoIssues pd))
    + (if title_present pd && (length (title pd) <? 50) then 1 else 0).
Proof.
  rewrite generateRecommendations_shape, findSeoIssues_shape.
  rewrite !List.filter_app, !length_app.
  change (List.filter is_high UNIVERSAL) with (@nil Recommendation).
  assert (List.filter is_critical (image_issues pd) = []) as ->.
  { unfold image_issues. repeat case_if; reflexivity. }
  assert (List.filter is_critical (link_issues pd) = []) as ->.
  { unfold link_issues. repeat case_if; reflexivity. }
  unfold conditional. rewrite !List.filter_app, !length_app.
  assert (length (List.filter is_high
                    (if str_falsy (title pd) || str_eqb (title pd) NO_TITLE
                        || (length (title pd) <? 50)
                     then [REC_TITLE] else []))
          = length (List.filter is_critical (title_issues pd))
            + (if title_present pd && (length (title pd) <? 50) then 1 else 0))
    as ->.
  { unfold title_issues, title_present.
    destruct (str_falsy (title pd) || str_eqb (title pd) NO_TITLE);
      [reflexivity|].
    destruct (length (title pd) <? 30) eqn:H30;
      [|destruct (60 <? length (title pd)) eqn:H60];
      destruct (length (title pd) <? 50) eqn:H50; try reflexivity;
      apply Nat.ltb_lt in H30 || apply Nat.ltb_ge in H30;
      try (apply Nat.ltb_lt in H60); apply Nat.ltb_lt in H50 || apply Nat.ltb_ge in H50;
      lia. }
  assert (length (List.filter is_high
                    (if str_falsy (metaDescription pd)
                        || str_eqb (metaDescription pd) NO_META
                     then [REC_META] else []))
          = length (List.filter is_critical (meta_issues pd))) as ->.
  { unfold meta_issues. repeat case_if; reflexivity. }
  assert (length (List.filter is_high
                    (if length (headings pd) =? 0 then [REC_HEADINGS] else []))
          = length (List.filter is_critical (heading_issues pd))) as ->.
  { unfold heading_issues. repeat case_if; reflexivity. }
  simpl. lia.
Qed.

(** A title element that is empty, or whose text is the sentinel itself, is
    handled as a missing title: 20 points off, the missing-title issue first
    among the issues, the title recommendation first among the
    recommendations. *)
Theorem empty_or_sentinel_title_counts_as_missing (html content : jsstring) :
  spec_first_title html = Some content ->
  content = [] \/ content = NO_TITLE ->
  extractTitle html = content
  /\ title_penalty (extractPageData html) = 20%Z
  /\ head (findSeoIssues (extractPageData html)) = Some ISSUE_NO_TITLE
  /\ head (generateRecommendations (extractPageData html)) = Some REC_TITLE.
Proof.
  intros Hspec Hcontent.
  assert (extractTitle html = content) as Htitle.
  { rewrite extractTitle_spec.
    - unfold spec_extractTitle. now rewrite Hspec.
    - intros c Hc. rewrite Hspec in Hc. injection Hc as <-.
      destruct Hcontent as [->| ->]; reflexivity. }
  assert (str_falsy (title (extractPageData html))
          || str_eqb (title (extractPageData html)) NO_TITLE = true) as Hmissing.
  { simpl title. rewrite Htitle. destruct Hcontent as [->| ->]; reflexivity. }
  split; [exact Htitle|]. split; [|split].
  - unfold title_penalty. now rewrite Hmissing.
  - rewrite findSeoIssues_shape. unfold title_issues. now rewrite Hmissing.
  - rewrite generateRecommendations_shape. unfold conditional.
    now rewrite Hmissing.
Qed.

(** At a page whose title element reads as the sentinel. *)
Lemma empty_or_sentinel_title_counts_as_missing_witness :
  extractTitle (js "<title>No title found</title>") = NO_TITLE
  /\ title_penalty (extractPageData (js "<title>No title found</title>")) = 20%Z.
Proof.
  pose proof (empty_or_sentinel_title_counts_as_missing
                (js "<title>No title found</title>") NO_TITLE eq_refl
                (or_intror eq_refl)) as H.
  split; apply H.
Defined.

(** ** More on the routes *)

(** Every run of [analyzeSeoMultiStep]: on success the five calls it made
    and what it returned and cached; on failure the cache is as it was and
    the calls stop at the one that failed. *)
Lemma analyzeSeoMultiStep_run (w : World) (url : option json)
    (cache cache' : gmap jsstring jsstring) (o : outcome AnalysisResult)
    (calls : list call) :
  run w (analyzeSeoMultiStep url) cache = (o, cache', calls) ->
  match o with
  | Returned r =>
      exists (page : jsstring) (embedding : list (list float))
             (matches : list VectorizeMatch),
        r = mkAnalysisResult (extractPageData page)
              (mkAnalysis (calculateSeoScore (extractPageData page))
                 (findSeoIssues (extractPageData page))
                 (generateRecommendations (extractPageData page))
                 (take 500 (rag_context matches)))
        /\ cache' = <[js "analysis:" ++ ToString url
                      := JSON_stringify (AnalysisResult_json r)]> cache
        /\ calls
           = [Called (Fetch url);
              Called (AiEmbed
                        (Some (JStr (js "SEO analysis for: "
                                     ++ title (pageData r) ++ js ". Meta: "
                                     ++ metaDescription (pageData r)))));
              Called (VectorizeQuery (head embedding) 10);
              Called (DbInsertAnalysis url
                        (JSON_stringify (PageData_json (pageData r)))
                        (score (analysis r))
                        (JSON_stringify
                           (recommendations_json (recommendations (analysis r)))));
              Called (CachePut (js "analysis:" ++ ToString url)
                        (JSON_stringify (AnalysisResult_json r)) 3600)]
  | Thrown _ =>
      cache' = cache
      /\ exists n : nat,
           n < 5
           /\ operations calls
              = take (S n) [PageFetch; Embed; VectorQuery; AnalysisInsert;
                            CacheWrite]
  end.
Proof.
  unfold analyzeSeoMultiStep. rewrite run_await. simpl step.
  destruct (answer w _ (Fetch url)) as [page|e];
    [|intros [= <- <- <-]; split; [reflexivity|exists 0; split; [lia|reflexivity]]].
  rewrite run_await. simpl step.
  destruct (answer w _ (AiEmbed _)) as [embedding|e];
    [|intros [= <- <- <-]; split; [reflexivity|exists 1; split; [lia|reflexivity]]].
  rewrite run_await. simpl step.
  destruct (answer w _ (VectorizeQuery _ _)) as [matches|e];
    [|intros [= <- <- <-]; split; [reflexivity|exists 2; split; [lia|reflexivity]]].
  rewrite run_await. simpl step.
  destruct (answer w _ (DbInsertAnalysis _ _ _ _)) as [[]|e];
    [|intros [= <- <- <-]; split; [reflexivity|exists 3; split; [lia|reflexivity]]].
  rewrite run_await. simpl step.
  destruct (cache_put_fault w _) as [e|];
    [intros [= <- <- <-]; split; [reflexivity|exists 4; split; [lia|reflexivity]]|].
  simpl. intros [= <- <- <-]. exists page, embedding, matches. repeat split.
Qed.

(** Every run of the analyze route, case by case. *)
Lemma analyze_run (w : World) (req : json) (cache cache' : gmap jsstring jsstring)
    (resp : Response) (calls : list call) :
  analyze w req cache = (resp, cache', calls) ->
  (req = JNull /\ resp = on_error (Some (engine_message w (TYPE_ERROR (js "url"))))
   /\ cache' = cache /\ calls = [])
  \/ (req <> JNull /\ truthy (url_of req) = false
      /\ resp = mkResponse 400 (JObj [(js "error", JStr (js "URL is required"))])
      /\ cache' = cache /\ calls = [])
  \/ (req <> JNull /\ truthy (url_of req) = true
      /\ ((exists e : thrown,
              cache_get_fault w (cache_key req) = Some e
              /\ resp = on_error e /\ cache' = cache
              /\ calls = [Called (CacheGet (cache_key req))])
          \/ (cache_get_fault w (cache_key req) = None
              /\ exists (c : N) (text : jsstring),
                   cache !! cache_key req = Some (c :: text)
                   /\ cache' = cache
                   /\ calls = [Called (CacheGet (cache_key req))]
                   /\ match JSON_parse (c :: text) with
                      | Some data =>
                          resp = mkResponse 200
                                   (JObj [(js "cached", JBool true);
                                          (js "data", data);
                                          (js "message",
                                           JStr (js "Retrieved from cache"))])
                      | None =>
                          resp = on_error
                                   (Some (engine_message w
                                            (SYNTAX_ERROR (c :: text))))
                      end)
          \/ (cache_get_fault w (cache_key req) = None
              /\ (cache !! cache_key req = None
                  \/ cache !! cache_key req = Some [])
              /\ exists (o : outcome AnalysisResult) (calls' : list call),
                   run w (analyzeSeoMultiStep (url_of req)) cache
                   = (o, cache', calls')
                   /\ calls = Called (CacheGet (cache_key req)) :: calls'
                   /\ resp = match o with
                             | Returned r => fresh_response r
                             | Thrown e => on_error e
                             end))).
Proof.
  intros Hrun.
  assert (req = JNull \/ req <> JNull) as [->|Hreq]
    by (destruct req; (now left) || (right; discriminate)).
  { left. unfold analyze, serve in Hrun. simpl in Hrun.
    injection Hrun as <- <- <-. auto. }
  right. destruct (truthy (url_of req)) eqn:Hurl.
  2: { left. unfold url_of in Hurl.
       rewrite (analyze_missing_url w req cache Hreq Hurl) in Hrun.
       injection Hrun as <- <- <-. auto. }
  right. split; [exact Hreq|]. split; [reflexivity|].
  unfold analyze, serve in Hrun. unfold url_of in Hurl.
  rewrite (analyze_try_not_null req Hreq Hurl) in Hrun. cbv zeta in Hrun.
  rewrite run_await in Hrun. cbn [step] in Hrun.
  fold (url_of req) in Hrun. fold (cache_key req) in Hrun.
  destruct (cache_get_fault w (cache_key req)) as [e|].
  { left. exists e. injection Hrun as <- <- <-. auto. }
  right. destruct (cache !! cache_key req) as [[|c text]|] eqn:Hlookup.
  2: { left. split; [reflexivity|]. exists c, text.
       destruct (JSON_parse (c :: text)) as [data|];
         injection Hrun as <- <- <-; auto. }
  all: right; split; [reflexivity|]; split; [auto|].
  all: rewrite run_bind in Hrun.
  all: destruct (run w (analyzeSeoMultiStep (url_of req)) cache)
         as [[[r|e] c] calls'] eqn:Hstep.
  all: simpl in Hrun; injection Hrun as <- <- <-.
  all: eexists _, _; split; [reflexivity|].
  all: rewrite ?app_nil_r; split; reflexivity.
Qed.

(** The analyze route answers 400 exactly when the body is an object whose
    url is falsy (absent, null, empty, zero, false); a null body is answered
    500; there is no other status than 200, 400 and 500. *)
Theorem analyze_rejects_exactly_falsy_url (w : World) (req : json)
    (cache : gmap jsstring jsstring) :
  (status (fst (fst (analyze w req cache))) = 400
   <-> req <> JNull /\ truthy (url_of req) = false)
  /\ (req = JNull -> status (fst (fst (analyze w req cache))) = 500)
  /\ (status (fst (fst (analyze w req cache))) = 200
      \/ status (fst (fst (analyze w req cache))) = 400
      \/ status (fst (fst (analyze w req cache))) = 500).
Proof.
  destruct (analyze w req cache) as [[resp cache'] calls] eqn:Hrun.
  apply analyze_run in Hrun. cbn [fst].
  destruct Hrun as [(-> & -> & _)|[(Hreq & Hurl & -> & _)|(Hreq & Hurl & Hrun)]].
  - split; [split|split]; auto; try discriminate.
    intros [Hnull _]. congruence.
  - split; [split|split]; auto. congruence.
  - assert (status resp = 200 \/ status resp = 500) as Hstatus.
    { destruct Hrun as [(e & _ & -> & _)|[(_ & c & text & _ & _ & _ & Hresp)
                                         |(_ & _ & o & calls' & _ & _ & ->)]].
      - now right.
      - destruct (JSON_parse (c :: text)); subst resp; auto.
      - destruct o; auto. }
    split; [split|split].
    + intros H400. destruct Hstatus; congruence.
    + intros [_ Hfalsy]. congruence.
    + congruence.
    + tauto.
Qed.

(** The analyze route writes the cache only together with a fresh result:
    either the cache is left as it was, or the response is a fresh analysis
    and the one entry written, under the url's key, is its serialization. *)
Theorem analyze_caches_only_fresh_results (w : World) (req : json)
    (cache cache' : gmap jsstring jsstring) (resp : Response)
    (calls : list call) :
  analyze w req cache = (resp, cache', calls) ->
  cache' = cache
  \/ exists r : AnalysisResult,
       resp = fresh_response r
       /\ cache' = <[cache_key req := JSON_stringify (AnalysisResult_json r)]> cache
       /\ forall key : jsstring,
            key <> cache_key req -> cache' !! key = cache !! key.
Proof.
  intros Hrun. apply analyze_run in Hrun.
  destruct Hrun as [(_ & _ & -> & _)|[(_ & _ & _ & -> & _)|(_ & _ & Hrun)]];
    auto.
  destruct Hrun as [(e & _ & _ & -> & _)|[(_ & c & text & _ & -> & _)
                                          |(_ & _ & o & calls' & Hstep & _ & ->)]];
    auto.
  apply analyzeSeoMultiStep_run in Hstep. destruct o as [r|e].
  - destruct Hstep as (page & embedding & matches & _ & -> & _).
    right. exists r. split; [reflexivity|]. split; [reflexivity|].
    intros key Hkey. now apply lookup_insert_ne.
  - left. apply Hstep.
Qed.

(** In the world whose fetch fails the cache stays empty. *)
Lemma analyze_caches_only_fresh_results_witness :
  snd (fst (analyze unreachable_world analyze_request ∅)) = ∅.
Proof.
  assert (analyze unreachable_world analyze_request ∅
          = (fst (fst (analyze unreachable_world analyze_request ∅)),
             snd (fst (analyze unreachable_world analyze_request ∅)),
             snd (analyze unreachable_world analyze_request ∅))) as Hrun
    by reflexivity.
  destruct (analyze_caches_only_fresh_results _ _ _ _ _ _ Hrun)
    as [H|(r & H & _)].
  - exact H.
  - discriminate H.
Defined.

Lemma take_ANALYZE_OPERATIONS (n : nat) :
  CacheRead
  :: take n [PageFetch; Embed; VectorQuery; AnalysisInsert; CacheWrite]
  = take (S n) ANALYZE_OPERATIONS.
Proof. reflexivity. Qed.

(** The calls of the analyze route always follow one order: cache read,
    page fetch, embedding, vector query, insert of the analysis, cache
    write; a run stops somewhere along it.  A fresh result has made exactly
    these six calls, the insert before the cache write, each with the
    arguments of the result; a cached result has made the cache read and
    nothing else. *)
Theorem analyze_call_order (w : World) (req : json)
    (cache cache' : gmap jsstring jsstring) (resp : Response)
    (calls : list call) :
  analyze w req cache = (resp, cache', calls) ->
  (exists n : nat, operations calls = take n ANALYZE_OPERATIONS)
  /\ (opt_get (Some (body resp)) (js "cached") = Some (JBool false) ->
      exists (r : AnalysisResult) (embedding : list (list float)),
        resp = fresh_response r
        /\ calls
           = [Called (CacheGet (cache_key req));
              Called (Fetch (url_of req));
              Called (AiEmbed
                        (Some (JStr (js "SEO analysis for: "
                                     ++ title (pageData r) ++ js ". Meta: "
                                     ++ metaDescription (pageData r)))));
              Called (VectorizeQuery (head embedding) 10);
              Called (DbInsertAnalysis (url_of req)
                        (JSON_stringify (PageData_json (pageData r)))
                        (score (analysis r))
                        (JSON_stringify
                           (recommendations_json (recommendations (analysis r)))));
              Called (CachePut (cache_key req)
                        (JSON_stringify (AnalysisResult_json r)) 3600)])
  /\ (opt_get (Some (body resp)) (js "cached") = Some (JBool true) ->
      calls = [Called (CacheGet (cache_key req))]).
Proof.
  intros Hrun. apply analyze_run in Hrun.
  destruct Hrun as [(_ & -> & _ & ->)|[(_ & _ & -> & _ & ->)|(_ & _ & Hrun)]].
  - split; [now exists 0|]. split; discriminate.
  - split; [now exists 0|]. split; discriminate.
  - destruct Hrun as [(e & _ & -> & _ & ->)|[(_ & c & text & _ & _ & -> & Hresp)
                                             |(_ & _ & o & calls' & Hstep & -> & ->)]].
    + split; [now exists 1|]. split; discriminate.
    + split; [now exists 1|].
      destruct (JSON_parse (c :: text)); subst resp; split;
        try discriminate; reflexivity.
    + apply analyzeSeoMultiStep_run in Hstep. destruct o as [r|e].
      * destruct Hstep as (page & embedding & matches & _ & _ & ->).
        split; [now exists 6|]. split; [|discriminate].
        intros _. exists r, embedding. split; reflexivity.
      * destruct Hstep as (_ & n & Hn & Hcalls).
        split; [|split; discriminate].
        exists (S (S n)). cbn [operations map] in *.
        fold (operations calls'). rewrite Hcalls. reflexivity.
Qed.

(** In the sample world a first request makes all six calls. *)
Lemma analyze_call_order_witness :
  operations (snd (analyze (sample_world short_page) analyze_request ∅))
  = ANALYZE_OPERATIONS.
Proof.
  assert (analyze (sample_world short_page) analyze_request ∅
          = (fst (fst (analyze (sample_world short_page) analyze_request ∅)),
             snd (fst (analyze (sample_world short_page) analyze_request ∅)),
             snd (analyze (sample_world short_page) analyze_request ∅))) as Hrun
    by reflexivity.
  destruct (analyze_call_order _ _ _ _ _ _ Hrun) as (_ & Hfresh & _).
  destruct (Hfresh eq_refl) as (r & embedding & _ & Hcalls).
  rewrite Hcalls. reflexivity.
Defined.

Lemma distinct_keys_pageData (pd : PageData) : distinct_keys (PageData_json pd).
Proof.
  apply distinct_keys_object. split; [keys_distinct|].
  members_distinct ltac:(apply distinct_keys_strings).
Qed.

(** What a fresh analysis hands to the durable store is what it answers:
    the row carries the url, the score of the response, and serializations
    that read back as the page features and the recommendations of the
    response. *)
Theorem analyze_persists_what_it_returns (w : World) (req : json)
    (cache cache' : gmap jsstring jsstring) (resp : Response)
    (calls : list call) :
  analyze w req cache = (resp, cache', calls) ->
  opt_get (Some (body resp)) (js "cached") = Some (JBool false) ->
  exists (r : AnalysisResult) (analysis_data recommendations_text : jsstring),
    resp = fresh_response r
    /\ In (Called (DbInsertAnalysis (url_of req) analysis_data
                     (score (analysis r)) recommendations_text)) calls
    /\ JSON_parse analysis_data = Some (PageData_json (pageData r))
    /\ JSON_parse recommendations_text
       = Some (recommendations_json (recommendations (analysis r))).
Proof.
  intros Hrun Hfresh. apply analyze_run in Hrun.
  destruct Hrun as [(_ & -> & _)|[(_ & _ & -> & _)|(_ & _ & Hrun)]];
    try discriminate Hfresh.
  destruct Hrun as [(e & _ & -> & _)|[(_ & c & text & _ & _ & _ & Hresp)
                                     |(_ & _ & o & calls' & Hstep & -> & ->)]];
    try discriminate Hfresh.
  { destruct (JSON_parse (c :: text)); subst resp; discriminate Hfresh. }
  apply analyzeSeoMultiStep_run in Hstep. destruct o as [r|e];
    [|discriminate Hfresh].
  destruct Hstep as (page & embedding & matches & _ & _ & ->).
  exists r, (JSON_stringify (PageData_json (pageData r))),
    (JSON_stringify (recommendations_json (recommendations (analysis r)))).
  split; [reflexivity|]. split; [simpl; tauto|].
  split; apply JSON_parse_stringify;
    [apply distinct_keys_pageData|apply distinct_keys_recommendations].
Qed.

(** In the sample world the stored score is the 45 of the response. *)
Lemma analyze_persists_what_it_returns_witness :
  exists (r : AnalysisResult) (analysis_data recommendations_text : jsstring),
    fst (fst (analyze (sample_world short_page) analyze_request ∅))
    = fresh_response r
    /\ In (Called (DbInsertAnalysis (url_of analyze_request) analysis_data
                     (score (analysis r)) recommendations_text))
         (snd (analyze (sample_world short_page) analyze_request ∅))
    /\ JSON_parse analysis_data = Some (PageData_json (pageData r))
    /\ JSON_parse recommendations_text
       = Some (recommendations_json (recommendations (analysis r))).
Proof.
  assert (analyze (sample_world short_page) analyze_request ∅
          = (fst (fst (analyze (sample_world short_page) analyze_request ∅)),
             snd (fst (analyze (sample_world short_page) analyze_request ∅)),
             snd (analyze (sample_world short_page) analyze_request ∅))) as Hrun
    by reflexivity.
  apply (analyze_persists_what_it_returns _ _ _ _ _ _ Hrun). reflexivity.
Defined.

(** The retrieved context of a result is the joined texts of the matches cut
    to 500 units: never longer, and the whole of it when that is short
    enough. *)
Theorem analysis_context_within_budget (w : World) (url : option json)
    (cache cache' : gmap jsstring jsstring) (r : AnalysisResult)
    (calls : list call) :
  run w (analyzeSeoMultiStep url) cache = (Returned r, cache', calls) ->
  length (ragContext (analysis r)) <= 500
  /\ exists (embedding : list (list float)) (matches : list VectorizeMatch),
       answer w _ (VectorizeQuery (head embedding) 10) = Returned matches
       /\ ragContext (analysis r) = take 500 (rag_context matches)
       /\ (length (rag_context matches) <= 500 ->
           ragContext (analysis r) = rag_context matches).
Proof.
  intros Hrun.
  apply analyzeSeoMultiStep_returned in Hrun
    as (page & embedding & matches & _ & Hquery & -> & _).
  cbn [ragContext analysis]. split; [rewrite length_take; lia|].
  exists embedding, matches. split; [exact Hquery|]. split; [reflexivity|].
  intros Hlen. now apply take_ge.
Qed.

(** In the sample world the run returns a result whose context fits. *)
Lemma analysis_context_within_budget_witness :
  exists r : AnalysisResult,
    fst (fst (run (sample_world short_page)
                (analyzeSeoMultiStep (url_of analyze_request)) ∅))
    = Returned r
    /\ length (ragContext (analysis r)) <= 500.
Proof.
  assert (exists r : AnalysisResult,
             run (sample_world short_page)
               (analyzeSeoMultiStep (url_of analyze_request)) ∅
             = (Returned r,
                snd (fst (run (sample_world short_page)
                            (analyzeSeoMultiStep (url_of analyze_request)) ∅)),
                snd (run (sample_world short_page)
                       (analyzeSeoMultiStep (url_of analyze_request)) ∅)))
    as [r Hrun] by (eexists; reflexivity).
  exists r. split; [now rewrite Hrun|].
  apply (analysis_context_within_budget _ _ _ _ _ _ Hrun).
Defined.






(** Every run of the chat route on a body that is not null: the cache is
    not touched; on success the five calls are these; on failure the calls
    stop at the one that failed. *)
Lemma chat_try_run (w : World) (req : json)
    (cache cache' : gmap jsstring jsstring) (o : outcome Response)
    (calls : list call) :
  req <> JNull ->
  run w (chat_try req) cache = (o, cache', calls) ->
  cache' = cache
  /\ match o with
     | Returned resp =>
         exists (embedding : list (list float)) (matches : list VectorizeMatch)
                (history response : option json) (system : jsstring),
           calls
           = [Called (AiEmbed (opt_get (Some req) (js "message")));
              Called (VectorizeQuery (head embedding) 5);
              Called (DbSessionFirst (opt_get (Some req) (js "sessionId")));
              Called (AiChat system (opt_get (Some req) (js "message")) 1024);
              Called (DbSessionReplace (opt_get (Some req) (js "sessionId"))
                        (JSON_stringify
                           (JObj (field (js "lastMessage")
                                    (opt_get (Some req) (js "message"))))))]
           /\ resp
              = mkResponse 200
                  (JObj (field (js "response") response
                         ++ [(js "sources", array_json (chat_sources matches))]))
     | Thrown _ =>
         exists n : nat,
           n < 5 /\ collaborators calls = take (S n) CHAT_ORDER
           /\ operations calls = take (S n) CHAT_OPERATIONS
     end.
Proof.
  intros Hreq. rewrite (chat_try_not_null req Hreq). cbv zeta.
  rewrite run_await. simpl step.
  destruct (answer w _ (AiEmbed _)) as [embedding|e];
    [|intros [= <- <- <-]; split; [reflexivity|exists 0; split; [lia|split; reflexivity]]].
  rewrite run_await. simpl step.
  destruct (answer w _ (VectorizeQuery _ _)) as [matches|e];
    [|intros [= <- <- <-]; split; [reflexivity|exists 1; split; [lia|split; reflexivity]]].
  rewrite run_await. simpl step.
  destruct (answer w _ (DbSessionFirst _)) as [history|e];
    [|intros [= <- <- <-]; split; [reflexivity|exists 2; split; [lia|split; reflexivity]]].
  rewrite run_await. simpl step.
  destruct (answer w _ (AiChat _ _ _)) as [response|e];
    [|intros [= <- <- <-]; split; [reflexivity|exists 3; split; [lia|split; reflexivity]]].
  rewrite run_await. simpl step.
  destruct (answer w _ (DbSessionReplace _ _)) as [[]|e];
    [|intros [= <- <- <-]; split; [reflexivity|exists 4; split; [lia|split; reflexivity]]].
  simpl. intros [= <- <- <-]. split; [reflexivity|].
  exists embedding, matches, history, response. eexists. split; reflexivity.
Qed.

Lemma chat_run (w : World) (req : json)
    (cache cache' : gmap jsstring jsstring) (resp : Response)
    (calls : list call) :
  chat w req cache = (resp, cache', calls) ->
  (req = JNull /\ resp = on_error (Some (engine_message w (TYPE_ERROR (js "message"))))
   /\ cache' = cache /\ calls = [])
  \/ (req <> JNull
      /\ exists o : outcome Response,
           run w (chat_try req) cache = (o, cache', calls)
           /\ resp = match o with Returned r => r | Thrown e => on_error e end).
Proof.
  intros Hrun.
  assert (req = JNull \/ req <> JNull) as [->|Hreq]
    by (destruct req; (now left) || (right; discriminate)).
  - left. unfold chat, serve in Hrun. simpl in Hrun.
    injection Hrun as <- <- <-. auto.
  - right. split; [exact Hreq|]. unfold chat, serve in Hrun.
    destruct (run w (chat_try req) cache) as [[o c] calls0].
    injection Hrun as <- <- <-. now exists o.
Qed.

Lemma not_in_take_CHAT_ORDER (n : nat) :
  ~ In Cache (take n CHAT_ORDER) /\ ~ In Transport (take n CHAT_ORDER).
Proof.
  do 6 (destruct n as [|n]; [simpl; intuition discriminate|]).
  simpl; intuition discriminate.
Qed.

(** The chat route never touches the analysis cache and never fetches a
    page: whatever the request and the world, the cache is as before and no
    call goes to the cache or to the transport. *)
Theorem chat_leaves_cache_alone (w : World) (req : json)
    (cache : gmap jsstring jsstring) :
  snd (fst (chat w req cache)) = cache
  /\ ~ In Cache (collaborators (snd (chat w req cache)))
  /\ ~ In Transport (collaborators (snd (chat w req cache))).
Proof.
  destruct (chat w req cache) as [[resp cache'] calls] eqn:Hrun. cbn [fst snd].
  apply chat_run in Hrun as [(_ & _ & -> & ->)|(Hreq & o & Hrun & _)].
  - simpl. tauto.
  - apply chat_try_run in Hrun as [-> Hcalls]; [|exact Hreq].
    split; [reflexivity|]. destruct o as [r|e].
    + destruct Hcalls as (? & ? & ? & ? & ? & -> & _).
      apply (not_in_take_CHAT_ORDER 5).
    + destruct Hcalls as (n & _ & -> & _). apply not_in_take_CHAT_ORDER.
Qed.

(** The calls of the chat route follow one order: embedding, vector query,
    session read, generation, session write; a run stops somewhere along
    it.  A successful turn has made exactly these five calls, each with the
    message and the session id of the request; and when the generation
    fails the answer is 500 and the session is not written. *)
Theorem chat_call_order (w : World) (req : json)
    (cache cache' : gmap jsstring jsstring) (resp : Response)
    (calls : list call) :
  chat w req cache = (resp, cache', calls) ->
  (exists n : nat, operations calls = take n CHAT_OPERATIONS)
  /\ (status resp = 200 ->
      exists (embedding : list (list float)) (system : jsstring),
        calls
        = [Called (AiEmbed (opt_get (Some req) (js "message")));
           Called (VectorizeQuery (head embedding) 5);
           Called (DbSessionFirst (opt_get (Some req) (js "sessionId")));
           Called (AiChat system (opt_get (Some req) (js "message")) 1024);
           Called (DbSessionReplace (opt_get (Some req) (js "sessionId"))
                     (JSON_stringify
                        (JObj (field (js "lastMessage")
                                 (opt_get (Some req) (js "message"))))))])
  /\ ((forall (system : jsstring) (user : option json) (max_tokens : nat),
          exists e : thrown,
            answer w _ (AiChat system user max_tokens) = Thrown e) ->
      status resp = 500 /\ length calls <= 4
      /\ ~ In SessionWrite (operations calls)).
Proof.
  intros Hrun.
  apply chat_run in Hrun as [(_ & -> & _ & ->)|(Hreq & o & Hrun & ->)].
  { split; [now exists 0|]. split; [discriminate|]. intros _. simpl.
    split; [reflexivity|]. split; [lia|tauto]. }
  pose proof Hrun as Hrun'.
  apply chat_try_run in Hrun as [_ Hcalls]; [|exact Hreq].
  destruct o as [r|e].
  - destruct Hcalls as (embedding & matches & history & response & system
                        & -> & ->).
    split; [now exists 5|]. split; [intros _; now exists embedding, system|].
    intros Hmute. exfalso.
    rewrite (chat_try_not_null req Hreq) in Hrun'. cbv zeta in Hrun'.
    rewrite run_await in Hrun'. simpl step in Hrun'.
    destruct (answer w _ (AiEmbed _)); [|discriminate].
    rewrite run_await in Hrun'. simpl step in Hrun'.
    destruct (answer w _ (VectorizeQuery _ _)); [|discriminate].
    rewrite run_await in Hrun'. simpl step in Hrun'.
    destruct (answer w _ (DbSessionFirst _)); [|discriminate].
    rewrite run_await in Hrun'. simpl step in Hrun'.
    match type of Hrun' with
    | context [answer w _ (AiChat ?s ?u ?m)] =>
        destruct (Hmute s u m) as [e He]; rewrite He in Hrun'
    end.
    discriminate.
  - destruct Hcalls as (n & Hn & Hcalls & Hops).
    split; [now exists (S n)|]. split; [discriminate|].
    intros Hmute. split; [reflexivity|].
    assert (n <> 4) as Hn4.
    { intros ->.
      rewrite (chat_try_not_null req Hreq) in Hrun'. cbv zeta in Hrun'.
      rewrite run_await in Hrun'. simpl step in Hrun'.
      destruct (answer w _ (AiEmbed _));
        [|injection Hrun' as _ _ <-; discriminate Hcalls].
      rewrite run_await in Hrun'. simpl step in Hrun'.
      destruct (answer w _ (VectorizeQuery _ _));
        [|injection Hrun' as _ _ <-; discriminate Hcalls].
      rewrite run_await in Hrun'. simpl step in Hrun'.
      destruct (answer w _ (DbSessionFirst _));
        [|injection Hrun' as _ _ <-; discriminate Hcalls].
      rewrite run_await in Hrun'. simpl step in Hrun'.
      match type of Hrun' with
      | context [answer w _ (AiChat ?s ?u ?m)] =>
          destruct (Hmute s u m) as [e' He]; rewrite He in Hrun'
      end.
      injection Hrun' as _ _ <-. discriminate Hcalls. }
    split.
    + assert (length (operations calls) = length calls) as <-
        by apply length_map.
      rewrite Hops, length_take. simpl. lia.
    + rewrite Hops.
      do 4 (destruct n as [|n]; [simpl; intuition discriminate|]). lia.
Qed.

(** In the world whose generation fails: status 500, four calls, no session
    write. *)
Lemma chat_call_order_witness :
  status (fst (fst (chat mute_world chat_request ∅))) = 500
  /\ length (snd (chat mute_world chat_request ∅)) <= 4
  /\ ~ In SessionWrite (operations (snd (chat mute_world chat_request ∅))).
Proof.
  assert (chat mute_world chat_request ∅
          = (fst (fst (chat mute_world chat_request ∅)),
             snd (fst (chat mute_world chat_request ∅)),
             snd (chat mute_world chat_request ∅))) as Hrun by reflexivity.
  apply (chat_call_order _ _ _ _ _ _ Hrun).
  intros system user max_tokens. eexists. reflexivity.
Defined.

Lemma member_distinct (key : jsstring) (members : list (jsstring * json))
    (v : json) :
  Forall (fun kv => distinct_keys (snd kv)) members ->
  member key members = Some v -> distinct_keys v.
Proof.
  induction members as [|[k x] members IH]; [discriminate|].
  intros [Hx Hall]%List.Forall_cons_iff. simpl.
  destruct (str_eqb k key); [intros [= <-]; exact Hx|now apply IH].
Qed.

Lemma field_distinct (req : json) (name key : jsstring) :
  distinct_keys req ->
  distinct_keys (JObj (field name (opt_get (Some req) key))).
Proof.
  intros Hreq. apply distinct_keys_object.
  destruct (opt_get (Some req) key) as [v|] eqn:Hget; simpl.
  - split; [repeat constructor; intros Hin; inversion Hin|].
    constructor; [|constructor]. simpl.
    destruct req as [| | | | |members]; try discriminate Hget.
    apply distinct_keys_object in Hreq as [_ Hall].
    now apply (member_distinct key members).
  - split; constructor.
Qed.

(** Session memory after a successful turn: the last call writes, under the
    session id of the request, a context that reads back as an object with
    the one member [lastMessage], the message of this turn; neither the
    answer nor the earlier context is in it. *)
Theorem chat_session_holds_last_message (w : World) (req : json)
    (cache cache' : gmap jsstring jsstring) (resp : Response)
    (calls : list call) :
  chat w req cache = (resp, cache', calls) ->
  status resp = 200 ->
  distinct_keys req ->
  exists context : jsstring,
    last calls
    = Some (Called (DbSessionReplace (opt_get (Some req) (js "sessionId"))
                      context))
    /\ JSON_parse context
       = Some (JObj (field (js "lastMessage")
                       (opt_get (Some req) (js "message")))).
Proof.
  intros Hrun Hstatus Hkeys.
  apply chat_run in Hrun as [(_ & -> & _)|(Hreq & o & Hrun & ->)];
    [discriminate Hstatus|].
  apply chat_try_run in Hrun as [_ Hcalls]; [|exact Hreq].
  destruct o as [r|e]; [|discriminate Hstatus].
  destruct Hcalls as (? & ? & ? & ? & ? & -> & _).
  eexists. split; [reflexivity|].
  apply JSON_parse_stringify, field_distinct, Hkeys.
Qed.

Lemma chat_session_holds_last_message_witness :
  exists context : jsstring,
    last (snd (chat (sample_world short_page) chat_request ∅))
    = Some (Called (DbSessionReplace (Some (JStr (js "s1"))) context))
    /\ JSON_parse context
       = Some (JObj [(js "lastMessage", JStr (js "What is SEO?"))]).
Proof.
  assert (chat (sample_world short_page) chat_request ∅
          = (fst (fst (chat (sample_world short_page) chat_request ∅)),
             snd (fst (chat (sample_world short_page) chat_request ∅)),
             snd (chat (sample_world short_page) chat_request ∅))) as Hrun
    by reflexivity.
  apply (chat_session_holds_last_message _ _ _ _ _ _ Hrun).
  - reflexivity.
  - apply distinct_keys_object. split; [keys_distinct|repeat constructor].
Defined.

(** A retrieved passage without a text leaves no trace in the context
    handed to the model or shown with the analysis, wherever it stands among
    the matches: no empty segment, no doubled separator. *)
Theorem rag_context_skips_textless (before after : list VectorizeMatch)
    (m : VectorizeMatch) :
  truthy (opt_get (metadata m) (js "text")) = false ->
  rag_context (before ++ m :: after) = rag_context (before ++ after).
Proof.
  intros Hm. unfold rag_context. rewrite !map_app, !List.filter_app.
  cbn [map List.filter]. unfold or_else at 2. rewrite Hm. reflexivity.
Qed.

Lemma rag_context_skips_textless_witness :
  rag_context [seeded_match "title-tags"; bare_match]
  = rag_context [seeded_match "title-tags"].
Proof.
  apply (rag_context_skips_textless [seeded_match "title-tags"] [] bare_match).
  reflexivity.
Defined.

(** ** Seeding *)

(** Every run of the loop appends to the accepted records one record per
    entry, in order, up to the entry that failed; each carries its entry as
    metadata, the first vector of the embedding of the entry's text, and the
    identifier drawn for it. *)
Lemma populate_loop_spec (w : SeedWorld) (knowledge : list KnowledgeItem) :
  forall (drawn : nat) (inserted inserted' : list VectorRecord)
         (o : outcome unit),
    populate_loop w knowledge drawn inserted = (o, inserted') ->
    exists (new : list VectorRecord) (n : nat),
      inserted' = inserted ++ new
      /\ map record_metadata new = take n knowledge
      /\ map record_id new = map (randomUUID w) (seq drawn n)
      /\ Forall (fun r =>
                   exists embedding : list (list float),
                     embed w (item_text (record_metadata r)) = Returned embedding
                     /\ record_values r = head embedding) new
      /\ match o with
         | Returned _ => n = length knowledge
         | Thrown _ => n < length knowledge
         end.
Proof.
  induction knowledge as [|item knowledge IH];
    intros drawn inserted inserted' o Hloop; simpl in Hloop.
  - injection Hloop as <- <-. exists [], 0. rewrite app_nil_r.
    do 3 (split; [reflexivity|]). split; [constructor|reflexivity].
  - destruct (embed w (item_text item)) as [embedding|e] eqn:Hembed.
    2: { injection Hloop as <- <-. exists [], 0. rewrite app_nil_r.
         do 3 (split; [reflexivity|]). split; [constructor|simpl; lia]. }
    destruct (insert_fault w _) as [e|].
    { injection Hloop as <- <-. exists [], 0. rewrite app_nil_r.
      do 3 (split; [reflexivity|]). split; [constructor|simpl; lia]. }
    apply IH in Hloop as (new & n & -> & Hmeta & Hids & Hvalues & Ho).
    exists (mkVectorRecord (randomUUID w drawn) (head embedding) item :: new),
      (S n).
    rewrite <- app_assoc. split; [reflexivity|].
    split; [simpl; now rewrite Hmeta|].
    split; [simpl; now rewrite Hids|].
    split; [constructor; [now exists embedding|exact Hvalues]|].
    destruct o; simpl; lia.
Qed.

(** One request to the seeding route, read off the loop. *)
Lemma populate_vectorize_run (w : SeedWorld)
    (inserted inserted' : list VectorRecord) (resp : Response) :
  populate_vectorize w inserted = (resp, inserted') ->
  exists (new : list VectorRecord) (n : nat),
    inserted' = inserted ++ new
    /\ map record_metadata new = take n KNOWLEDGE
    /\ map record_id new = map (randomUUID w) (seq 0 n)
    /\ Forall (fun r =>
                 exists embedding : list (list float),
                   embed w (item_text (record_metadata r)) = Returned embedding
                   /\ record_values r = head embedding) new
    /\ (status resp = 200 <-> n = 8)
    /\ (status resp = 500 <-> n < 8).
Proof.
  unfold populate_vectorize.
  destruct (populate_loop w KNOWLEDGE 0 inserted) as [o ins] eqn:Hloop.
  apply populate_loop_spec in Hloop
    as (new & n & -> & Hmeta & Hids & Hvalues & Ho).
  change (length KNOWLEDGE) with 8 in Ho.
  destruct o as [[]|e]; intros [= <- <-]; exists new, n;
    (split; [reflexivity|]); (split; [exact Hmeta|]); (split; [exact Hids|]);
    (split; [exact Hvalues|]);
    simpl; split; split; intros; try lia; try discriminate; reflexivity.
Qed.

(** The seeding route keeps partial work: whatever happens, the records it
    has had accepted are those of the first [n] knowledge entries, in order;
    it answers 200 exactly when all eight went in, and 500 otherwise, the
    records before the failure staying in the index. *)
Theorem populate_vectorize_keeps_partial_work (w : SeedWorld)
    (inserted inserted' : list VectorRecord) (resp : Response) :
  populate_vectorize w inserted = (resp, inserted') ->
  exists (new : list VectorRecord) (n : nat),
    inserted' = inserted ++ new
    /\ map record_metadata new = take n KNOWLEDGE
    /\ Forall (fun r =>
                 exists embedding : list (list float),
                   embed w (item_text (record_metadata r)) = Returned embedding
                   /\ record_values r = head embedding) new
    /\ (status resp = 200 <-> n = 8)
    /\ (status resp = 500 <-> n < 8).
Proof.
  intros Hrun.
  apply populate_vectorize_run in Hrun
    as (new & n & Hnew & Hmeta & _ & Hvalues & Hok & Hfail).
  exists new, n. auto.
Qed.

(** With the embedding failing on the fourth entry, three records stay. *)
Lemma populate_vectorize_keeps_partial_work_witness :
  exists (new : list VectorRecord) (n : nat),
    snd (populate_vectorize faulty_seed_world []) = [] ++ new
    /\ map record_metadata new = take n KNOWLEDGE
    /\ Forall (fun r =>
                 exists embedding : list (list float),
                   embed faulty_seed_world (item_text (record_metadata r))
                   = Returned embedding
                   /\ record_values r = head embedding) new
    /\ (status (fst (populate_vectorize faulty_seed_world [])) = 200 <-> n = 8)
    /\ (status (fst (populate_vectorize faulty_seed_world [])) = 500 <-> n < 8).
Proof.
  assert (populate_vectorize faulty_seed_world []
          = (fst (populate_vectorize faulty_seed_world []),
             snd (populate_vectorize faulty_seed_world []))) as Hrun
    by reflexivity.
  exact (populate_vectorize_keeps_partial_work _ _ _ _ Hrun).
Defined.

(** The seeding route is not idempotent: two successful runs leave every
    knowledge entry in the index twice. *)
Theorem populate_vectorize_twice_duplicates (w1 w2 : SeedWorld)
    (inserted inserted1 inserted2 : list VectorRecord) (resp1 resp2 : Response) :
  populate_vectorize w1 inserted = (resp1, inserted1) ->
  populate_vectorize w2 inserted1 = (resp2, inserted2) ->
  status resp1 = 200 -> status resp2 = 200 ->
  exists new : list VectorRecord,
    inserted2 = inserted ++ new
    /\ map record_metadata new = KNOWLEDGE ++ KNOWLEDGE
    /\ length inserted2 = length inserted + 16.
Proof.
  intros Hrun1 Hrun2 Hok1 Hok2.
  apply populate_vectorize_run in Hrun1
    as (new1 & n1 & -> & Hmeta1 & _ & _ & Hn1 & _).
  apply populate_vectorize_run in Hrun2
    as (new2 & n2 & -> & Hmeta2 & _ & _ & Hn2 & _).
  apply Hn1 in Hok1. apply Hn2 in Hok2. subst n1 n2.
  exists (new1 ++ new2). rewrite <- app_assoc. split; [reflexivity|].
  split; [rewrite map_app, Hmeta1, Hmeta2; reflexivity|].
  apply (f_equal (@length _)) in Hmeta1, Hmeta2.
  rewrite length_map in Hmeta1, Hmeta2. rewrite !length_app, Hmeta1, Hmeta2.
  reflexivity.
Qed.

Lemma populate_vectorize_twice_duplicates_witness :
  length (snd (populate_vectorize seed_world
                 (snd (populate_vectorize seed_world []))))
  = 16.
Proof.
  assert (populate_vectorize seed_world []
          = (fst (populate_vectorize seed_world []),
             snd (populate_vectorize seed_world []))) as Hrun1 by reflexivity.
  assert (populate_vectorize seed_world (snd (populate_vectorize seed_world []))
          = (fst (populate_vectorize seed_world
                    (snd (populate_vectorize seed_world []))),
             snd (populate_vectorize seed_world
                    (snd (populate_vectorize seed_world [])))))
    as Hrun2 by reflexivity.
  destruct (populate_vectorize_twice_duplicates _ _ _ _ _ _ _ Hrun1 Hrun2
              eq_refl eq_refl) as (new & _ & _ & Hlen).
  exact Hlen.
Defined.

(** ** The description pattern on a well-formed tag *)

Lemma rep_greedy_hit_min {R : Type} (p : N -> bool)
    (k : jsstring -> option R) (t s' : jsstring) (r : R) :
  forall min : nat,
    forallb p t = true -> min <= length t ->
    match s' with [] => True | c :: _ => p c = false end ->
    k s' = Some r ->
    rep p true k min (t ++ s') = Some r.
Proof.
  induction t as [|c t IH]; intros min Hp Hmin Hstop Hk.
  - simpl in Hmin. assert (min = 0) as -> by lia.
    now apply (rep_greedy_hit p k [] s' r).
  - simpl in Hp. apply andb_true_iff in Hp as [Hc Hp].
    destruct min as [|min].
    + now apply (rep_greedy_hit p k (c :: t) s' r); [simpl; rewrite Hc|..].
    + simpl. rewrite Hc. apply IH; auto. simpl in Hmin. lia.
Qed.

Lemma ci_refl (a : N) : ci a a = true.
Proof. unfold ci. apply N.eqb_refl. Qed.

Lemma starts_ci_self (p s : jsstring) : starts_ci p (p ++ s) = true.
Proof. induction p as [|a p IH]; simpl; [reflexivity|]. now rewrite ci_refl. Qed.

Lemma match_seq_lit_self (p : jsstring) (r : list node)
    (cap : option jsstring) (s : jsstring) :
  match_seq (map (fun a => Chr (ci a)) p ++ r) cap (p ++ s) = match_seq r cap s.
Proof. now rewrite match_seq_lit, starts_ci_self, drop_app_length. Qed.

(** The pattern matches a well-formed tag and captures its content. *)
Lemma match_seq_META_hit (ws1 ws2 d post : jsstring) (q1 q2 q3 q4 : N) :
  ws1 <> [] -> forallb space ws1 = true ->
  ws2 <> [] -> forallb space ws2 = true ->
  quote q1 = true -> quote q2 = true -> quote q3 = true -> quote q4 = true ->
  forallb (fun u => negb (quote u) && dot u) d = true ->
  match_seq META_RE None (meta_tag ws1 ws2 d q1 q2 q3 q4 ++ post)
  = Some (Some d, post).
Proof.
  intros Hws1 Hsp1 Hws2 Hsp2 Hq1 Hq2 Hq3 Hq4 Hd.
  assert (forallb dot d = true
          /\ forall t1 t2 x, d = t1 ++ x :: t2 -> quote x = false)
    as [Hdot Hnoquote].
  { rewrite forallb_forall in Hd. split.
    - apply forallb_forall. intros x Hx. now apply Hd, andb_true_iff in Hx.
    - intros t1 t2 x ->.
      assert (In x (t1 ++ x :: t2)) as Hx by (apply in_or_app; right; now left).
      apply Hd, andb_true_iff in Hx as [Hx _]. now destruct (quote x). }
  assert (match_seq [Group (Rep dot 0 false); Chr quote] None (d ++ q4 :: post)
          = Some (Some d, post)) as Hgroup.
  { cbn [match_seq match_node].
    erewrite rep_lazy_hit; [reflexivity|exact Hdot| |].
    - intros t1 [|x t2] Heq Hne; [congruence|]. cbn [app].
      now rewrite (Hnoquote t1 t2 x Heq).
    - rewrite Hq4, length_app, Nat.add_sub, take_app_length. reflexivity. }
  assert (1 <= length ws1 /\ 1 <= length ws2) as [Hlen1 Hlen2]
    by (destruct ws1, ws2; simpl; try congruence; lia).
  unfold META_RE, meta_tag, lit. rewrite <- !app_assoc.
  rewrite match_seq_lit_self. cbn [app match_seq match_node].
  erewrite rep_greedy_hit_min; [reflexivity|exact Hsp1|exact Hlen1|reflexivity|].
  rewrite match_seq_lit_self. cbn [app match_seq match_node]. rewrite Hq1.
  rewrite match_seq_lit_self. cbn [app match_seq match_node]. rewrite Hq2.
  erewrite rep_greedy_hit_min; [reflexivity|exact Hsp2|exact Hlen2|reflexivity|].
  rewrite match_seq_lit_self. cbn [app match_seq match_node]. rewrite Hq3.
  exact Hgroup.
Qed.

Lemma ci_not_lt (a c : N) : ci a c = true -> not_lt a = true -> not_lt c = true.
Proof.
  unfold ci, not_lt, fold_case. intros Hci Ha.
  apply N.eqb_eq in Hci. apply negb_true_iff, N.eqb_neq in Ha.
  apply negb_true_iff, N.eqb_neq. intros ->.
  change ((97 <=? 60)%N && (60 <=? 122)%N) with false in Hci. cbv iota in Hci.
  destruct ((97 <=? a)%N && (a <=? 122)%N) eqn:E.
  - apply andb_true_iff in E as [E1 E2]. apply N.leb_le in E1, E2. lia.
  - congruence.
Qed.

(** What agrees with a literal that has no less-than sign has none. *)
Lemma starts_ci_split (p u : jsstring) :
  starts_ci p u = true -> forallb not_lt p = true ->
  exists m : jsstring,
    u = m ++ drop (length p) u /\ length m = length p
    /\ forallb not_lt m = true /\ starts_ci p m = true.
Proof.
  revert u. induction p as [|a p IH]; intros u Hu Hp.
  - exists []. rewrite drop_0. auto.
  - destruct u as [|c u]; [discriminate|]. simpl in Hu, Hp.
    apply andb_true_iff in Hu as [Hc Hu]. apply andb_true_iff in Hp as [Ha Hp].
    destruct (IH u Hu Hp) as (m & Hm & Hlen & Hlt & Hstart).
    exists (c :: m). simpl. rewrite <- Hm, Hlen, Hc, Hstart.
    rewrite (ci_not_lt a c Hc Ha), Hlt. auto.
Qed.

Lemma forallb_implies {A : Type} (p q : A -> bool) (l : list A) :
  (forall x, p x = true -> q x = true) ->
  forallb p l = true -> forallb q l = true.
Proof.
  intros Hpq. rewrite !forallb_forall. auto.
Qed.

(** A match of the description pattern: after its first unit comes a run
    without less-than sign that ends with the word description. *)
Lemma match_seq_META_shape (u : jsstring) (x : option jsstring * jsstring) :
  match_seq META_RE None u = Some x ->
  exists (c0 : N) (body word tail : jsstring),
    u = c0 :: body ++ word ++ tail
    /\ forallb not_lt (body ++ word) = true
    /\ starts_ci (js "description") word = true.
Proof.
  unfold META_RE, lit. intros Hm.
  rewrite match_seq_lit in Hm.
  destruct (starts_ci (js "<meta") u) eqn:Hopen; [|discriminate].
  destruct u as [|c0 u]; [discriminate|].
  simpl in Hopen. apply andb_true_iff in Hopen as [_ Hopen].
  apply (starts_ci_split (js "meta") u) in Hopen as (m1 & Hu & _ & Hm1 & _);
    [|reflexivity].
  change (drop (length (js "<meta")) (c0 :: u)) with (drop (length (js "meta")) u)
    in Hm.
  remember (drop (length (js "meta")) u) as u1 eqn:Hu1. clear Hu1.
  cbn [app match_seq match_node] in Hm.
  apply rep_some_split in Hm as (ws & u2 & -> & Hws & _ & Hm).
  rewrite match_seq_lit in Hm.
  destruct (starts_ci (js "name=") u2) eqn:Hname; [|discriminate].
  apply (starts_ci_split (js "name=") u2) in Hname as (m2 & Hu2 & _ & Hm2 & _);
    [|reflexivity].
  remember (drop (length (js "name=")) u2) as u3 eqn:Hu3. clear Hu3.
  cbn [app match_seq match_node] in Hm.
  destruct u3 as [|q u3]; [discriminate|].
  destruct (quote q) eqn:Hq; [|discriminate].
  rewrite match_seq_lit in Hm.
  destruct (starts_ci (js "description") u3) eqn:Hword; [|discriminate].
  apply (starts_ci_split (js "description") u3) in Hword
    as (word & Hu3 & _ & Hwordlt & Hstart); [|reflexivity].
  exists c0, (m1 ++ ws ++ m2 ++ [q]), word,
    (drop (length (js "description")) u3).
  split.
  - rewrite Hu at 1. rewrite Hu2 at 1. rewrite Hu3 at 1.
    now rewrite <- !app_assoc.
  - split; [|exact Hstart].
    rewrite !forallb_app, Hm1, Hm2, Hwordlt.
    assert (forallb not_lt ws = true) as ->.
    { apply (forallb_implies space not_lt ws); [|exact Hws].
      intros y Hy. unfold not_lt.
      destruct (N.eqb_spec y 0x3C) as [->|]; [discriminate Hy|reflexivity]. }
    simpl. unfold not_lt.
    destruct (N.eqb_spec q 0x3C) as [->|]; [discriminate Hq|reflexivity].
Qed.

Lemma prefix_before (c : N) (body tail x y : jsstring) :
  body ++ tail = x ++ c :: y ->
  (forall b : N, In b body -> b <> c) ->
  exists z : jsstring, x = body ++ z.
Proof.
  revert x. induction body as [|b body IH]; intros x Heq Hbody.
  - now exists x.
  - destruct x as [|x0 x]; simpl in Heq.
    + injection Heq as -> _. exfalso. apply (Hbody c); [now left|reflexivity].
    + injection Heq as -> Heq.
      destruct (IH x Heq) as [z ->]; [intros b' Hb'; apply Hbody; now right|].
      now exists z.
Qed.

(** Before a tag, in a text where the word description does not occur, the
    pattern matches nowhere. *)
Lemma match_here_META_miss (pre t1 t2 rest : jsstring) :
  find_ci (js "description") pre = None ->
  pre = t1 ++ t2 -> t2 <> [] ->
  match_here META_RE (t2 ++ 0x3C%N :: rest) = None.
Proof.
  intros Hfind -> Hne. unfold match_here.
  destruct (match_seq META_RE None (t2 ++ 0x3C%N :: rest)) as [x|] eqn:Hm;
    [|reflexivity].
  exfalso. apply match_seq_META_shape in Hm
    as (c0 & body & word & tail & Heq & Hlt & Hword).
  destruct t2 as [|c t2]; [congruence|]. simpl in Heq.
  injection Heq as -> Heq. rewrite app_assoc in Heq. symmetry in Heq.
  apply prefix_before in Heq as [z ->].
  - pose proof (find_ci_None _ _ Hfind (t1 ++ c0 :: body) (word ++ z)) as Hnone.
    rewrite (starts_ci_app _ _ z Hword) in Hnone.
    discriminate Hnone. now rewrite <- !app_assoc.
  - intros b Hb. rewrite forallb_forall in Hlt. apply Hlt in Hb.
    unfold not_lt in Hb. apply negb_true_iff, N.eqb_neq in Hb. exact Hb.
Qed.

(** The description extractor is right on a well-formed description tag:
    with white space between the attributes, the name before the content,
    quotes of either kind, and the word description nowhere before the tag,
    it returns the content up to its first quote or line terminator free
    stretch [d], whatever follows the closing quote. *)
Theorem extractMetaDescription_well_formed (pre ws1 ws2 d post : jsstring)
    (q1 q2 q3 q4 : N) :
  find_ci (js "description") pre = None ->
  ws1 <> [] -> forallb space ws1 = true ->
  ws2 <> [] -> forallb space ws2 = true ->
  quote q1 = true -> quote q2 = true -> quote q3 = true -> quote q4 = true ->
  forallb (fun u => negb (quote u) && dot u) d = true ->
  extractMetaDescription (pre ++ meta_tag ws1 ws2 d q1 q2 q3 q4 ++ post) = d.
Proof.
  intros Hpre Hws1 Hsp1 Hws2 Hsp2 Hq1 Hq2 Hq3 Hq4 Hd.
  unfold extractMetaDescription. rewrite exec_skip.
  - rewrite exec_eq. unfold match_here.
    now rewrite match_seq_META_hit.
  - intros t1 t2 Heq Hne.
    change (meta_tag ws1 ws2 d q1 q2 q3 q4 ++ post)
      with (0x3C%N :: (js "meta" ++ ws1 ++ js "name=" ++ [q1]
                       ++ js "description" ++ [q2] ++ ws2 ++ js "content="
                       ++ [q3] ++ d ++ [q4]) ++ post).
    now apply (match_here_META_miss pre t1 t2).
Qed.

(** A page with a charset meta first and an apostrophe in the content: the
    description stops at the apostrophe. *)
Lemma extractMetaDescription_well_formed_witness :
  extractMetaDescription
    (js "<head><meta charset=utf-8>"
     ++ meta_tag (js " ") (js " ") (js "It") 0x22 0x22 0x22 0x27
     ++ js "s here" ++ [0x22%N] ++ js "></head>")
  = js "It".
Proof.
  apply (extractMetaDescription_well_formed (js "<head><meta charset=utf-8>")
           (js " ") (js " ") (js "It")
           (js "s here" ++ [0x22%N] ++ js "></head>") 0x22 0x22 0x22 0x27);
    try reflexivity; discriminate.
Defined.
